(** * Message splitting and markup degradation of the Telegram bot

    A shallow embedding of the text-chunking part of [src/bot.js]:
    [splitLongMessage], [splitParagraph], [splitSentence], [forceSplit],
    [hasProblematicMarkdown] and [markdownToPlainText], together with the
    pieces of the JavaScript string library they call; further
    [cleanMarkdown], the texts [sendLongMessage] builds for delivery, and
    [sanitizeInput] of [src/middleware/security.js].

    A JavaScript string is modelled as the list of its UTF-16 code units,
    a number that is a length as [nat], and the products [maxLength * 0.8]
    and the like as binary64 values computed with integer arithmetic. *)

From Stdlib Require Import Ascii String.
From Stdlib Require DecimalString DecimalNat.
From Stdlib Require Import Arith ZArith NArith Lia Bool List.
Import ListNotations.

Set Warnings "-abstract-large-number".

(** ** Strings as lists of UTF-16 code units *)

Module JS.

Definition char := N.
Definition str := list char.

(** An ASCII literal as a JavaScript string. *)
Definition lit (s : string) : str := map N_of_ascii (list_ascii_of_string s).

Definition LF : char := 10%N.
Definition CR : char := 13%N.
Definition SPACE : char := 32%N.
Definition DOLLAR : char := 36%N.
Definition AMP : char := 38%N.
Definition QUOTE : char := 39%N.
Definition LPAREN : char := 40%N.
Definition RPAREN : char := 41%N.
Definition STAR : char := 42%N.
Definition DOT : char := 46%N.
Definition GT : char := 62%N.
Definition HASH : char := 35%N.
Definition LBRACKET : char := 91%N.
Definition RBRACKET : char := 93%N.
Definition UNDERSCORE : char := 95%N.
Definition BACKTICK : char := 96%N.

(** [WhiteSpace] and [LineTerminator] of ECMAScript: what [trim] strips
    and what [\s] matches. *)
Definition isWhiteSpace (c : char) : bool :=
  ((9 <=? c) && (c <=? 13) || (c =? 32) || (c =? 160) || (c =? 5760)
   || (8192 <=? c) && (c <=? 8202) || (c =? 8232) || (c =? 8233)
   || (c =? 8239) || (c =? 8287) || (c =? 12288) || (c =? 65279))%N.

(** What [.] does not match. *)
Definition isLineTerminator (c : char) : bool :=
  ((c =? 10) || (c =? 13) || (c =? 8232) || (c =? 8233))%N.

(** [\d] and [\w]. *)
Definition isDigit (c : char) : bool := ((48 <=? c) && (c <=? 57))%N.
Definition isWord (c : char) : bool :=
  (isDigit c || (65 <=? c) && (c <=? 90) || (97 <=? c) && (c <=? 122)
   || (c =? 95))%N.

Fixpoint dropWhile (p : char -> bool) (s : str) : str :=
  match s with
  | [] => []
  | c :: s' => if p c then dropWhile p s' else s
  end.

Fixpoint takeWhile (p : char -> bool) (s : str) : str :=
  match s with
  | [] => []
  | c :: s' => if p c then c :: takeWhile p s' else []
  end.

(** [String.prototype.trim]. *)
Definition trimStart (s : str) : str := dropWhile isWhiteSpace s.
Definition trimEnd (s : str) : str := rev (dropWhile isWhiteSpace (rev s)).
Definition trim (s : str) : str := trimEnd (trimStart s).

(** Truthiness of a string: non-empty. *)
Definition truthy (s : str) : bool :=
  match s with [] => false | _ :: _ => true end.

(** [s.substring(0, k)] and [s.substring(k)]. *)
Definition substring_to (k : nat) (s : str) : str := firstn k s.
Definition substring_from (k : nat) (s : str) : str := skipn k s.

Fixpoint startsWith (p s : str) : bool :=
  match p, s with
  | [], _ => true
  | _ :: _, [] => false
  | a :: p', b :: s' => (a =? b)%N && startsWith p' s'
  end.

(** First occurrence of [p] in [s]: what is before it and what is after. *)
Fixpoint indexOf (p s : str) : option (str * str) :=
  if startsWith p s then Some ([], skipn (length p) s)
  else match s with
       | [] => None
       | c :: s' =>
           match indexOf p s' with
           | Some (b, a) => Some (c :: b, a)
           | None => None
           end
       end.

(** [s.split(sep)] for a non-empty string separator. *)
Fixpoint split_loop (n : nat) (sep s : str) : list str :=
  match n with
  | O => [s]
  | S n' =>
      match indexOf sep s with
      | None => [s]
      | Some (b, a) => b :: split_loop n' sep a
      end
  end.

Definition split (sep s : str) : list str := split_loop (length s) sep s.


(** [s.split(/(?<=[.!?])\s+/)]: a separator is a maximal run of white
    space that directly follows a full stop, an exclamation or a question
    mark.  [prev] tells whether the code unit just read is one of those,
    [insep] whether a separator is being skipped, [acc] is the piece read
    so far, reversed. *)
Definition isSentenceEnd (c : char) : bool :=
  ((c =? 46) || (c =? 33) || (c =? 63))%N.

Fixpoint splitSentences_loop (prev insep : bool) (acc s : str) : list str :=
  match s with
  | [] => [rev acc]
  | c :: s' =>
      if isWhiteSpace c then
        if insep then splitSentences_loop false true acc s'
        else if prev then rev acc :: splitSentences_loop false true [] s'
        else splitSentences_loop false false (c :: acc) s'
      else splitSentences_loop (isSentenceEnd c) false (c :: acc) s'
  end.

Definition splitSentences (s : str) : list str :=
  splitSentences_loop false false [] s.

(** Number to string, for an array index. *)
Definition numToString (n : nat) : str :=
  lit (DecimalString.NilEmpty.string_of_uint (Nat.to_uint n)).

End JS.

(** ** Products of a length and a binary64 constant *)

Module Double.

Local Open Scope Z_scope.

(** The finite non-negative binary64 value [mant * 2 ^ expo]. *)
Record t := mk { mant : Z; expo : Z }.

(** Round-to-nearest-even of [m * 2 ^ e] to 53 significant bits. *)
Definition round53 (m e : Z) : t :=
  let d := Z.log2 m + 1 - 53 in
  if d <=? 0 then mk m e
  else
    let q := Z.shiftr m d in
    let r := m - Z.shiftl q d in
    let half := Z.shiftl 1 (d - 1) in
    let q' := if r <? half then q
              else if half <? r then q + 1
              else if Z.even q then q else q + 1 in
    mk q' (e + d).

(** The literals [0.8], [0.7], [0.6] and [0.5]. *)
Definition c08 : t := mk 7205759403792794 (-53).
Definition c07 : t := mk 6305039478318694 (-53).
Definition c06 : t := mk 5404319552844595 (-53).
Definition c05 : t := mk 4503599627370496 (-53).

(** [n * c] for a length [n]. *)
Definition times (n : nat) (c : t) : t := round53 (Z.of_nat n * mant c) (expo c).

(** [k <= d] for a length [k]. *)
Definition leb (k : nat) (d : t) : bool :=
  if expo d <? 0 then Z.of_nat k * 2 ^ (- expo d) <=? mant d
  else Z.of_nat k <=? mant d * 2 ^ expo d.

(** [k > d]. *)
Definition gtb (k : nat) (d : t) : bool := negb (leb k d).

(** [Math.floor(d)]. *)
Definition floor (d : t) : nat :=
  Z.to_nat (if expo d <? 0 then mant d / 2 ^ (- expo d)
            else mant d * 2 ^ expo d).

End Double.

(** ** Option as the monad of computations that may not finish *)

Definition bind {A B : Type} (a : option A) (k : A -> option B) : option B :=
  match a with
  | Some x => k x
  | None => None
  end.

Notation "x <- a ;; k" := (bind a (fun x => k))
  (at level 61, a at next level, right associativity).
Notation "' p <- a ;; k" := (bind a (fun x => match x with p => k end))
  (at level 61, p pattern, a at next level, right associativity).

Fixpoint foldM {A B : Type} (f : A -> B -> option A) (l : list B) (a : A)
  : option A :=
  match l with
  | [] => Some a
  | x :: l' => a' <- f a x ;; foldM f l' a'
  end.

Fixpoint mapM {A B : Type} (f : A -> option B) (l : list A) : option (list B) :=
  match l with
  | [] => Some []
  | x :: l' => y <- f x ;; ys <- mapM f l' ;; Some (y :: ys)
  end.

(** ** Global regular-expression replacement *)

Module Regex.
Import JS.

(** A pattern is given by its matcher at a position: from the text before
    the position (reversed) and the text from the position on, the length
    of the match and its capture groups ([None]: the group took no part). *)
Definition Pattern := str -> str -> option (nat * list (option str)).

(** [s.replace(rx, f)] for a global [rx]: the loop over the successive
    matches, leftmost first; [f] gets the state of the callback's closure,
    the text before the match, the match, its groups and the text after.
    An empty match copies one code unit and moves on. *)
Fixpoint replaceLoop {St : Type} (fuel : nat) (rx : Pattern)
  (f : St -> str -> str -> list (option str) -> str -> str * St)
  (st : St) (before s : str) : option (str * St) :=
  match fuel with
  | O => None
  | S fuel' =>
      match rx before s with
      | None =>
          match s with
          | [] => Some ([], st)
          | c :: s' =>
              '(out, st') <- replaceLoop fuel' rx f st (c :: before) s' ;;
              Some (c :: out, st')
          end
      | Some (n, caps) =>
          let matched := firstn n s in
          let after := skipn n s in
          let '(rep, st1) := f st (rev before) matched caps after in
          match matched with
          | [] =>
              match s with
              | [] => Some (rep, st1)
              | c :: s' =>
                  '(out, st2) <- replaceLoop fuel' rx f st1 (c :: before) s' ;;
                  Some (rep ++ c :: out, st2)
              end
          | _ :: _ =>
              '(out, st2) <- replaceLoop fuel' rx f st1 (rev matched ++ before) after ;;
              Some (rep ++ out, st2)
          end
      end
  end.

Definition digitVal (c : char) : nat := N.to_nat (c - 48).

(** The [i]-th capture group, counted from 1; an undefined one is empty. *)
Definition capture (caps : list (option str)) (i : nat) : str :=
  match nth_error caps (i - 1) with
  | Some (Some s) => s
  | _ => []
  end.

(** [GetSubstitution] without named groups: [$$], [$&], [$`], [$'], [$n]
    and [$nn] are expanded, a reference to a group that does not exist
    stays as it is written. *)
Fixpoint getSubstitution (matched before after : str)
  (caps : list (option str)) (tpl : str) : str :=
  match tpl with
  | [] => []
  | c :: t =>
      if negb (c =? DOLLAR)%N then c :: getSubstitution matched before after caps t
      else
        match t with
        | [] => [c]
        | d :: t' =>
            if (d =? DOLLAR)%N then DOLLAR :: getSubstitution matched before after caps t'
            else if (d =? AMP)%N then matched ++ getSubstitution matched before after caps t'
            else if (d =? BACKTICK)%N then before ++ getSubstitution matched before after caps t'
            else if (d =? QUOTE)%N then after ++ getSubstitution matched before after caps t'
            else if isDigit d then
              let one :=
                let i := digitVal d in
                if (1 <=? i) && (i <=? length caps)
                then capture caps i ++ getSubstitution matched before after caps t'
                else c :: d :: getSubstitution matched before after caps t' in
              match t' with
              | [] => one
              | d2 :: t'' =>
                  if isDigit d2 then
                    let i2 := 10 * digitVal d + digitVal d2 in
                    if i2 <=? length caps then
                      if 1 <=? i2
                      then capture caps i2 ++ getSubstitution matched before after caps t''
                      else c :: d :: d2 :: getSubstitution matched before after caps t''
                    else one
                  else one
              end
            else c :: getSubstitution matched before after caps t
        end
  end.

(** [s.replace(rx, tpl)] for a global [rx] and a string [tpl]. *)
Definition replaceTemplate (rx : Pattern) (tpl s : str) : option str :=
  '(out, _) <- replaceLoop (S (length s)) rx
      (fun (_ : unit) before matched caps after =>
         (getSubstitution matched before after caps tpl, tt)) tt [] s ;;
  Some out.

(** [s.match(rx)] for a global [rx]: the matches, in order. *)
Definition matchAll (rx : Pattern) (s : str) : option (list str) :=
  '(_, ms) <- replaceLoop (S (length s)) rx
      (fun ms _ matched _ _ => ([], ms ++ [matched])) [] [] s ;;
  Some ms.

(** A pattern without metacharacters. *)
Definition rxLiteral (p : str) : Pattern :=
  fun _ s => if startsWith p s then Some (length p, []) else None.

Definition FENCE : str := lit "```".

(** [/```[\s\S]*?```/]. *)
Definition rxFence : Pattern :=
  fun _ s =>
    if startsWith FENCE s then
      match indexOf FENCE (skipn 3 s) with
      | Some (body, _) => Some (3 + length body + 3, [])
      | None => None
      end
    else None.

Definition inlineBody (c : char) : bool :=
  negb (c =? BACKTICK)%N && negb (c =? LF)%N.

(** [/`([^`\n]+?)`/]. *)
Definition rxInline : Pattern :=
  fun _ s =>
    match s with
    | [] => None
    | c :: s' =>
        if (c =? BACKTICK)%N then
          let body := takeWhile inlineBody s' in
          match body, skipn (length body) s' with
          | _ :: _, d :: _ =>
              if (d =? BACKTICK)%N then Some (S (S (length body)), [Some body])
              else None
          | _, _ => None
          end
        else None
    end.

End Regex.

(** ** The splitter of [bot.js] *)

Module Bot.
Import JS Regex.

Definition codeBlockToken (index : nat) : str :=
  lit "___CODE_BLOCK_" ++ numToString index ++ lit "___".

Definition inlineCodeToken (index : nat) : str :=
  lit "___INLINE_CODE_" ++ numToString index ++ lit "___".

(** [text.replace(rx, (match) => { blocks.push(match); return token })]:
    the new text and the array the callback has filled. *)
Definition extract (rx : Pattern) (token : nat -> str) (text : str)
  : option (str * list str) :=
  replaceLoop (S (length text)) rx
    (fun blocks _ matched _ _ =>
       let blocks' := blocks ++ [matched] in
       (token (length blocks' - 1), blocks'))
    [] [] text.

(** The two extractions that open [splitLongMessage]: fenced blocks
    first, inline code second. *)
Definition protect (text : str) : option (str * list str * list str) :=
  '(withoutFences, codeBlocks) <- extract rxFence codeBlockToken text ;;
  '(textWithPlaceholders, inlineCodeBlocks) <-
     extract rxInline inlineCodeToken withoutFences ;;
  Some (textWithPlaceholders, codeBlocks, inlineCodeBlocks).

(** [blocks.forEach((code, index) => restored = restored.replace(new
    RegExp(token index, 'g'), code))], from [index] on. *)
Fixpoint restoreFrom (token : nat -> str) (index : nat) (blocks : list str)
  (restored : str) : option str :=
  match blocks with
  | [] => Some restored
  | code :: blocks' =>
      r <- replaceTemplate (rxLiteral (token index)) code restored ;;
      restoreFrom token (S index) blocks' r
  end.

Definition restore (inlineCodeBlocks codeBlocks : list str) (chunk : str)
  : option str :=
  r <- restoreFrom inlineCodeToken 0 inlineCodeBlocks chunk ;;
  restoreFrom codeBlockToken 0 codeBlocks r.

(** [current ? current + sep + piece : piece]. *)
Definition joinWith (sep currentChunk piece : str) : str :=
  if truthy currentChunk then currentChunk ++ sep ++ piece else piece.

(** [if (current.trim()) chunks.push(current.trim())]. *)
Definition pushTrimmed (chunks : list str) (currentChunk : str) : list str :=
  if truthy (trim currentChunk) then chunks ++ [trim currentChunk] else chunks.

(** [while (over(remainingWord.length)) { chunks.push(remainingWord
    .substring(0, k)); remainingWord = remainingWord.substring(k) }]. *)
Fixpoint cutWord (fuel : nat) (over : nat -> bool) (k : nat)
  (chunks : list str) (remainingWord : str) : option (list str * str) :=
  if over (length remainingWord) then
    match fuel with
    | O => None
    | S fuel' =>
        cutWord fuel' over k (chunks ++ [substring_to k remainingWord])
          (substring_from k remainingWord)
    end
  else Some (chunks, remainingWord).

Section Tiers.

Variable fuel : nat.
Variable maxLength : nat.

(** One turn of the loop over the words of [splitSentence]. *)
Definition splitSentence_step (st : list str * str) (word : str)
  : option (list str * str) :=
  let '(chunks, currentChunk) := st in
  let potentialChunk := joinWith (lit " ") currentChunk word in
  if Double.leb (length potentialChunk) (Double.times maxLength Double.c06)
  then Some (chunks, potentialChunk)
  else
    let chunks := pushTrimmed chunks currentChunk in
    if Double.gtb (length word) (Double.times maxLength Double.c06) then
      cutWord fuel
        (fun n => Double.gtb n (Double.times maxLength Double.c06))
        (Double.floor (Double.times maxLength Double.c06)) chunks word
    else Some (chunks, word).

Definition splitSentence (sentence : str) : option (list str) :=
  '(chunks, currentChunk) <-
     foldM splitSentence_step (split (lit " ") sentence) ([], []) ;;
  Some (pushTrimmed chunks currentChunk).

(** One turn of the loop over the sentences of [splitParagraph]. *)
Definition splitParagraph_step (st : list str * str) (sentence : str)
  : option (list str * str) :=
  let '(chunks, currentChunk) := st in
  let potentialChunk := joinWith (lit " ") currentChunk sentence in
  if Double.leb (length potentialChunk) (Double.times maxLength Double.c07)
  then Some (chunks, potentialChunk)
  else
    let chunks := pushTrimmed chunks currentChunk in
    if Double.gtb (length sentence) (Double.times maxLength Double.c05) then
      pieces <- splitSentence sentence ;;
      Some (chunks ++ pieces, [])
    else Some (chunks, sentence).

Definition splitParagraph (paragraph : str) : option (list str) :=
  '(chunks, currentChunk) <-
     foldM splitParagraph_step (splitSentences paragraph) ([], []) ;;
  Some (pushTrimmed chunks currentChunk).

(** One turn of the loop over the words of an overlong line in
    [forceSplit]; the state is [chunks] and [lineChunk]. *)
Definition forceSplit_word (st : list str * str) (word : str)
  : option (list str * str) :=
  let '(chunks, lineChunk) := st in
  let potentialLine := joinWith (lit " ") lineChunk word in
  if length potentialLine <=? maxLength then Some (chunks, potentialLine)
  else
    let chunks := pushTrimmed chunks lineChunk in
    if maxLength <? length word then
      cutWord fuel (fun n => maxLength <? n) maxLength chunks word
    else Some (chunks, word).

(** One turn of the loop over the lines of [forceSplit]. *)
Definition forceSplit_line (st : list str * str) (line : str)
  : option (list str * str) :=
  let '(chunks, currentChunk) := st in
  let potentialChunk := joinWith [LF] currentChunk line in
  if length potentialChunk <=? maxLength then Some (chunks, potentialChunk)
  else
    let chunks := pushTrimmed chunks currentChunk in
    if maxLength <? length line then
      foldM forceSplit_word (split (lit " ") line) (chunks, [])
    else Some (chunks, line).

Definition forceSplit (text : str) : option (list str) :=
  '(chunks, currentChunk) <-
     foldM forceSplit_line (split [LF] text) ([], []) ;;
  Some (pushTrimmed chunks currentChunk).

(** One turn of the loop over the paragraphs of [splitLongMessage]. *)
Definition paragraph_step (st : list str * str) (paragraph : str)
  : option (list str * str) :=
  let '(chunks, currentChunk) := st in
  let potentialChunk := joinWith [LF; LF] currentChunk paragraph in
  if Double.leb (length potentialChunk) (Double.times maxLength Double.c08)
  then Some (chunks, potentialChunk)
  else
    let chunks := pushTrimmed chunks currentChunk in
    if Double.gtb (length paragraph) (Double.times maxLength Double.c06) then
      pieces <- splitParagraph paragraph ;;
      Some (chunks ++ pieces, [])
    else Some (chunks, paragraph).

(** The paragraph loop and the push of the last chunk. *)
Definition paragraphChunks (textWithPlaceholders : str) : option (list str) :=
  '(chunks, currentChunk) <-
     foldM paragraph_step (split [LF; LF] textWithPlaceholders) ([], []) ;;
  Some (pushTrimmed chunks currentChunk).

(** The loop that validates each chunk against [maxLength]. *)
Fixpoint validate (chunks : list str) : option (list str) :=
  match chunks with
  | [] => Some []
  | chunk :: chunks' =>
      head <- (if maxLength <? length chunk then forceSplit chunk
               else Some [chunk]) ;;
      tail <- validate chunks' ;;
      Some (head ++ tail)
  end.

Definition splitLongMessage (text : str) : option (list str) :=
  if length text <=? maxLength then Some [text]
  else
    '(textWithPlaceholders, codeBlocks, inlineCodeBlocks) <- protect text ;;
    chunks <- paragraphChunks textWithPlaceholders ;;
    if (length chunks =? 1) && (maxLength <? length (nth 0 chunks []))
    then
      forced <- forceSplit (nth 0 chunks []) ;;
      mapM (restore inlineCodeBlocks codeBlocks) forced
    else
      validatedChunks <- validate chunks ;;
      restoredChunks <- mapM (restore inlineCodeBlocks codeBlocks) validatedChunks ;;
      Some (match restoredChunks with
            | [] => [text]
            | _ :: _ => restoredChunks
            end).

End Tiers.

(** *** The markup checker *)

(** [/(?<!\w)_(?!\w)|(?!\w)_(?=\w)/]. *)
Definition rxUnderscore : Pattern :=
  fun before s =>
    match s with
    | [] => None
    | c :: s' =>
        let prevWord := match before with [] => false | b :: _ => isWord b end in
        let nextWord := match s' with [] => false | d :: _ => isWord d end in
        let alt1 := negb prevWord && (c =? UNDERSCORE)%N && negb nextWord in
        let alt2 := negb (isWord c) && (c =? UNDERSCORE)%N && nextWord in
        if alt1 || alt2 then Some (1, []) else None
    end.

Definition notChar (x c : char) : bool := negb (c =? x)%N.

(** [linkPattern]: an opening bracket, a label without closing bracket
    (the one group), a closing bracket, an opening parenthesis, a target
    without closing parenthesis, a closing parenthesis. *)
Definition rxLink : Pattern :=
  fun _ s =>
    match s with
    | [] => None
    | c :: s1 =>
        if (c =? LBRACKET)%N then
          let label := takeWhile (notChar RBRACKET) s1 in
          match skipn (length label) s1 with
          | r :: p :: s2 =>
              if (r =? RBRACKET)%N && (p =? LPAREN)%N then
                let url := takeWhile (notChar RPAREN) s2 in
                match skipn (length url) s2 with
                | q :: _ =>
                    if (q =? RPAREN)%N
                    then Some (1 + length label + 2 + length url + 1, [Some label])
                    else None
                | [] => None
                end
              else None
          | _ => None
          end
        else None
    end.

(** [(s.match(rx) || []).length]. *)
Definition countMatches (rx : Pattern) (s : str) : option nat :=
  ms <- matchAll rx s ;; Some (length ms).

(** What [hasProblematicMarkdown] computes about the links of the text and
    then leaves unused: the parentheses inside the matches of [linkPattern]. *)
Definition parensInLinks (textToAnalyze : str) : option (nat * nat) :=
  links <- matchAll rxLink textToAnalyze ;;
  openParensInLinks <- countMatches (rxLiteral [LPAREN]) (concat links) ;;
  closeParensInLinks <- countMatches (rxLiteral [RPAREN]) (concat links) ;;
  Some (openParensInLinks, closeParensInLinks).

(** The text the checker looks at: code blocks and inline code removed. *)
Definition analyzed (text : str) : option str :=
  t <- replaceTemplate rxFence [] text ;;
  replaceTemplate rxInline [] t.

Definition hasProblematicMarkdown (text : str) : option bool :=
  textToAnalyze <- analyzed text ;;
  totalAsterisk <- countMatches (rxLiteral [STAR]) textToAnalyze ;;
  boldCount <- countMatches (rxLiteral [STAR; STAR]) textToAnalyze ;;
  let italicAsterisk := totalAsterisk - boldCount * 2 in
  if (0 <? totalAsterisk) && (Nat.odd boldCount || Nat.odd italicAsterisk)
  then Some true
  else
    underscores <- countMatches rxUnderscore textToAnalyze ;;
    if Nat.odd underscores then Some true
    else
      openBrackets <- countMatches (rxLiteral [LBRACKET]) textToAnalyze ;;
      closeBrackets <- countMatches (rxLiteral [RBRACKET]) textToAnalyze ;;
      if negb (openBrackets =? closeBrackets) then Some true
      else
        _ <- parensInLinks textToAnalyze ;;
        totalOpenParens <- countMatches (rxLiteral [LPAREN]) textToAnalyze ;;
        totalCloseParens <- countMatches (rxLiteral [RPAREN]) textToAnalyze ;;
        if negb (totalOpenParens =? totalCloseParens) then Some true
        else Some false.

(** *** The plain-text degrader *)

Definition noLineTerminator (s : str) : bool :=
  forallb (fun c => negb (isLineTerminator c)) s.

(** [/```(\w+)?\n?([\s\S]*?)```/]. *)
Definition rxFenceLang : Pattern :=
  fun _ s =>
    if startsWith FENCE s then
      let r1 := skipn 3 s in
      let w := takeWhile isWord r1 in
      let r2 := skipn (length w) r1 in
      let nl := match r2 with
                | c :: _ => if (c =? LF)%N then 1 else 0
                | [] => 0
                end in
      match indexOf FENCE (skipn nl r2) with
      | Some (body, _) =>
          Some (3 + length w + nl + length body + 3,
                [match w with [] => None | _ :: _ => Some w end; Some body])
      | None => None
      end
    else None.

(** [op(.*?)cl] for literal [op] and [cl]. *)
Definition rxBetween (op cl : str) : Pattern :=
  fun _ s =>
    if startsWith op s then
      match indexOf cl (skipn (length op) s) with
      | Some (body, _) =>
          if noLineTerminator body
          then Some (length op + length body + length cl, [Some body])
          else None
      | None => None
      end
    else None.

(** [/\[(.*?)\]\(.*?\)/]. *)
Definition rxLinkLazy : Pattern :=
  fun _ s =>
    match s with
    | [] => None
    | c :: s1 =>
        if (c =? LBRACKET)%N then
          match indexOf [RBRACKET; LPAREN] s1 with
          | Some (label, s2) =>
              match indexOf [RPAREN] s2 with
              | Some (url, _) =>
                  if noLineTerminator label && noLineTerminator url
                  then Some (1 + length label + 2 + length url + 1, [Some label])
                  else None
              | None => None
              end
          | None => None
          end
        else None
    end.

(** [^] under the [m] flag. *)
Definition atLineStart (before : str) : bool :=
  match before with
  | [] => true
  | b :: _ => isLineTerminator b
  end.

(** [/^p+\s*/m] or [/^p\s*/m] for a class [p] of code units. *)
Definition rxLineMarker (p : char -> bool) (many : bool) : Pattern :=
  fun before s =>
    if atLineStart before then
      let run := takeWhile p s in
      let mark := if many then run else firstn 1 run in
      match mark with
      | [] => None
      | _ :: _ =>
          Some (length mark
                + length (takeWhile isWhiteSpace (skipn (length mark) s)), [])
      end
    else None.

(** [/^\d+\.\s*/m]. *)
Definition rxNumbered : Pattern :=
  fun before s =>
    if atLineStart before then
      let digits := takeWhile isDigit s in
      match digits, skipn (length digits) s with
      | _ :: _, d :: s' =>
          if (d =? DOT)%N
          then Some (length digits + 1 + length (takeWhile isWhiteSpace s'), [])
          else None
      | _, _ => None
      end
    else None.

(** [/\n{3,}/]. *)
Definition rxBlankLines : Pattern :=
  fun _ s =>
    let run := takeWhile (N.eqb LF) s in
    if 3 <=? length run then Some (length run, []) else None.

Definition tplCode : str :=
  [12300%N] ++ lit "CODE" ++ [12301%N; LF] ++ lit "$2"
  ++ [LF; 12300%N] ++ lit "/CODE" ++ [12301%N].
Definition tplInline : str := [12310%N] ++ lit "$1" ++ [12311%N].
Definition tplBold : str := [12304%N] ++ lit "$1" ++ [12305%N].
Definition tplLink : str := [55357%N; 56599%N] ++ lit "$1".
Definition tplHeader : str := [9654%N; SPACE].
Definition tplQuote : str := [55357%N; 56492%N; SPACE].
Definition tplBullet : str := [8226%N; SPACE].
Definition tplNumbered : str := [9711%N; SPACE].

Definition markdownToPlainText (text : str) : option str :=
  t1 <- replaceTemplate rxFenceLang tplCode text ;;
  t2 <- replaceTemplate rxInline tplInline t1 ;;
  t3 <- replaceTemplate (rxBetween [STAR; STAR] [STAR; STAR]) tplBold t2 ;;
  t4 <- replaceTemplate (rxBetween [STAR] [STAR]) (lit "$1") t3 ;;
  t5 <- replaceTemplate (rxBetween [UNDERSCORE] [UNDERSCORE]) (lit "$1") t4 ;;
  t6 <- replaceTemplate rxLinkLazy tplLink t5 ;;
  t7 <- replaceTemplate (rxLineMarker (N.eqb HASH) true) tplHeader t6 ;;
  t8 <- replaceTemplate (rxLineMarker (N.eqb GT) false) tplQuote t7 ;;
  t9 <- replaceTemplate (rxLineMarker (N.eqb STAR) false) tplBullet t8 ;;
  t10 <- replaceTemplate rxNumbered tplNumbered t9 ;;
  replaceTemplate rxBlankLines [LF; LF] t10.

(** *** What [sendLongMessage] hands to delivery *)

Definition continuedMark : str :=
  [LF; LF] ++ lit "_" ++ [55357%N; 56516%N] ++ lit " Pesan dilanjutkan..._".

Definition continuationMark : str :=
  lit "_" ++ [55357%N; 56516%N] ++ lit " ...lanjutan pesan_" ++ [LF; LF].

(** [chunkText] for chunk [i] of [n], before the first attempt to send. *)
Definition chunkText (n i : nat) (chunk : str) : str :=
  if 1 <? n then
    if i =? 0 then chunk ++ continuedMark
    else if i =? n - 1 then continuationMark ++ chunk
    else continuationMark ++ chunk ++ continuedMark
  else chunk.

Fixpoint chunkTexts (n i : nat) (chunks : list str) : list str :=
  match chunks with
  | [] => []
  | chunk :: chunks' => chunkText n i chunk :: chunkTexts n (S i) chunks'
  end.

(** The texts [sendLongMessage] builds, in order: the text itself when it
    is at most 2000 code units long, the chunks with their marks
    otherwise. *)
Definition sendLongMessage_texts (fuel : nat) (text : str) : option (list str) :=
  let maxLength := 2000 in
  if length text <=? maxLength then Some [text]
  else
    chunks <- splitLongMessage fuel maxLength text ;;
    Some (chunkTexts (length chunks) 0 chunks).

(** *** The markup cleaner *)

Definition cleanBlockToken (index : nat) : str :=
  lit "__CODE_BLOCK_" ++ numToString index ++ lit "__".

Definition cleanInlineToken (index : nat) : str :=
  lit "__INLINE_CODE_" ++ numToString index ++ lit "__".

(** [s.replace(pattern, tpl)] for a string [pattern]: the first occurrence
    only, the template expanded as for a regular expression without
    groups. *)
Definition replaceFirst (pattern tpl s : str) : str :=
  match indexOf pattern s with
  | Some (before, after) =>
      before ++ getSubstitution pattern before after [] tpl ++ after
  | None => s
  end.

(** [blocks.forEach((code, index) => cleaned = cleaned.replace(token index,
    code))], from [index] on. *)
Fixpoint restoreFirst (token : nat -> str) (index : nat) (blocks : list str)
  (cleaned : str) : str :=
  match blocks with
  | [] => cleaned
  | code :: blocks' =>
      restoreFirst token (S index) blocks' (replaceFirst (token index) code cleaned)
  end.

(** Two stars, a run without star (the one group), a star that no star
    follows: the first pattern of the bold repair. *)
Definition rxBoldOpen : Pattern :=
  fun _ s =>
    if startsWith [STAR; STAR] s then
      let rest := skipn 2 s in
      let body := takeWhile (notChar STAR) rest in
      match skipn (length body) rest with
      | c :: after =>
          if (c =? STAR)%N && negb (startsWith [STAR] after)
          then Some (2 + length body + 1, [Some body])
          else None
      | [] => None
      end
    else None.

(** A star that no star follows, a run without star (the one group), two
    stars: the second pattern of the bold repair. *)
Definition rxBoldClose : Pattern :=
  fun _ s =>
    match s with
    | c :: rest =>
        if (c =? STAR)%N && negb (startsWith [STAR] rest) then
          let body := takeWhile (notChar STAR) rest in
          if startsWith [STAR; STAR] (skipn (length body) rest)
          then Some (1 + length body + 2, [Some body])
          else None
        else None
    | [] => None
    end.

(** Two stars, white space, two stars. *)
Definition rxEmptyBold : Pattern :=
  fun _ s =>
    if startsWith [STAR; STAR] s then
      let ws := takeWhile isWhiteSpace (skipn 2 s) in
      if startsWith [STAR; STAR] (skipn (length ws) (skipn 2 s))
      then Some (2 + length ws + 2, [])
      else None
    else None.

Definition italicBody (c : char) : bool := notChar STAR c && notChar LF c.

(** A star that no star precedes, a non-empty run without star and line
    feed (the one group), a star that no star follows. *)
Definition rxItalic : Pattern :=
  fun before s =>
    match s with
    | c :: rest =>
        if (c =? STAR)%N && negb (startsWith [STAR] before) then
          let body := takeWhile italicBody rest in
          match body, skipn (length body) rest with
          | _ :: _, d :: after =>
              if (d =? STAR)%N && negb (startsWith [STAR] after)
              then Some (1 + length body + 1, [Some body])
              else None
          | _, _ => None
          end
        else None
    | [] => None
    end.

(** [content.includes('*')]. *)
Definition includes (c : char) (s : str) : bool := existsb (N.eqb c) s.

(** The italic repair: the replace whose callback gives back the content
    when it holds a star and the match otherwise. *)
Definition repairItalic (cleaned : str) : option str :=
  '(out, _) <- replaceLoop (S (length cleaned)) rxItalic
      (fun (_ : unit) _ matched caps _ =>
         let content := capture caps 1 in
         (if includes STAR content then content else matched, tt))
      tt [] cleaned ;;
  Some out.

(** [$] under the [m] flag. *)
Definition atLineEnd (rest : str) : bool :=
  match rest with
  | [] => true
  | c :: _ => isLineTerminator c
  end.

(** [c] at the start of a line, not followed by [c]. *)
Definition rxLeading (c : char) : Pattern :=
  fun before s =>
    match s with
    | x :: rest =>
        if atLineStart before && (x =? c)%N && negb (startsWith [c] rest)
        then Some (1, [])
        else None
    | [] => None
    end.

(** [c] at the end of a line, not preceded by [c]. *)
Definition rxTrailing (c : char) : Pattern :=
  fun before s =>
    match s with
    | x :: rest =>
        if negb (startsWith [c] before) && (x =? c)%N && atLineEnd rest
        then Some (1, [])
        else None
    | [] => None
    end.

(** An opening bracket and the rest of its line (the one group), which
    holds no closing bracket. *)
Definition rxOpenBracket : Pattern :=
  fun _ s =>
    match s with
    | c :: rest =>
        if (c =? LBRACKET)%N then
          let body := takeWhile (fun x => negb (isLineTerminator x)) rest in
          if forallb (notChar RBRACKET) body
          then Some (1 + length body, [Some body])
          else None
        else None
    | [] => None
    end.

(** From the start of a line, a run without opening bracket (the one
    group) up to the first closing bracket. *)
Definition rxCloseBracket : Pattern :=
  fun before s =>
    if atLineStart before then
      let body := takeWhile (notChar RBRACKET) s in
      match skipn (length body) s with
      | _ :: _ =>
          if forallb (notChar LBRACKET) body
          then Some (length body + 1, [Some body])
          else None
      | [] => None
      end
    else None.

Definition cleanMarkdown (text : str) : option str :=
  '(c1, codeBlocks) <- extract rxFence cleanBlockToken text ;;
  '(c2, inlineCodeBlocks) <- extract rxInline cleanInlineToken c1 ;;
  c3 <- replaceTemplate rxBoldOpen (lit "**$1**") c2 ;;
  c4 <- replaceTemplate rxBoldClose (lit "**$1**") c3 ;;
  c5 <- replaceTemplate rxEmptyBold [] c4 ;;
  c6 <- repairItalic c5 ;;
  c7 <- replaceTemplate (rxLeading STAR) [] c6 ;;
  c8 <- replaceTemplate (rxTrailing STAR) [] c7 ;;
  c9 <- replaceTemplate (rxLeading UNDERSCORE) [] c8 ;;
  c10 <- replaceTemplate (rxTrailing UNDERSCORE) [] c9 ;;
  c11 <- replaceTemplate rxOpenBracket (lit "$1") c10 ;;
  c12 <- replaceTemplate rxCloseBracket (lit "$1") c11 ;;
  Some (restoreFirst cleanBlockToken 0 codeBlocks
          (restoreFirst cleanInlineToken 0 inlineCodeBlocks c12)).

End Bot.

(** ** The input sanitizer of [middleware/security.js] *)

Module Security.
Import JS Regex.

(** A class of code units, as a pattern. *)
Definition rxClass (p : char -> bool) : Pattern :=
  fun _ s =>
    match s with
    | c :: _ => if p c then Some (1, []) else None
    | [] => None
    end.

(** [Canonicalize] under the [i] flag without the [u] flag, as far as a
    comparison with an ASCII code unit goes: the ASCII letters go to upper
    case, and a code unit from 128 on never becomes an ASCII one. *)
Definition canonicalize (c : char) : char :=
  if (97 <=? c)%N && (c <=? 122)%N then (c - 32)%N else c.

Fixpoint startsWithCI (p s : str) : bool :=
  match p, s with
  | [], _ => true
  | _ :: _, [] => false
  | a :: p', b :: s' => (canonicalize a =? canonicalize b)%N && startsWithCI p' s'
  end.

(** A pattern of ASCII code units under the [i] flag. *)
Definition rxLiteralCI (p : str) : Pattern :=
  fun _ s => if startsWithCI p s then Some (length p, []) else None.

Definition isAngle (c : char) : bool := ((c =? 60) || (c =? 62))%N.

Definition sanitizeInput (text : str) : option str :=
  t1 <- replaceTemplate (rxClass isAngle) [] text ;;
  t2 <- replaceTemplate (rxLiteralCI (lit "javascript:")) [] t1 ;;
  t3 <- replaceTemplate (rxLiteralCI (lit "data:")) [] t2 ;;
  Some (trim t3).

End Security.

(** ** Notions used in the statements *)

Section Notions.
Import JS Regex Bot.

(** A binary64 constant below one, as the literals of the thresholds are. *)
Definition fraction (c : Double.t) : Prop :=
  (Double.expo c = -53 /\ 0 <= Double.mant c <= 2 ^ 53 - 2)%Z.

(** The largest length that passes the test [length <= L * c]. *)
Definition thr (L : nat) (c : Double.t) : nat := Double.floor (Double.times L c).

(** Every chunk is within the budget. *)
Definition within (L : nat) (chunks : list str) : Prop :=
  Forall (fun c => length c <= L) chunks.

Definition state_within (L : nat) (st : list str * str) : Prop :=
  within L (fst st) /\ length (snd st) <= L.

(** The text has no backtick, so no code span is extracted from it. *)
Definition noBacktick (s : str) : bool := forallb (fun c => negb (c =? BACKTICK)%N) s.

(** The string has no dollar sign, so it stands for itself as a template. *)
Definition noDollar (s : str) : bool := forallb (fun c => negb (c =? DOLLAR)%N) s.

(** The code units of a string that are not white space, in order. *)
Definition nonWhite (s : str) : str := filter (fun c => negb (isWhiteSpace c)) s.

Definition content (st : list str * str) : str := nonWhite (concat (fst st) ++ snd st).

(** Only white space. *)
Definition blank (s : str) : bool := forallb isWhiteSpace s.

Definition blank_state (st : list str * str) : Prop :=
  fst st = [] /\ blank (snd st) = true.

(** Only spaces and line feeds. *)
Definition spacesAndLineFeeds (s : str) : bool :=
  forallb (fun c => (c =? SPACE)%N || (c =? LF)%N) s.

(** No white space and no backtick. *)
Definition dense (s : str) : bool :=
  forallb (fun c => negb (isWhiteSpace c) && negb (c =? BACKTICK)%N) s.

(** [s.substring(a, b)] for [a <= b]. *)
Definition slice (a b : nat) (s : str) : str := firstn (b - a) (skipn a s).

(** The value of a product as a multiple of [2 ^ -53]. *)
Definition scaled (d : Double.t) : Z := (Double.mant d * 2 ^ (Double.expo d + 53))%Z.

(** No chunk is empty. *)
Definition solid (chunks : list str) : Prop := Forall (fun c => c <> []) chunks.

(** The occurrences of a code unit. *)
Definition count (c : char) (s : str) : nat := length (filter (N.eqb c) s).

(** None of the characters the checker counts. *)
Definition markupFree (s : str) : bool :=
  forallb (fun c => notChar STAR c && notChar UNDERSCORE c && notChar LBRACKET c
                    && notChar RBRACKET c && notChar LPAREN c && notChar RPAREN c
                    && notChar BACKTICK c) s.

(** None of the characters the cleaner looks for. *)
Definition cleanFree (s : str) : bool :=
  forallb (fun c => notChar STAR c && notChar UNDERSCORE c && notChar LBRACKET c
                    && notChar RBRACKET c && notChar BACKTICK c) s.

(** No line starts with a code unit of the class [p]; [start] tells whether
    the string begins at the start of a line. *)
Fixpoint noLineStartsWith (p : char -> bool) (start : bool) (s : str) : bool :=
  match s with
  | [] => true
  | c :: s' => negb (start && p c) && noLineStartsWith p (isLineTerminator c) s'
  end.

(** Running prose: no backtick, star, underscore or opening bracket, no line
    that starts with a hash, a [>] or a digit, no three line feeds in a row. *)
Definition prose (s : str) : bool :=
  forallb (fun c => notChar BACKTICK c && notChar STAR c && notChar UNDERSCORE c
                    && notChar LBRACKET c) s
  && noLineStartsWith (fun c => (HASH =? c)%N || (GT =? c)%N || isDigit c) true s
  && match indexOf [LF; LF; LF] s with None => true | Some _ => false end.

(** The colon of the two patterns of [sanitizeInput]. *)
Definition COLON : char := 58%N.

(** Neither angle bracket nor colon. *)
Definition ordinary (s : str) : bool :=
  forallb (fun c => negb (Security.isAngle c) && notChar COLON c) s.

Definition noAngle (s : str) : bool := forallb (fun c => negb (Security.isAngle c)) s.

(** One line of text without backtick, star, underscore and opening
    bracket. *)
Definition plainLine (s : str) : bool :=
  forallb (fun c => notChar BACKTICK c && notChar STAR c && notChar UNDERSCORE c
                    && notChar LBRACKET c && negb (isLineTerminator c)) s.

(** The text does not start with a hash, a [>] or a digit. *)
Definition unmarked (s : str) : bool :=
  match s with
  | [] => true
  | c :: _ => negb ((HASH =? c)%N || (GT =? c)%N || isDigit c)
  end.

(** The text made of the gaps with an item after each gap but the last. *)
Fixpoint weave (gaps items : list str) : str :=
  match gaps with
  | [] => []
  | gap :: gaps' =>
      match items with
      | [] => gap
      | item :: items' => gap ++ item ++ weave gaps' items'
      end
  end.

(** The tokens of the indices [index], ..., [index + n - 1]. *)
Definition tokensFrom (token : nat -> str) (index n : nat) : list str :=
  map token (seq index n).



(** No span holds a dollar sign or is longer than its token. *)
Definition fits (token : nat -> str) (blocks : list str) : Prop :=
  forall i code, nth_error blocks i = Some code ->
    noDollar code = true /\ length code <= length (token i).


End Notions.

(** ** Facts *)

Import JS Regex Bot.

(** *** The model at some inputs *)

(** The four constants are the binary64 values nearest to 4/5, 7/10, 3/5
    and 1/2, with a significand of 53 bits. *)
Example constants_nearest :
  forallb
    (fun '(c, p, q) =>
       (Z.abs (q * Double.mant c - p * 2 ^ 53) * 2 <=? q)%Z
       && (2 ^ 52 <=? Double.mant c)%Z && (Double.mant c <? 2 ^ 53)%Z
       && (Double.expo c =? -53)%Z)
    [(Double.c08, 4, 5); (Double.c07, 7, 10); (Double.c06, 3, 5);
     (Double.c05, 1, 2)]%Z
  = true.
Proof. reflexivity. Qed.

(** [90 * 0.7] is just below 63 and [10 * 0.7] is 7. *)
Example times_90_07 : Double.leb 63 (Double.times 90 Double.c07) = false.
Proof. reflexivity. Qed.

Example times_10_07 : Double.leb 7 (Double.times 10 Double.c07) = true.
Proof. reflexivity. Qed.

Example floor_2000_06 : Double.floor (Double.times 2000 Double.c06) = 1200.
Proof. reflexivity. Qed.

Example split_overlap : split (lit "aa") (lit "aaaaab") = [[]; []; lit "ab"].
Proof. reflexivity. Qed.

Example sentences_of :
  splitSentences (lit "One. Two!  Three") = [lit "One."; lit "Two!"; lit "Three"].
Proof. reflexivity. Qed.

Example dollar_in_code :
  replaceTemplate (rxLiteral (codeBlockToken 0)) (lit "```a$$b```")
    (lit "x ___CODE_BLOCK_0___ y") = Some (lit "x ```a$b``` y").
Proof. reflexivity. Qed.

Example degrade_empty : markdownToPlainText [] = Some [].
Proof. reflexivity. Qed.

Example degrade_delimiters : markdownToPlainText (lit "**_*`[(") = Some (lit "_*`[(").
Proof. reflexivity. Qed.

(** *** The rounded products *)

Section DoubleFacts.
Local Open Scope Z_scope.

Lemma round53_cases m e :
  0 <= m ->
  exists q d, Double.round53 m e = Double.mk q (e + d) /\ 0 <= d /\
    (d = 0 /\ q = m \/
     0 < d /\ 2 ^ 52 <= m / 2 ^ d /\ (q = m / 2 ^ d \/ q = m / 2 ^ d + 1)).
Proof.
  intros Hm. unfold Double.round53.
  destruct (Z.leb_spec (Z.log2 m + 1 - 53) 0) as [Hd|Hd].
  - exists m, 0. rewrite Z.add_0_r. auto with zarith.
  - set (d := Z.log2 m + 1 - 53) in *.
    assert (Hq : 2 ^ 52 <= m / 2 ^ d).
    { assert (0 < m) by (destruct (Z.eq_dec m 0); [subst; simpl in *; lia | lia]).
      apply Z.div_le_lower_bound; [lia|].
      rewrite <- Z.pow_add_r by lia.
      replace (d + 52) with (Z.log2 m) by lia.
      apply Z.log2_spec; lia. }
    rewrite Z.shiftr_div_pow2 by lia.
    eexists _, d. split; [reflexivity|]. split; [lia|]. right.
    split; [lia|]. split; [exact Hq|].
    repeat match goal with |- context [if ?b then _ else _] => destruct b end; auto.
Qed.

Lemma mant_round53_nonneg m e : 0 <= m -> 0 <= Double.mant (Double.round53 m e).
Proof.
  intros Hm. destruct (round53_cases m e Hm) as (q & d & -> & _ & [[_ ->]|(Hd & Hq & [->| ->])]);
    simpl; lia.
Qed.

Lemma leb_floor k d :
  0 <= Double.mant d -> Double.leb k d = (k <=? Double.floor d)%nat.
Proof.
  intros Hm. unfold Double.leb, Double.floor.
  destruct (Z.ltb_spec (Double.expo d) 0) as [He|He].
  - assert (Hp : 0 < 2 ^ (- Double.expo d)) by (apply Z.pow_pos_nonneg; lia).
    assert (Hdiv : 0 <= Double.mant d / 2 ^ (- Double.expo d)) by (apply Z.div_pos; lia).
    destruct (Z.leb_spec (Z.of_nat k * 2 ^ (- Double.expo d)) (Double.mant d)) as [H|H];
      symmetry; [apply Nat.leb_le | apply Nat.leb_gt].
    + assert (Z.of_nat k <= Double.mant d / 2 ^ (- Double.expo d))
        by (apply Z.div_le_lower_bound; lia).
      lia.
    + assert (Double.mant d / 2 ^ (- Double.expo d) < Z.of_nat k)
        by (apply Z.div_lt_upper_bound; lia).
      lia.
  - assert (0 <= Double.mant d * 2 ^ Double.expo d) by (apply Z.mul_nonneg_nonneg; [lia|apply Z.pow_nonneg; lia]).
    destruct (Z.leb_spec (Z.of_nat k) (Double.mant d * 2 ^ Double.expo d));
      symmetry; [apply Nat.leb_le | apply Nat.leb_gt]; lia.
Qed.

Lemma round53_upper m e q e' :
  0 <= m -> Double.round53 m e = Double.mk q e' ->
  e <= e' /\ 0 <= q /\ q * 2 ^ (e' - e) * 2 ^ 52 <= m * (2 ^ 52 + 1).
Proof.
  intros Hm H.
  destruct (round53_cases m e Hm) as (q0 & d & E & Hd & C).
  rewrite E in H. injection H as <- <-.
  replace (e + d - e) with d by lia.
  split; [lia|].
  destruct C as [[-> ->]|(Hd' & HQ & Hq)].
  - simpl. lia.
  - assert (HP : 0 < 2 ^ d) by (apply Z.pow_pos_nonneg; lia).
    assert (HM : 2 ^ d * (m / 2 ^ d) <= m) by (apply Z.mul_div_le; lia).
    set (Q := m / 2 ^ d) in *. set (P := 2 ^ d) in *.
    assert (q0 * 2 ^ 52 <= Q * (2 ^ 52 + 1)) by lia.
    split; [lia|].
    assert (q0 * 2 ^ 52 * P <= Q * (2 ^ 52 + 1) * P) by (apply Z.mul_le_mono_nonneg_r; lia).
    assert ((2 ^ 52 + 1) * (P * Q) <= (2 ^ 52 + 1) * m) by (apply Z.mul_le_mono_nonneg_l; lia).
    lia.
Qed.

Lemma round53_lower m e q e' :
  2 ^ 53 <= m -> Double.round53 m e = Double.mk q e' ->
  e < e' /\ 2 ^ 53 <= q * 2 ^ (e' - e).
Proof.
  intros Hm H.
  assert (Hm0 : 0 <= m) by lia.
  destruct (round53_cases m e Hm0) as (q0 & d & E & Hd & C).
  rewrite E in H. injection H as <- <-.
  replace (e + d - e) with d by lia.
  destruct C as [[-> ->]|(Hd' & HQ & Hq)].
  - exfalso. revert E. unfold Double.round53.
    assert (53 <= Z.log2 m) by (apply Z.log2_le_pow2; lia).
    destruct (Z.leb_spec (Z.log2 m + 1 - 53) 0); [lia|].
    intros E. injection E as _ E. lia.
  - split; [lia|].
    assert (HP : 0 < 2 ^ d) by (apply Z.pow_pos_nonneg; lia).
    assert (2 ^ 53 / 2 ^ d <= m / 2 ^ d) by (apply Z.div_le_mono; lia).
    destruct (Z.le_gt_cases d 53).
    + assert (E2 : 2 ^ 53 = 2 ^ (53 - d) * 2 ^ d)
        by (rewrite <- Z.pow_add_r by lia; f_equal; lia).
      rewrite E2 in H at 1. rewrite Z.div_mul in H by lia.
      rewrite E2 at 1. apply Z.mul_le_mono_nonneg_r; lia.
    + assert (2 ^ 53 <= 2 ^ d) by (apply Z.pow_le_mono_r; lia).
      assert (1 <= q0) by lia. nia.
Qed.


Lemma floor_times_le n c : fraction c -> (Double.floor (Double.times n c) <= n)%nat.
Proof.
  intros [He Hm]. unfold Double.times.
  assert (Hnm : 0 <= Z.of_nat n * Double.mant c) by nia.
  destruct (Double.round53 _ _) as [q e'] eqn:E.
  destruct (round53_upper _ _ _ _ Hnm E) as (Hee & Hq & Hb).
  assert (HA : q * 2 ^ (e' - Double.expo c) <= Z.of_nat n * 2 ^ 53).
  { assert (Z.of_nat n * Double.mant c * (2 ^ 52 + 1) <= Z.of_nat n * 2 ^ 53 * 2 ^ 52).
    { replace (Z.of_nat n * Double.mant c * (2 ^ 52 + 1))
        with (Z.of_nat n * (Double.mant c * (2 ^ 52 + 1))) by ring.
      replace (Z.of_nat n * 2 ^ 53 * 2 ^ 52) with (Z.of_nat n * (2 ^ 53 * 2 ^ 52)) by ring.
      apply Z.mul_le_mono_nonneg_l; lia. }
    lia. }
  rewrite He in *. unfold Double.floor. simpl Double.expo. simpl Double.mant.
  destruct (Z.ltb_spec e' 0).
  - assert (HP : 0 < 2 ^ (- e')) by (apply Z.pow_pos_nonneg; lia).
    assert (E2 : 2 ^ 53 = 2 ^ (e' - -53) * 2 ^ (- e'))
      by (rewrite <- Z.pow_add_r by lia; f_equal; lia).
    rewrite E2 in HA.
    assert (HP2 : 0 < 2 ^ (e' - -53)) by (apply Z.pow_pos_nonneg; lia).
    assert (q <= Z.of_nat n * 2 ^ (- e')) by nia.
    assert (q / 2 ^ (- e') <= Z.of_nat n) by (apply Z.div_le_upper_bound; lia).
    lia.
  - assert (E2 : 2 ^ (e' - -53) = 2 ^ e' * 2 ^ 53)
      by (rewrite <- Z.pow_add_r by lia; f_equal; lia).
    rewrite E2 in HA. lia.
Qed.

Lemma floor_times_c06_pos n : (2 <= n)%nat -> (1 <= Double.floor (Double.times n Double.c06))%nat.
Proof.
  intros Hn. unfold Double.times. simpl Double.mant. simpl Double.expo.
  assert (Hm : 2 ^ 53 <= Z.of_nat n * 5404319552844595) by lia.
  destruct (Double.round53 _ _) as [q e'] eqn:E.
  destruct (round53_lower _ _ _ _ Hm E) as (Hee & Hb).
  unfold Double.floor. simpl Double.expo. simpl Double.mant.
  destruct (Z.ltb_spec e' 0).
  - assert (HP : 0 < 2 ^ (- e')) by (apply Z.pow_pos_nonneg; lia).
    assert (E2 : 2 ^ 53 = 2 ^ (e' - -53) * 2 ^ (- e'))
      by (rewrite <- Z.pow_add_r by lia; f_equal; lia).
    rewrite E2 in Hb.
    assert (HP2 : 0 < 2 ^ (e' - -53)) by (apply Z.pow_pos_nonneg; lia).
    assert (2 ^ (- e') <= q) by nia.
    assert (1 <= q / 2 ^ (- e')) by (apply Z.div_le_lower_bound; lia).
    lia.
  - assert (E2 : 2 ^ (e' - -53) = 2 ^ e' * 2 ^ 53)
      by (rewrite <- Z.pow_add_r by lia; f_equal; lia).
    rewrite E2 in Hb.
    assert (0 < 2 ^ e') by (apply Z.pow_pos_nonneg; lia).
    assert (1 <= q * 2 ^ e') by nia. lia.
Qed.

End DoubleFacts.



Lemma fraction_c05 : fraction Double.c05. Proof. split; simpl; lia. Qed.
Lemma fraction_c06 : fraction Double.c06. Proof. split; simpl; lia. Qed.
Lemma fraction_c07 : fraction Double.c07. Proof. split; simpl; lia. Qed.
Lemma fraction_c08 : fraction Double.c08. Proof. split; simpl; lia. Qed.

Lemma leb_thr L c k : fraction c -> Double.leb k (Double.times L c) = (k <=? thr L c).
Proof.
  intros [He Hm]. apply leb_floor. apply mant_round53_nonneg. nia.
Qed.

Lemma gtb_thr L c k : fraction c -> Double.gtb k (Double.times L c) = (thr L c <? k).
Proof.
  intros Hc. unfold Double.gtb. rewrite leb_thr by assumption.
  destruct (Nat.leb_spec k (thr L c)); destruct (Nat.ltb_spec (thr L c) k); simpl; auto; lia.
Qed.

Lemma thr_le L c : fraction c -> thr L c <= L.
Proof. apply floor_times_le. Qed.

(** *** Strings *)

Lemma startsWith_app p r : startsWith p (p ++ r) = true.
Proof. induction p as [|a p IH]; simpl; [reflexivity|]. now rewrite N.eqb_refl. Qed.

Lemma startsWith_true p s : startsWith p s = true -> s = p ++ skipn (length p) s.
Proof.
  revert s. induction p as [|a p IH]; intros [|b s]; simpl; try discriminate; auto.
  intros H. apply andb_prop in H as [H1 H2]. apply N.eqb_eq in H1. subst.
  f_equal. auto.
Qed.

Lemma indexOf_Some p s b a : indexOf p s = Some (b, a) -> s = b ++ p ++ a.
Proof.
  revert b a. induction s as [|c s IH]; intros b a; simpl.
  - destruct (startsWith p []) eqn:E; [|discriminate].
    intros H. injection H as <- <-. apply startsWith_true in E. exact E.
  - destruct (startsWith p (c :: s)) eqn:E.
    + intros H. injection H as <- <-. apply startsWith_true in E. exact E.
    + destruct (indexOf p s) as [[b' a']|]; [|discriminate].
      intros H. injection H as <- <-. simpl. f_equal. now apply IH.
Qed.

Lemma indexOf_shorter p s b a :
  p <> [] -> indexOf p s = Some (b, a) -> length a < length s /\ length b < length s.
Proof.
  intros Hp H. apply indexOf_Some in H. subst.
  rewrite !length_app. destruct p; [congruence|]. simpl. lia.
Qed.

Lemma split_loop_enough sep : sep <> [] ->
  forall n m s, length s <= n -> length s <= m ->
  split_loop n sep s = split_loop m sep s.
Proof.
  intros Hsep. induction n as [|n IH]; intros m s Hn Hm.
  - destruct s; [|simpl in Hn; lia]. destruct m; [reflexivity|].
    cbn [split_loop]. destruct (indexOf sep []) as [[b a]|] eqn:E; [|reflexivity].
    apply indexOf_shorter in E; [simpl in E; lia|assumption].
  - destruct m as [|m].
    + destruct s; [|simpl in Hm; lia]. cbn [split_loop].
      destruct (indexOf sep []) as [[b a]|] eqn:E; [|reflexivity].
      apply indexOf_shorter in E; [simpl in E; lia|assumption].
    + cbn [split_loop]. destruct (indexOf sep s) as [[b a]|] eqn:E; [|reflexivity].
      apply indexOf_shorter in E as [E _]; [|assumption].
      f_equal. apply IH; lia.
Qed.

Lemma split_eq sep s : sep <> [] ->
  split sep s = match indexOf sep s with
                | None => [s]
                | Some (b, a) => b :: split sep a
                end.
Proof.
  intros Hsep. unfold split. destruct s as [|c s].
  - cbn [length split_loop]. destruct (indexOf sep []) as [[b a]|] eqn:E; [|reflexivity].
    apply indexOf_shorter in E; [simpl in E; lia|assumption].
  - cbn [length split_loop]. destruct (indexOf sep (c :: s)) as [[b a]|] eqn:E; [|reflexivity].
    f_equal. apply indexOf_shorter in E; [|assumption].
    apply split_loop_enough; [assumption| |]; simpl in E; lia.
Qed.

(** Induction along [split]. *)
Lemma split_ind sep (P : str -> list str -> Prop) : sep <> [] ->
  (forall s, indexOf sep s = None -> P s [s]) ->
  (forall s b a, indexOf sep s = Some (b, a) -> P a (split sep a) -> P s (b :: split sep a)) ->
  forall s, P s (split sep s).
Proof.
  intros Hsep H1 H2 s.
  remember (length s) as n eqn:En. revert s En.
  induction n as [n IH] using lt_wf_ind. intros s ->.
  rewrite split_eq by assumption.
  destruct (indexOf sep s) as [[b a]|] eqn:E; [|now apply H1].
  apply H2; [assumption|]. apply (IH (length a)); [|reflexivity].
  now apply indexOf_shorter in E.
Qed.

Lemma split_pieces_short sep s w : sep <> [] -> In w (split sep s) -> length w <= length s.
Proof.
  intros Hsep. revert w. pattern s, (split sep s). apply split_ind; [assumption| |].
  - intros s0 _ w [<-|[]]. lia.
  - intros s0 b a E IH w [<-|Hw].
    + apply indexOf_shorter in E; [lia|assumption].
    + apply IH in Hw. apply indexOf_shorter in E; [lia|assumption].
Qed.

Lemma splitSentences_loop_short prev insep acc s w :
  In w (splitSentences_loop prev insep acc s) -> length w <= length acc + length s.
Proof.
  revert prev insep acc. induction s as [|c s IH]; intros prev insep acc; simpl.
  - intros [<-|[]]. rewrite length_rev. lia.
  - destruct (isWhiteSpace c).
    + destruct insep.
      * intros H. apply IH in H. lia.
      * destruct prev.
        -- intros [<-|H]; [rewrite length_rev; lia|]. apply IH in H. simpl in H. lia.
        -- intros H. apply IH in H. simpl in H. lia.
    + intros H. apply IH in H. simpl in H. lia.
Qed.

Lemma splitSentences_short s w : In w (splitSentences s) -> length w <= length s.
Proof. intros H. apply splitSentences_loop_short in H. simpl in H. lia. Qed.

Lemma dropWhile_length p s : length (dropWhile p s) <= length s.
Proof. induction s as [|c s IH]; simpl; [lia|]. destruct (p c); simpl; lia. Qed.

Lemma trim_length s : length (trim s) <= length s.
Proof.
  unfold trim, trimEnd, trimStart. rewrite length_rev.
  etransitivity; [apply dropWhile_length|]. rewrite length_rev. apply dropWhile_length.
Qed.

(** *** Loops and the budget of the tiers *)

Lemma foldM_inv {A B : Type} (P : A -> Prop) (f : A -> B -> option A) l :
  (forall a x a', P a -> In x l -> f a x = Some a' -> P a') ->
  forall a a', P a -> foldM f l a = Some a' -> P a'.
Proof.
  induction l as [|x l IH]; intros Hf a a' Ha; simpl.
  - intros H. injection H as <-. exact Ha.
  - destruct (f a x) as [a1|] eqn:E; simpl; [|discriminate].
    apply IH; [|eapply Hf; eauto; now left].
    intros a0 y a0' Ha0 Hy. apply Hf; [assumption|now right].
Qed.

Lemma foldM_total {A B : Type} (P : A -> Prop) (f : A -> B -> option A) l :
  (forall a x, P a -> In x l -> exists a', f a x = Some a' /\ P a') ->
  forall a, P a -> exists a', foldM f l a = Some a' /\ P a'.
Proof.
  induction l as [|x l IH]; intros Hf a Ha; simpl.
  - eauto.
  - destruct (Hf a x Ha (or_introl eq_refl)) as (a1 & -> & Ha1). simpl.
    apply IH; [|assumption].
    intros a0 y Ha0 Hy. apply Hf; [assumption|now right].
Qed.



Lemma within_app L a b : within L a -> within L b -> within L (a ++ b).
Proof. intros. apply Forall_app. now split. Qed.

Lemma pushTrimmed_within L chunks cur :
  within L chunks -> length cur <= L -> within L (pushTrimmed chunks cur).
Proof.
  intros Hc Hl. unfold pushTrimmed. destruct (truthy (trim cur)); [|assumption].
  apply within_app; [assumption|]. constructor; [|constructor].
  pose proof (trim_length cur). lia.
Qed.

Lemma joinWith_cases sep cur piece :
  joinWith sep cur piece = piece /\ cur = [] \/
  joinWith sep cur piece = cur ++ sep ++ piece /\ cur <> [].
Proof. unfold joinWith. destruct cur; simpl; [now left|right]. split; [reflexivity|discriminate]. Qed.

Lemma cutWord_within fuel over k L :
  k <= L -> (forall n, over n = false -> n <= L) ->
  forall chunks w r, within L chunks -> cutWord fuel over k chunks w = Some r ->
  state_within L r.
Proof.
  intros Hk Hover. induction fuel as [|fuel IH]; intros chunks w r Hc; simpl;
    destruct (over (length w)) eqn:E; try discriminate.
  - intros H. injection H as <-. split; simpl; auto.
  - apply IH. apply within_app; [assumption|]. constructor; [|constructor].
    unfold substring_to. rewrite length_firstn. lia.
  - intros H. injection H as <-. split; simpl; auto.
Qed.

Lemma cutWord_total fuel over k :
  1 <= k -> over 0 = false ->
  forall chunks w, length w <= fuel -> exists r, cutWord fuel over k chunks w = Some r.
Proof.
  intros Hk H0. induction fuel as [|fuel IH]; intros chunks w Hw; simpl;
    destruct (over (length w)) eqn:E; eauto.
  - replace (length w) with 0 in E by lia. congruence.
  - apply IH. unfold substring_from. rewrite length_skipn.
    destruct (length w) eqn:El; [congruence|lia].
Qed.

Section TierFacts.

Variable fuel : nat.
Variable L : nat.

Ltac thresholds :=
  rewrite ?(leb_thr L _ _ fraction_c05), ?(leb_thr L _ _ fraction_c06),
    ?(leb_thr L _ _ fraction_c07), ?(leb_thr L _ _ fraction_c08),
    ?(gtb_thr L _ _ fraction_c05), ?(gtb_thr L _ _ fraction_c06),
    ?(gtb_thr L _ _ fraction_c07), ?(gtb_thr L _ _ fraction_c08).

Lemma splitSentence_step_within st word st' :
  state_within L st -> splitSentence_step fuel L st word = Some st' ->
  state_within L st'.
Proof.
  destruct st as [chunks cur]. intros [Hc Hl]. simpl in Hc, Hl.
  unfold splitSentence_step. thresholds.
  pose proof (thr_le L _ fraction_c06) as H6.
  destruct (Nat.leb_spec (length (joinWith (lit " ") cur word)) (thr L Double.c06)).
  - intros E. injection E as <-. split; simpl; [assumption|lia].
  - destruct (Nat.ltb_spec (thr L Double.c06) (length word)).
    + apply cutWord_within; [exact H6| |now apply pushTrimmed_within].
      intros n Hn. rewrite (gtb_thr L _ _ fraction_c06) in Hn. apply Nat.ltb_ge in Hn. lia.
    + intros E. injection E as <-. split; simpl; [now apply pushTrimmed_within|lia].
Qed.

Lemma splitSentence_within sentence pieces :
  splitSentence fuel L sentence = Some pieces -> within L pieces.
Proof.
  unfold splitSentence.
  destruct (foldM _ _ _) as [[chunks cur]|] eqn:E; simpl; [|discriminate].
  intros H. injection H as <-.
  apply (foldM_inv (state_within L)) in E.
  - destruct E. now apply pushTrimmed_within.
  - intros a x a' Ha _. now apply splitSentence_step_within.
  - split; simpl; [constructor|lia].
Qed.

Lemma splitParagraph_step_within st sentence st' :
  state_within L st -> splitParagraph_step fuel L st sentence = Some st' ->
  state_within L st'.
Proof.
  destruct st as [chunks cur]. intros [Hc Hl]. simpl in Hc, Hl.
  unfold splitParagraph_step. thresholds.
  pose proof (thr_le L _ fraction_c07) as H7.
  pose proof (thr_le L _ fraction_c05) as H5.
  destruct (Nat.leb_spec (length (joinWith (lit " ") cur sentence)) (thr L Double.c07)).
  - intros E. injection E as <-. split; simpl; [assumption|lia].
  - destruct (Nat.ltb_spec (thr L Double.c05) (length sentence)).
    + destruct (splitSentence fuel L sentence) as [pieces|] eqn:E; simpl; [|discriminate].
      intros H1. injection H1 as <-. split; simpl; [|lia].
      apply within_app; [now apply pushTrimmed_within|].
      now apply splitSentence_within with sentence.
    + intros E. injection E as <-. split; simpl; [now apply pushTrimmed_within|lia].
Qed.

Lemma splitParagraph_within paragraph pieces :
  splitParagraph fuel L paragraph = Some pieces -> within L pieces.
Proof.
  unfold splitParagraph.
  destruct (foldM _ _ _) as [[chunks cur]|] eqn:E; simpl; [|discriminate].
  intros H. injection H as <-.
  apply (foldM_inv (state_within L)) in E.
  - destruct E. now apply pushTrimmed_within.
  - intros a x a' Ha _. now apply splitParagraph_step_within.
  - split; simpl; [constructor|lia].
Qed.

Lemma paragraph_step_within st paragraph st' :
  state_within L st -> paragraph_step fuel L st paragraph = Some st' ->
  state_within L st'.
Proof.
  destruct st as [chunks cur]. intros [Hc Hl]. simpl in Hc, Hl.
  unfold paragraph_step. thresholds.
  pose proof (thr_le L _ fraction_c08) as H8.
  pose proof (thr_le L _ fraction_c06) as H6.
  destruct (Nat.leb_spec (length (joinWith [LF; LF] cur paragraph)) (thr L Double.c08)).
  - intros E. injection E as <-. split; simpl; [assumption|lia].
  - destruct (Nat.ltb_spec (thr L Double.c06) (length paragraph)).
    + destruct (splitParagraph fuel L paragraph) as [pieces|] eqn:E; simpl; [|discriminate].
      intros H1. injection H1 as <-. split; simpl; [|lia].
      apply within_app; [now apply pushTrimmed_within|].
      now apply splitParagraph_within with paragraph.
    + intros E. injection E as <-. split; simpl; [now apply pushTrimmed_within|lia].
Qed.

Lemma paragraphChunks_within text chunks :
  paragraphChunks fuel L text = Some chunks -> within L chunks.
Proof.
  unfold paragraphChunks.
  destruct (foldM _ _ _) as [[cs cur]|] eqn:E; simpl; [|discriminate].
  intros H. injection H as <-.
  apply (foldM_inv (state_within L)) in E.
  - destruct E. now apply pushTrimmed_within.
  - intros a x a' Ha _. now apply paragraph_step_within.
  - split; simpl; [constructor|lia].
Qed.

Lemma validate_within chunks :
  within L chunks -> validate fuel L chunks = Some chunks.
Proof.
  induction 1 as [|c cs Hc _ IH]; simpl; [reflexivity|].
  destruct (Nat.ltb_spec L (length c)); [lia|]. simpl. now rewrite IH.
Qed.

End TierFacts.

Section Totality.

Variable fuel : nat.
Variable L : nat.
Hypothesis HL : 2 <= L.

Lemma splitSentence_step_total st word :
  length word <= fuel -> exists st', splitSentence_step fuel L st word = Some st'.
Proof.
  intros Hw. destruct st as [chunks cur]. unfold splitSentence_step.
  destruct (Double.leb _ _); [eauto|].
  destruct (Double.gtb _ _); [|eauto].
  apply cutWord_total; [|now rewrite (gtb_thr L _ _ fraction_c06)|assumption].
  now apply floor_times_c06_pos.
Qed.

Lemma splitSentence_total sentence :
  length sentence <= fuel -> exists pieces, splitSentence fuel L sentence = Some pieces.
Proof.
  intros Hs. unfold splitSentence.
  destruct (foldM_total (fun _ => True) (splitSentence_step fuel L)
              (split (lit " ") sentence)) with (a := (@nil str, @nil char))
    as ([chunks cur] & -> & _); [|exact I|simpl; eauto].
  intros a x _ Hx. destruct (splitSentence_step_total a x) as [st' E]; [|eauto].
  apply split_pieces_short in Hx; [lia|discriminate].
Qed.

Lemma splitParagraph_step_total st sentence :
  length sentence <= fuel -> exists st', splitParagraph_step fuel L st sentence = Some st'.
Proof.
  intros Hw. destruct st as [chunks cur]. unfold splitParagraph_step.
  destruct (Double.leb _ _); [eauto|].
  destruct (Double.gtb _ _); [|eauto].
  destruct (splitSentence_total sentence Hw) as [pieces ->]. simpl. eauto.
Qed.

Lemma splitParagraph_total paragraph :
  length paragraph <= fuel -> exists pieces, splitParagraph fuel L paragraph = Some pieces.
Proof.
  intros Hs. unfold splitParagraph.
  destruct (foldM_total (fun _ => True) (splitParagraph_step fuel L)
              (splitSentences paragraph)) with (a := (@nil str, @nil char))
    as ([chunks cur] & -> & _); [|exact I|simpl; eauto].
  intros a x _ Hx. destruct (splitParagraph_step_total a x) as [st' E]; [|eauto].
  apply splitSentences_short in Hx. lia.
Qed.

Lemma paragraph_step_total st paragraph :
  length paragraph <= fuel -> exists st', paragraph_step fuel L st paragraph = Some st'.
Proof.
  intros Hw. destruct st as [chunks cur]. unfold paragraph_step.
  destruct (Double.leb _ _); [eauto|].
  destruct (Double.gtb _ _); [|eauto].
  destruct (splitParagraph_total paragraph Hw) as [pieces ->]. simpl. eauto.
Qed.

Lemma paragraphChunks_total text :
  length text <= fuel -> exists chunks, paragraphChunks fuel L text = Some chunks.
Proof.
  intros Hs. unfold paragraphChunks.
  destruct (foldM_total (fun _ => True) (paragraph_step fuel L)
              (split [LF; LF] text)) with (a := (@nil str, @nil char))
    as ([chunks cur] & -> & _); [|exact I|simpl; eauto].
  intros a x _ Hx. destruct (paragraph_step_total a x) as [st' E]; [|eauto].
  apply split_pieces_short in Hx; [lia|discriminate].
Qed.

End Totality.

(** *** The replacement loop finishes *)

Lemma replaceLoop_total {St : Type} rx (f : St -> str -> str -> list (option str) -> str -> str * St) :
  forall fuel st before s, length s < fuel ->
  exists r, replaceLoop fuel rx f st before s = Some r.
Proof.
  induction fuel as [|fuel IH]; intros st before s Hs; [lia|].
  cbn [replaceLoop]. destruct (rx before s) as [[n caps]|].
  - destruct (f st (rev before) (firstn n s) caps (skipn n s)) as [rep st1].
    destruct (firstn n s) as [|m ms] eqn:Em.
    + destruct s as [|c s']; [eauto|].
      destruct (IH st1 (c :: before) s') as [[out st2] ->]; [simpl in Hs; lia|].
      simpl. eauto.
    + destruct (IH st1 (rev (m :: ms) ++ before) (skipn n s)) as [[out st2] ->].
      * rewrite length_skipn. destruct n; [discriminate|].
        destruct s; [discriminate|]. simpl in *. lia.
      * simpl. eauto.
  - destruct s as [|c s']; [eauto|].
    destruct (IH st (c :: before) s') as [[out st2] ->]; [simpl in Hs; lia|].
    simpl. eauto.
Qed.

Lemma replaceTemplate_total rx tpl s : exists out, replaceTemplate rx tpl s = Some out.
Proof.
  unfold replaceTemplate.
  destruct (replaceLoop_total rx
              (fun (_ : unit) before matched caps after =>
                 (getSubstitution matched before after caps tpl, tt))
              (S (length s)) tt [] s) as [[out u] ->]; [lia|].
  simpl. eauto.
Qed.

Lemma matchAll_total rx s : exists ms, matchAll rx s = Some ms.
Proof.
  unfold matchAll.
  destruct (replaceLoop_total rx
              (fun (ms : list str) (_ : str) matched (_ : list (option str)) (_ : str) =>
                 (@nil char, ms ++ [matched]))
              (S (length s)) [] [] s) as [[out u] ->]; [lia|].
  simpl. eauto.
Qed.

Lemma extract_total rx token text : exists r, extract rx token text = Some r.
Proof. unfold extract. apply replaceLoop_total. lia. Qed.

Lemma protect_total text : exists t cb ib, protect text = Some (t, cb, ib).
Proof.
  unfold protect.
  destruct (extract_total rxFence codeBlockToken text) as [[t1 cb] ->]. simpl.
  destruct (extract_total rxInline inlineCodeToken t1) as [[t2 ib] ->]. simpl.
  eauto.
Qed.

Lemma restoreFrom_total token blocks : forall index s,
  exists r, restoreFrom token index blocks s = Some r.
Proof.
  induction blocks as [|code blocks IH]; intros index s; simpl; [eauto|].
  destruct (replaceTemplate_total (rxLiteral (token index)) code s) as [r ->].
  simpl. apply IH.
Qed.

Lemma restore_total ib cb chunk : exists r, restore ib cb chunk = Some r.
Proof.
  unfold restore. destruct (restoreFrom_total inlineCodeToken ib 0 chunk) as [r ->].
  simpl. apply restoreFrom_total.
Qed.

Lemma mapM_total {A B : Type} (f : A -> option B) l :
  (forall x, exists y, f x = Some y) ->
  exists ys, mapM f l = Some ys /\ length ys = length l.
Proof.
  intros Hf. induction l as [|x l (ys & E & El)]; simpl; [eauto|].
  destruct (Hf x) as [y ->]. rewrite E. simpl. exists (y :: ys). simpl. auto.
Qed.

Lemma mapM_length {A B : Type} (f : A -> option B) l ys :
  mapM f l = Some ys -> length ys = length l.
Proof.
  revert ys. induction l as [|x l IH]; intros ys; simpl.
  - intros H. now injection H as <-.
  - destruct (f x); simpl; [|discriminate].
    destruct (mapM f l); simpl; [|discriminate].
    intros H. injection H as <-. simpl. f_equal. now apply IH.
Qed.

(** *** Shape of the result on a long text *)

Lemma splitLongMessage_long fuel L text out :
  L < length text -> splitLongMessage fuel L text = Some out ->
  exists t cb ib chunks restored,
    protect text = Some (t, cb, ib) /\
    paragraphChunks fuel L t = Some chunks /\
    within L chunks /\
    mapM (restore ib cb) chunks = Some restored /\
    out = match restored with [] => [text] | _ :: _ => restored end.
Proof.
  intros Hlen. unfold splitLongMessage.
  destruct (Nat.leb_spec (length text) L); [lia|].
  destruct (protect text) as [[[t cb] ib]|] eqn:Ep; simpl; [|discriminate].
  destruct (paragraphChunks fuel L t) as [chunks|] eqn:Ec; simpl; [|discriminate].
  pose proof (paragraphChunks_within _ _ _ _ Ec) as Hw.
  assert (Hdead : (length chunks =? 1) && (L <? length (nth 0 chunks [])) = false).
  { destruct chunks as [|c [|c' cs]]; simpl; try reflexivity.
    inversion Hw; subst. apply Nat.ltb_ge. assumption. }
  rewrite Hdead, (validate_within fuel L chunks Hw). simpl.
  destruct (mapM (restore ib cb) chunks) as [restored|] eqn:Em; simpl; [|discriminate].
  intros H1. injection H1 as <-.
  exists t, cb, ib, chunks, restored. auto.
Qed.

(** *** Texts without code *)


Lemma replaceLoop_nomatch {St : Type} rx (f : St -> str -> str -> list (option str) -> str -> str * St) :
  (forall b t, noBacktick t = true -> rx b t = None) ->
  forall fuel st before s, noBacktick s = true -> length s < fuel ->
  replaceLoop fuel rx f st before s = Some (s, st).
Proof.
  intros Hrx. induction fuel as [|fuel IH]; intros st before s Hs Hl; [lia|].
  cbn [replaceLoop]. rewrite (Hrx before s Hs).
  destruct s as [|c s']; [reflexivity|].
  simpl in Hs. apply andb_prop in Hs as [_ Hs].
  rewrite IH; [reflexivity|assumption|simpl in Hl; lia].
Qed.

Lemma rxFence_nomatch b t : noBacktick t = true -> rxFence b t = None.
Proof.
  unfold rxFence. destruct t as [|c t]; [reflexivity|].
  intros H. simpl in H. apply andb_prop in H as [H _].
  apply negb_true_iff in H.
  change (startsWith FENCE (c :: t))
    with ((BACKTICK =? c)%N && startsWith [BACKTICK; BACKTICK] t).
  now rewrite N.eqb_sym, H.
Qed.

Lemma rxInline_nomatch b t : noBacktick t = true -> rxInline b t = None.
Proof.
  unfold rxInline. destruct t as [|c t]; [reflexivity|].
  intros H. simpl in H. apply andb_prop in H as [H _].
  apply negb_true_iff in H. now rewrite H.
Qed.

Lemma protect_plain text : noBacktick text = true -> protect text = Some (text, [], []).
Proof.
  intros H. unfold protect, extract.
  rewrite (replaceLoop_nomatch _ _ rxFence_nomatch) by (auto; lia). cbn [bind].
  rewrite (replaceLoop_nomatch _ _ rxInline_nomatch) by (auto; lia). reflexivity.
Qed.

Lemma mapM_restore_nil chunks : mapM (restore [] []) chunks = Some chunks.
Proof. induction chunks as [|c cs IH]; simpl; [reflexivity|]. now rewrite IH. Qed.

(** *** What is not white space is kept *)


Lemma nonWhite_app a b : nonWhite (a ++ b) = nonWhite a ++ nonWhite b.
Proof. apply filter_app. Qed.

Lemma nonWhite_dropWhile s : nonWhite (dropWhile isWhiteSpace s) = nonWhite s.
Proof.
  induction s as [|c s IH]; simpl; [reflexivity|].
  destruct (isWhiteSpace c) eqn:E; simpl; rewrite ?E; simpl; auto.
Qed.

Lemma nonWhite_rev s : nonWhite (rev s) = rev (nonWhite s).
Proof.
  induction s as [|c s IH]; simpl; [reflexivity|].
  rewrite nonWhite_app, IH. simpl. destruct (isWhiteSpace c); simpl; [now rewrite app_nil_r|reflexivity].
Qed.

Lemma nonWhite_trim s : nonWhite (trim s) = nonWhite s.
Proof.
  unfold trim, trimEnd, trimStart.
  rewrite nonWhite_rev, nonWhite_dropWhile, nonWhite_rev, rev_involutive.
  apply nonWhite_dropWhile.
Qed.

Lemma nonWhite_split sep s :
  sep <> [] -> nonWhite sep = [] -> nonWhite (concat (split sep s)) = nonWhite s.
Proof.
  intros Hsep Hw. pattern s, (split sep s). apply split_ind; [assumption| |].
  - intros s0 _. simpl. now rewrite app_nil_r.
  - intros s0 b a E IH. apply indexOf_Some in E. subst s0.
    simpl. rewrite !nonWhite_app, IH, Hw. reflexivity.
Qed.

Lemma nonWhite_splitSentences_loop prev insep acc s :
  nonWhite (concat (splitSentences_loop prev insep acc s)) = nonWhite (rev acc ++ s).
Proof.
  revert prev insep acc. induction s as [|c s IH]; intros prev insep acc; simpl.
  - reflexivity.
  - destruct (isWhiteSpace c) eqn:E.
    + destruct insep; [|destruct prev].
      * rewrite IH, !nonWhite_app. simpl. now rewrite E.
      * simpl. rewrite nonWhite_app, IH, !nonWhite_app. simpl. now rewrite E.
      * rewrite IH. simpl. now rewrite <- app_assoc.
    + rewrite IH. simpl. now rewrite <- app_assoc.
Qed.

Lemma nonWhite_splitSentences s : nonWhite (concat (splitSentences s)) = nonWhite s.
Proof. apply nonWhite_splitSentences_loop. Qed.


Lemma foldM_content {B : Type} (f : list str * str -> B -> option (list str * str))
  (h : B -> str) l :
  (forall a x a', f a x = Some a' -> content a' = content a ++ h x) ->
  forall a a', foldM f l a = Some a' -> content a' = content a ++ flat_map h l.
Proof.
  intros Hf. induction l as [|x l IH]; intros a a'; simpl.
  - intros H. injection H as <-. now rewrite app_nil_r.
  - destruct (f a x) as [a1|] eqn:E; simpl; [|discriminate].
    intros H. apply IH in H. rewrite H, (Hf _ _ _ E). now rewrite app_assoc.
Qed.

Lemma nonWhite_concat l : nonWhite (concat l) = flat_map nonWhite l.
Proof.
  induction l as [|x l IH]; simpl; [reflexivity|]. now rewrite nonWhite_app, IH.
Qed.

Lemma content_pushTrimmed chunks cur :
  nonWhite (concat (pushTrimmed chunks cur)) = content (chunks, cur).
Proof.
  unfold pushTrimmed, content. simpl. rewrite nonWhite_app.
  destruct (trim cur) as [|c t] eqn:E; simpl truthy; cbv iota.
  - rewrite <- (nonWhite_trim cur), E. simpl. now rewrite app_nil_r.
  - rewrite concat_app, nonWhite_app. simpl concat. rewrite app_nil_r.
    now rewrite <- E, nonWhite_trim.
Qed.

Lemma content_push_state chunks cur piece :
  content (pushTrimmed chunks cur, piece) = content (chunks, cur) ++ nonWhite piece.
Proof.
  unfold content at 1. simpl. now rewrite nonWhite_app, content_pushTrimmed.
Qed.

Lemma content_join sep chunks cur piece :
  nonWhite sep = [] ->
  content (chunks, joinWith sep cur piece) = content (chunks, cur) ++ nonWhite piece.
Proof.
  intros Hs. unfold content. cbn [fst snd].
  destruct (joinWith_cases sep cur piece) as [[-> ->]|[-> _]].
  - now rewrite !nonWhite_app, app_nil_r.
  - rewrite !nonWhite_app, Hs. simpl. now rewrite app_assoc.
Qed.

Lemma content_cutWord fuel over k : forall chunks w r,
  cutWord fuel over k chunks w = Some r -> content r = content (chunks, w).
Proof.
  induction fuel as [|fuel IH]; intros chunks w r; simpl;
    destruct (over (length w)); try discriminate.
  - intros H. now injection H as <-.
  - intros H. apply IH in H. rewrite H. unfold content, substring_to, substring_from. simpl.
    rewrite concat_app. simpl. rewrite app_nil_r, <- app_assoc. now rewrite firstn_skipn.
  - intros H. now injection H as <-.
Qed.

Lemma content_pieces chunks pieces :
  content (chunks ++ pieces, []) = nonWhite (concat chunks) ++ nonWhite (concat pieces).
Proof. unfold content. simpl. now rewrite app_nil_r, concat_app, nonWhite_app. Qed.

Section ContentFacts.

Variable fuel : nat.
Variable L : nat.

Lemma splitSentence_step_content st word st' :
  splitSentence_step fuel L st word = Some st' -> content st' = content st ++ nonWhite word.
Proof.
  destruct st as [chunks cur]. unfold splitSentence_step.
  destruct (Double.leb _ _).
  - intros H. injection H as <-. now apply content_join.
  - destruct (Double.gtb _ _).
    + intros H. apply content_cutWord in H. rewrite H. apply content_push_state.
    + intros H. injection H as <-. apply content_push_state.
Qed.

Lemma splitSentence_content sentence pieces :
  splitSentence fuel L sentence = Some pieces ->
  nonWhite (concat pieces) = nonWhite sentence.
Proof.
  unfold splitSentence.
  destruct (foldM _ _ _) as [[chunks cur]|] eqn:E; simpl; [|discriminate].
  intros H. injection H as <-. rewrite content_pushTrimmed.
  apply (foldM_content _ nonWhite) in E; [|apply splitSentence_step_content].
  rewrite E. unfold content at 1. simpl.
  rewrite <- nonWhite_concat. now apply nonWhite_split.
Qed.

Lemma splitParagraph_step_content st sentence st' :
  splitParagraph_step fuel L st sentence = Some st' ->
  content st' = content st ++ nonWhite sentence.
Proof.
  destruct st as [chunks cur]. unfold splitParagraph_step.
  destruct (Double.leb _ _).
  - intros H. injection H as <-. now apply content_join.
  - destruct (Double.gtb _ _).
    + destruct (splitSentence fuel L sentence) as [pieces|] eqn:E; simpl; [|discriminate].
      intros H. injection H as <-.
      rewrite content_pieces, content_pushTrimmed. f_equal.
      now apply splitSentence_content.
    + intros H. injection H as <-. apply content_push_state.
Qed.

Lemma splitParagraph_content paragraph pieces :
  splitParagraph fuel L paragraph = Some pieces ->
  nonWhite (concat pieces) = nonWhite paragraph.
Proof.
  unfold splitParagraph.
  destruct (foldM _ _ _) as [[chunks cur]|] eqn:E; simpl; [|discriminate].
  intros H. injection H as <-. rewrite content_pushTrimmed.
  apply (foldM_content _ nonWhite) in E; [|apply splitParagraph_step_content].
  rewrite E. unfold content at 1. simpl.
  rewrite <- nonWhite_concat. apply nonWhite_splitSentences.
Qed.

Lemma paragraph_step_content st paragraph st' :
  paragraph_step fuel L st paragraph = Some st' ->
  content st' = content st ++ nonWhite paragraph.
Proof.
  destruct st as [chunks cur]. unfold paragraph_step.
  destruct (Double.leb _ _).
  - intros H. injection H as <-. now apply content_join.
  - destruct (Double.gtb _ _).
    + destruct (splitParagraph fuel L paragraph) as [pieces|] eqn:E; simpl; [|discriminate].
      intros H. injection H as <-.
      rewrite content_pieces, content_pushTrimmed. f_equal.
      now apply splitParagraph_content.
    + intros H. injection H as <-. apply content_push_state.
Qed.

Lemma paragraphChunks_content text chunks :
  paragraphChunks fuel L text = Some chunks ->
  nonWhite (concat chunks) = nonWhite text.
Proof.
  unfold paragraphChunks.
  destruct (foldM _ _ _) as [[cs cur]|] eqn:E; simpl; [|discriminate].
  intros H. injection H as <-. rewrite content_pushTrimmed.
  apply (foldM_content _ nonWhite) in E; [|apply paragraph_step_content].
  rewrite E. unfold content at 1. simpl.
  rewrite <- nonWhite_concat. now apply nonWhite_split.
Qed.

End ContentFacts.

(** *** Pieces of a split *)

Lemma startsWith_prefix p x y : startsWith p x = true -> startsWith p (x ++ y) = true.
Proof.
  revert x. induction p as [|a p IH]; intros [|b x]; simpl; try discriminate; auto.
  intros H. apply andb_prop in H as [-> H]. simpl. auto.
Qed.

Lemma indexOf_before p s b a : p <> [] -> indexOf p s = Some (b, a) -> indexOf p b = None.
Proof.
  intros Hp. revert b a. induction s as [|c s IH]; intros b a; simpl.
  - destruct (startsWith p []) eqn:E; [|discriminate].
    destruct p; [congruence|discriminate].
  - destruct (startsWith p (c :: s)) eqn:E.
    + intros H. injection H as <- <-. destruct p; [congruence|reflexivity].
    + destruct (indexOf p s) as [[b' a']|] eqn:Ei; [|discriminate].
      intros H. injection H as <- <-.
      pose proof (indexOf_Some _ _ _ _ Ei) as Hs.
      simpl. destruct (startsWith p (c :: b')) eqn:E2.
      * apply (startsWith_prefix _ _ (p ++ a')) in E2. simpl in E2.
        rewrite <- Hs in E2. congruence.
      * now rewrite (IH _ _ eq_refl).
Qed.

Lemma indexOf_found p a b : indexOf p (a ++ p ++ b) <> None.
Proof.
  induction a as [|c a IH].
  - simpl. destruct (p ++ b) eqn:E; simpl; rewrite <- ?E, startsWith_app; discriminate.
  - simpl. destruct (startsWith p (c :: a ++ p ++ b)); [discriminate|].
    destruct (indexOf p (a ++ p ++ b)) as [[b' a']|]; [discriminate|congruence].
Qed.

Lemma split_pieces_clean sep s w : sep <> [] -> In w (split sep s) -> indexOf sep w = None.
Proof.
  intros Hsep. revert w. pattern s, (split sep s). apply split_ind; [assumption| |].
  - now intros s0 E w [<-|[]].
  - intros s0 b a E IH w [<-|Hw]; [|auto]. now apply indexOf_before in E.
Qed.

Lemma split_pieces_sub sep s w : sep <> [] -> In w (split sep s) ->
  exists a b, s = a ++ w ++ b.
Proof.
  intros Hsep. revert w. pattern s, (split sep s). apply split_ind; [assumption| |].
  - intros s0 E w [<-|[]]. exists [], []. now rewrite app_nil_r.
  - intros s0 b a E IH w [<-|Hw]; apply indexOf_Some in E; subst s0.
    + exists [], (sep ++ a). reflexivity.
    + destruct (IH w Hw) as (x & y & ->). exists (b ++ sep ++ x), y.
      now rewrite <- !app_assoc.
Qed.

Lemma indexOf_absent (x : char) (p s : str) :
  forallb (fun c => negb (c =? x)%N) s = true -> indexOf (x :: p) s = None.
Proof.
  induction s as [|c s IH]; simpl; [reflexivity|].
  intros H. apply andb_prop in H as [H1 H2]. apply negb_true_iff in H1.
  rewrite N.eqb_sym, H1. simpl. now rewrite IH.
Qed.

Lemma split_absent (x : char) (p s : str) :
  forallb (fun c => negb (c =? x)%N) s = true -> split (x :: p) s = [s].
Proof. intros H. rewrite split_eq by discriminate. now rewrite indexOf_absent. Qed.

Lemma splitSentences_loop_plain acc s :
  forallb (fun c => negb (isSentenceEnd c)) s = true ->
  splitSentences_loop false false acc s = [rev acc ++ s].
Proof.
  revert acc. induction s as [|c s IH]; intros acc; simpl.
  - now rewrite app_nil_r.
  - intros H. apply andb_prop in H as [H1 H2]. apply negb_true_iff in H1.
    rewrite H1. destruct (isWhiteSpace c); rewrite IH by assumption;
      simpl; now rewrite <- app_assoc.
Qed.

Lemma splitSentences_loop_dense prev acc s :
  forallb (fun c => negb (isWhiteSpace c)) s = true ->
  splitSentences_loop prev false acc s = [rev acc ++ s].
Proof.
  revert prev acc. induction s as [|c s IH]; intros prev acc; simpl.
  - now rewrite app_nil_r.
  - intros H. apply andb_prop in H as [H1 H2]. apply negb_true_iff in H1.
    rewrite H1, IH by assumption. simpl. now rewrite <- app_assoc.
Qed.

(** *** Blank strings *)


Lemma blank_app a b : blank (a ++ b) = blank a && blank b.
Proof. apply forallb_app. Qed.

Lemma dropWhile_blank s : blank s = true -> dropWhile isWhiteSpace s = [].
Proof.
  induction s as [|c s IH]; simpl; [reflexivity|].
  intros H. apply andb_prop in H as [-> H]. auto.
Qed.

Lemma trim_blank s : blank s = true -> trim s = [].
Proof. intros H. unfold trim, trimStart, trimEnd. now rewrite (dropWhile_blank s H). Qed.

Lemma pushTrimmed_blank chunks cur : blank cur = true -> pushTrimmed chunks cur = chunks.
Proof. intros H. unfold pushTrimmed. now rewrite trim_blank. Qed.

Lemma joinWith_blank sep cur piece :
  blank sep = true -> blank cur = true -> blank piece = true ->
  blank (joinWith sep cur piece) = true.
Proof.
  intros Hs Hc Hp. destruct (joinWith_cases sep cur piece) as [[-> _]|[-> _]];
    [assumption|]. now rewrite !blank_app, Hs, Hc, Hp.
Qed.

Lemma dropWhile_dense s :
  forallb (fun c => negb (isWhiteSpace c)) s = true -> dropWhile isWhiteSpace s = s.
Proof.
  destruct s as [|c s]; simpl; [reflexivity|].
  intros H. apply andb_prop in H as [H _]. apply negb_true_iff in H. now rewrite H.
Qed.

Lemma trim_dense s : forallb (fun c => negb (isWhiteSpace c)) s = true -> trim s = s.
Proof.
  intros H. unfold trim, trimStart, trimEnd. rewrite (dropWhile_dense s H).
  rewrite dropWhile_dense; [apply rev_involutive|].
  rewrite forallb_forall in *. intros x Hx. apply H. now apply in_rev.
Qed.

(** *** Texts of spaces and line feeds *)


Lemma spacesAndLineFeeds_weaken (p : char -> bool) s :
  (forall c, (c =? SPACE)%N || (c =? LF)%N = true -> p c = true) ->
  spacesAndLineFeeds s = true -> forallb p s = true.
Proof.
  intros Hp H. unfold spacesAndLineFeeds in H. rewrite forallb_forall in *.
  intros c Hc. apply Hp, H, Hc.
Qed.

Ltac space_or_lf :=
  let c := fresh "c" in let H := fresh "H" in
  intros c H; apply orb_prop in H as [H|H]; apply N.eqb_eq in H; subst c; reflexivity.

Lemma spacesAndLineFeeds_blank s : spacesAndLineFeeds s = true -> blank s = true.
Proof. apply spacesAndLineFeeds_weaken. space_or_lf. Qed.

Lemma spacesAndLineFeeds_plain s :
  spacesAndLineFeeds s = true -> forallb (fun c => negb (isSentenceEnd c)) s = true.
Proof. apply spacesAndLineFeeds_weaken. space_or_lf. Qed.

Lemma spacesAndLineFeeds_noBacktick s : spacesAndLineFeeds s = true -> noBacktick s = true.
Proof. apply spacesAndLineFeeds_weaken. space_or_lf. Qed.

Lemma spacesAndLineFeeds_sub a w b :
  spacesAndLineFeeds (a ++ w ++ b) = true -> spacesAndLineFeeds w = true.
Proof.
  unfold spacesAndLineFeeds. rewrite !forallb_app. intros H.
  apply andb_prop in H as [_ H]. now apply andb_prop in H as [H _].
Qed.

Lemma tiny_word paragraph w :
  spacesAndLineFeeds paragraph = true -> indexOf [LF; LF] paragraph = None ->
  In w (split [SPACE] paragraph) -> length w <= 1 /\ blank w = true.
Proof.
  intros Hp Hn Hw.
  destruct (split_pieces_sub [SPACE] paragraph w) as (a & b & E); [discriminate|assumption|].
  pose proof (split_pieces_clean [SPACE] paragraph w) as Hc.
  specialize (Hc ltac:(discriminate) Hw).
  subst paragraph. pose proof (spacesAndLineFeeds_sub _ _ _ Hp) as Hs.
  split; [|now apply spacesAndLineFeeds_blank].
  destruct w as [|c1 [|c2 r]]; simpl; try lia.
  exfalso. simpl in Hs.
  apply andb_prop in Hs as [H1 Hs]. apply andb_prop in Hs as [H2 _].
  assert (N1 : (SPACE =? c1)%N = false).
  { destruct (SPACE =? c1)%N eqn:E1; [|reflexivity].
    cbn [indexOf startsWith] in Hc. rewrite E1 in Hc. discriminate. }
  assert (N2 : (SPACE =? c2)%N = false).
  { destruct (SPACE =? c2)%N eqn:E2; [|reflexivity].
    cbn [indexOf startsWith] in Hc. rewrite N1, E2 in Hc. discriminate. }
  rewrite N.eqb_sym in N1, N2. rewrite N1 in H1. rewrite N2 in H2.
  cbn [orb] in H1, H2.
  apply N.eqb_eq in H1, H2. subst c1 c2.
  apply (indexOf_found [LF; LF] a (r ++ b)).
  rewrite <- Hn. reflexivity.
Qed.

Section BlankFacts.

Variable fuel : nat.
Variable L : nat.
Hypothesis HL : 2 <= L.


Lemma splitSentence_step_blank st w :
  blank_state st -> length w <= 1 -> blank w = true ->
  exists st', splitSentence_step fuel L st w = Some st' /\ blank_state st'.
Proof.
  destruct st as [chunks cur]. intros [Hc Hb] Hw Hbw. simpl in Hc, Hb. subst chunks.
  unfold splitSentence_step.
  rewrite (leb_thr L _ _ fraction_c06), (gtb_thr L _ _ fraction_c06).
  pose proof (floor_times_c06_pos L HL) as H6. fold (thr L Double.c06) in H6.
  destruct (_ <=? _).
  - eexists. split; [reflexivity|]. split; [reflexivity|].
    now apply joinWith_blank.
  - rewrite pushTrimmed_blank by assumption.
    destruct (Nat.ltb_spec (thr L Double.c06) (length w)); [lia|].
    eexists. split; [reflexivity|]. now split.
Qed.

Lemma splitSentence_blank sentence :
  (forall w, In w (split (lit " ") sentence) -> length w <= 1 /\ blank w = true) ->
  splitSentence fuel L sentence = Some [].
Proof.
  intros Hw. unfold splitSentence.
  destruct (foldM_total blank_state (splitSentence_step fuel L)
              (split (lit " ") sentence)) with (a := (@nil str, @nil char))
    as ([chunks cur] & -> & Hc & Hb).
  - intros a x Ha Hx. destruct (Hw x Hx). now apply splitSentence_step_blank.
  - now split.
  - simpl in *. subst chunks. now rewrite pushTrimmed_blank.
Qed.

Lemma splitParagraph_blank paragraph :
  spacesAndLineFeeds paragraph = true -> indexOf [LF; LF] paragraph = None ->
  splitParagraph fuel L paragraph = Some [].
Proof.
  intros Hp Hn. unfold splitParagraph, splitSentences.
  rewrite splitSentences_loop_plain by now apply spacesAndLineFeeds_plain.
  pose proof (spacesAndLineFeeds_blank _ Hp) as Hb.
  cbn [rev app foldM]. unfold splitParagraph_step at 1. cbn [joinWith truthy].
  destruct (Double.leb _ _).
  - cbn [bind]. now rewrite pushTrimmed_blank.
  - rewrite (pushTrimmed_blank [] []) by reflexivity.
    destruct (Double.gtb _ _).
    + rewrite splitSentence_blank; [reflexivity|].
      intros w. now apply tiny_word.
    + cbn [bind]. now rewrite pushTrimmed_blank.
Qed.

Lemma paragraph_step_blank st paragraph :
  blank_state st ->
  spacesAndLineFeeds paragraph = true -> indexOf [LF; LF] paragraph = None ->
  exists st', paragraph_step fuel L st paragraph = Some st' /\ blank_state st'.
Proof.
  destruct st as [chunks cur]. intros [Hc Hb] Hp Hn. simpl in Hc, Hb. subst chunks.
  pose proof (spacesAndLineFeeds_blank _ Hp) as Hbp.
  unfold paragraph_step. destruct (Double.leb _ _).
  - eexists. split; [reflexivity|]. split; [reflexivity|].
    now apply joinWith_blank.
  - rewrite pushTrimmed_blank by assumption.
    destruct (Double.gtb _ _).
    + rewrite splitParagraph_blank by assumption. simpl.
      eexists. split; [reflexivity|]. now split.
    + eexists. split; [reflexivity|]. now split.
Qed.

Lemma paragraphChunks_blank text :
  spacesAndLineFeeds text = true -> paragraphChunks fuel L text = Some [].
Proof.
  intros Ht. unfold paragraphChunks.
  destruct (foldM_total blank_state (paragraph_step fuel L)
              (split [LF; LF] text)) with (a := (@nil str, @nil char))
    as ([chunks cur] & -> & Hc & Hb).
  - intros a x Ha Hx. apply paragraph_step_blank; [assumption| |].
    + destruct (split_pieces_sub [LF; LF] text x) as (p & q & E); [discriminate|assumption|].
      subst text. now apply spacesAndLineFeeds_sub in Ht.
    + apply split_pieces_clean in Hx; [assumption|discriminate].
  - now split.
  - simpl in *. subst chunks. now rewrite pushTrimmed_blank.
Qed.

End BlankFacts.

Lemma splitLongMessage_eq fuel L text t cb ib chunks restored :
  L < length text -> protect text = Some (t, cb, ib) ->
  paragraphChunks fuel L t = Some chunks ->
  mapM (restore ib cb) chunks = Some restored ->
  splitLongMessage fuel L text
  = Some (match restored with [] => [text] | _ :: _ => restored end).
Proof.
  intros Hlen Ep Ec Em. unfold splitLongMessage.
  destruct (Nat.leb_spec (length text) L); [lia|].
  rewrite Ep. cbn [bind]. rewrite Ec. cbn [bind].
  pose proof (paragraphChunks_within _ _ _ _ Ec) as Hw.
  assert (Hdead : (length chunks =? 1) && (L <? length (nth 0 chunks [])) = false).
  { destruct chunks as [|c [|c' cs]]; simpl; try reflexivity.
    inversion Hw; subst. apply Nat.ltb_ge. assumption. }
  rewrite Hdead, (validate_within fuel L chunks Hw). cbn [bind].
  rewrite Em. reflexivity.
Qed.

Lemma splitLongMessage_short fuel L text :
  length text <= L -> splitLongMessage fuel L text = Some [text].
Proof.
  intros H. unfold splitLongMessage. apply Nat.leb_le in H. now rewrite H.
Qed.

(** ** The claims *)

(** C5.  A text no longer than [maxLength] is returned as the one-element
    list holding it, unchanged, whatever the fuel. *)
Theorem short_text_unchanged fuel maxLength text :
  length text <= maxLength -> splitLongMessage fuel maxLength text = Some [text].
Proof. apply splitLongMessage_short. Qed.

(** C5, at a greeting and the budget of [sendLongMessage]. *)
Lemma short_text_unchanged_witness :
  length (lit "Halo, apa kabar?") <= 2000 /\
  splitLongMessage 0 2000 (lit "Halo, apa kabar?") = Some [lit "Halo, apa kabar?"].
Proof.
  assert (H : length (lit "Halo, apa kabar?") <= 2000) by (apply Nat.leb_le; reflexivity).
  split; [exact H|]. exact (short_text_unchanged 0 2000 _ H).
Defined.

(** C1 fails as stated.  With a budget of 40, a text of 44 code units
    whose one code span has 30 of them, no more than the budget, comes
    back as a single chunk of 44: the chunk had 32 code units when it was
    measured, with the 18 of the placeholder in place of the span. *)
Lemma budget_counterexample :
  let text := lit "aaaaaaaaaaaaaa```bbbbbbbbbbbbbbbbbbbbbbbb```" in
  let span := lit "```bbbbbbbbbbbbbbbbbbbbbbbb```" in
  let held := lit "aaaaaaaaaaaaaa___CODE_BLOCK_0___" in
  protect text = Some (held, [span], []) /\
  length span <= 40 /\
  paragraphChunks 100 40 held = Some [held] /\
  splitLongMessage 100 40 text = Some [text] /\
  40 < length text.
Proof. cbv zeta. repeat split; try reflexivity; apply Nat.leb_le; reflexivity. Qed.

(** C3 fails as stated.  With a budget of 40, the one chunk is 26 code
    units long when it is validated and 45 once the inline code is put
    back; it is returned as it is, although the line splitter would cut
    it in three. *)
Lemma restoration_unchecked_counterexample :
  let text := lit "see `xxxxxxxxxxxxxxxxxxxxxxxxxxxxxxxxxxxx` ok" in
  splitLongMessage 100 40 text = Some [text] /\
  40 < length text /\
  forceSplit 100 40 text
  = Some [lit "see"; lit "`xxxxxxxxxxxxxxxxxxxxxxxxxxxxxxxxxxxx`"; lit "ok"].
Proof. cbv zeta. repeat split; try reflexivity. apply Nat.leb_le. reflexivity. Qed.

(** C3, amended.  On a text longer than [maxLength] the chunks are
    validated before the code spans are put back: the validated chunks
    are all within [maxLength], and the result is what restoration makes
    of them, returned without a further check (or the whole text when
    there is no chunk). *)
Theorem validation_precedes_restoration fuel maxLength text out :
  maxLength < length text ->
  splitLongMessage fuel maxLength text = Some out ->
  exists textWithPlaceholders codeBlocks inlineCodeBlocks chunks validated restored,
    protect text = Some (textWithPlaceholders, codeBlocks, inlineCodeBlocks) /\
    paragraphChunks fuel maxLength textWithPlaceholders = Some chunks /\
    validate fuel maxLength chunks = Some validated /\
    Forall (fun chunk => length chunk <= maxLength) validated /\
    mapM (restore inlineCodeBlocks codeBlocks) validated = Some restored /\
    out = match restored with [] => [text] | _ :: _ => restored end.
Proof.
  intros Hl H.
  destruct (splitLongMessage_long _ _ _ _ Hl H)
    as (t & cb & ib & chunks & restored & Ep & Ec & Hw & Em & ->).
  exists t, cb, ib, chunks, chunks, restored.
  repeat split; auto. now apply validate_within.
Qed.

(** C3 amended, at the text of the counterexample. *)
Lemma validation_precedes_restoration_witness :
  let text := lit "see `xxxxxxxxxxxxxxxxxxxxxxxxxxxxxxxxxxxx` ok" in
  40 < length text /\ splitLongMessage 100 40 text = Some [text] /\
  exists textWithPlaceholders codeBlocks inlineCodeBlocks chunks validated restored,
    protect text = Some (textWithPlaceholders, codeBlocks, inlineCodeBlocks) /\
    paragraphChunks 100 40 textWithPlaceholders = Some chunks /\
    validate 100 40 chunks = Some validated /\
    Forall (fun chunk => length chunk <= 40) validated /\
    mapM (restore inlineCodeBlocks codeBlocks) validated = Some restored /\
    [text] = match restored with [] => [text] | _ :: _ => restored end.
Proof.
  cbv zeta.
  assert (H : 40 < length (lit "see `xxxxxxxxxxxxxxxxxxxxxxxxxxxxxxxxxxxx` ok"))
    by (apply Nat.ltb_lt; reflexivity).
  split; [exact H|]. split; [reflexivity|].
  exact (validation_precedes_restoration 100 40 _ _ H eq_refl).
Defined.


(** C6 against the code.  With the budget 2000 of [sendLongMessage], a
    fenced block of 7 code units inside an unbroken run of 2202 is not in
    any chunk: the hard cut of the word tier at 1200 falls inside its
    placeholder, which restoration then does not find. *)
Theorem fenced_block_lost :
  let block := lit "```x```" in
  let text := repeat 97%N 1195 ++ block ++ repeat 98%N 1000 in
  let out := [repeat 97%N 1195 ++ lit "___CO"; lit "DE_BLOCK_0___" ++ repeat 98%N 1000] in
  length block < 2000 /\
  splitLongMessage 2300 2000 text = Some out /\
  Forall (fun chunk => indexOf block chunk = None) out.
Proof.
  cbv zeta. split; [apply Nat.ltb_lt; reflexivity|].
  split; [vm_compute; reflexivity|].
  repeat constructor; vm_compute; reflexivity.
Qed.

(** C8 against the code.  The checker compares the parentheses of the
    whole text and never subtracts those of the links.  In the first text
    the link holds two opening and one closing parenthesis, one closing
    parenthesis is outside and none is opening: no problem is reported.
    In the second text nothing is outside the link and a problem is
    reported. *)
Theorem parentheses_in_links_counted :
  let text := lit "[a](b(c))" in
  let text' := lit "[(](x)" in
  (analyzed text = Some text /\
   matchAll rxLink text = Some [lit "[a](b(c)"] /\
   parensInLinks text = Some (2, 1) /\
   countMatches (rxLiteral [LPAREN]) text = Some 2 /\
   countMatches (rxLiteral [RPAREN]) text = Some 2 /\
   hasProblematicMarkdown text = Some false) /\
  (analyzed text' = Some text' /\
   matchAll rxLink text' = Some [text'] /\
   parensInLinks text' = Some (2, 1) /\
   countMatches (rxLiteral [LPAREN]) text' = Some 2 /\
   countMatches (rxLiteral [RPAREN]) text' = Some 1 /\
   hasProblematicMarkdown text' = Some true).
Proof. cbv zeta. repeat split; reflexivity. Qed.

(** C9.  The plain-text conversion returns a string for every input:
    each of its eleven replacement loops finishes. *)
Theorem markdownToPlainText_total text :
  exists plain, markdownToPlainText text = Some plain.
Proof.
  unfold markdownToPlainText.
  repeat match goal with
  | |- context [bind (replaceTemplate ?rx ?tpl ?s) _] =>
      let t := fresh "t" in
      destruct (replaceTemplate_total rx tpl s) as [t ->]; cbn [bind]
  end.
  apply replaceTemplate_total.
Qed.



Lemma cutWord_more fuel over k chunks w :
  over (length w) = true ->
  cutWord (S fuel) over k chunks w
  = cutWord fuel over k (chunks ++ [substring_to k w]) (substring_from k w).
Proof. intros H. simpl. now rewrite H. Qed.

Lemma cutWord_done fuel over k chunks w :
  over (length w) = false -> cutWord fuel over k chunks w = Some (chunks, w).
Proof. intros H. destruct fuel; simpl; now rewrite H. Qed.

Lemma forallb_weaken {A : Type} (p q : A -> bool) l :
  (forall x, p x = true -> q x = true) -> forallb p l = true -> forallb q l = true.
Proof. intros Hpq H. rewrite forallb_forall in *. auto. Qed.

Lemma forallb_skipn {A : Type} (p : A -> bool) n l :
  forallb p l = true -> forallb p (skipn n l) = true.
Proof.
  intros H. rewrite forallb_forall in *. intros x Hx. apply H.
  rewrite <- (firstn_skipn n l). apply in_or_app. now right.
Qed.

Lemma long_line_chunks fuel text :
  length text = 10000 -> dense text = true -> 8 <= fuel ->
  paragraphChunks fuel 2000 text
  = Some (map (fun i => slice (i * 1200) (i * 1200 + 1200) text) (seq 0 8)
          ++ [skipn 9600 text]).
Proof.
  intros Hlen Hd Hfuel.
  assert (Hw : forallb (fun c => negb (isWhiteSpace c)) text = true).
  { revert Hd. apply forallb_weaken. intros c H. now apply andb_prop in H as [H _]. }
  assert (Hlf : forallb (fun c => negb (c =? LF)%N) text = true).
  { revert Hw. apply forallb_weaken. intros c H.
    destruct (N.eqb_spec c LF) as [->|]; [discriminate H|reflexivity]. }
  assert (Hsp : forallb (fun c => negb (c =? SPACE)%N) text = true).
  { revert Hw. apply forallb_weaken. intros c H.
    destruct (N.eqb_spec c SPACE) as [->|]; [discriminate H|reflexivity]. }
  assert (E8 : Double.leb (length text) (Double.times 2000 Double.c08) = false)
    by (rewrite Hlen; vm_compute; reflexivity).
  assert (E7 : Double.leb (length text) (Double.times 2000 Double.c07) = false)
    by (rewrite Hlen; vm_compute; reflexivity).
  assert (E6 : Double.leb (length text) (Double.times 2000 Double.c06) = false)
    by (rewrite Hlen; vm_compute; reflexivity).
  assert (G6 : Double.gtb (length text) (Double.times 2000 Double.c06) = true)
    by (unfold Double.gtb; now rewrite E6).
  assert (G5 : Double.gtb (length text) (Double.times 2000 Double.c05) = true)
    by (rewrite Hlen; vm_compute; reflexivity).
  assert (Hcut : cutWord fuel (fun n => Double.gtb n (Double.times 2000 Double.c06))
                   (Double.floor (Double.times 2000 Double.c06)) [] text
                 = Some (map (fun i => slice (i * 1200) (i * 1200 + 1200) text) (seq 0 8),
                         skipn 9600 text)).
  { change (Double.floor (Double.times 2000 Double.c06)) with 1200.
    do 8 (destruct fuel as [|fuel]; [lia|]). clear Hfuel.
    do 8 (rewrite cutWord_more
           by (unfold substring_from; rewrite ?length_skipn, Hlen; vm_compute; reflexivity)).
    rewrite cutWord_done
      by (unfold substring_from; rewrite ?length_skipn, Hlen; vm_compute; reflexivity).
    unfold substring_from, substring_to, slice. rewrite !skipn_skipn. reflexivity. }
  assert (Hrem : pushTrimmed (map (fun i => slice (i * 1200) (i * 1200 + 1200) text) (seq 0 8))
                   (skipn 9600 text)
                 = map (fun i => slice (i * 1200) (i * 1200 + 1200) text) (seq 0 8)
                   ++ [skipn 9600 text]).
  { unfold pushTrimmed. rewrite trim_dense by now apply forallb_skipn.
    destruct (skipn 9600 text) eqn:E; [|reflexivity].
    apply (f_equal (@length char)) in E. rewrite length_skipn, Hlen in E.
    vm_compute in E. discriminate. }
  assert (Hsent : splitSentence fuel 2000 text
                  = Some (map (fun i => slice (i * 1200) (i * 1200 + 1200) text) (seq 0 8)
                          ++ [skipn 9600 text])).
  { unfold splitSentence. change (lit " ") with [SPACE].
    rewrite (split_absent SPACE [] text Hsp).
    cbn [foldM]. unfold splitSentence_step at 1. cbn [joinWith truthy].
    rewrite E6, G6. rewrite (pushTrimmed_blank [] []) by reflexivity.
    rewrite Hcut. cbn [bind]. now rewrite Hrem. }
  assert (Hpar : splitParagraph fuel 2000 text
                 = Some (map (fun i => slice (i * 1200) (i * 1200 + 1200) text) (seq 0 8)
                         ++ [skipn 9600 text])).
  { unfold splitParagraph, splitSentences.
    rewrite (splitSentences_loop_dense false [] text Hw).
    cbn [rev app foldM]. unfold splitParagraph_step at 1. cbn [joinWith truthy].
    rewrite E7, G5. rewrite (pushTrimmed_blank [] []) by reflexivity.
    rewrite Hsent. cbn [bind app]. now rewrite pushTrimmed_blank. }
  unfold paragraphChunks. rewrite (split_absent LF [LF] text Hlf).
  cbn [foldM]. unfold paragraph_step at 1. cbn [joinWith truthy].
  rewrite E8, G6. rewrite (pushTrimmed_blank [] []) by reflexivity.
  rewrite Hpar. cbn [bind app]. now rewrite pushTrimmed_blank.
Qed.

Lemma long_line_result fuel text :
  length text = 10000 -> dense text = true -> 8 <= fuel ->
  splitLongMessage fuel 2000 text
  = Some (map (fun i => slice (i * 1200) (i * 1200 + 1200) text) (seq 0 8)
          ++ [skipn 9600 text]).
Proof.
  intros Hlen Hd Hfuel.
  assert (Hb : noBacktick text = true).
  { revert Hd. apply forallb_weaken. intros c H. now apply andb_prop in H as [_ H]. }
  rewrite (splitLongMessage_eq fuel 2000 text text [] [] _ _
             ltac:(rewrite Hlen; apply Nat.ltb_lt; reflexivity)
             (protect_plain text Hb)
             (long_line_chunks fuel text Hlen Hd Hfuel)
             (mapM_restore_nil _)).
  reflexivity.
Qed.

Lemma long_line_lengths (text : str) :
  length text = 10000 ->
  map (@length char)
    (map (fun i => slice (i * 1200) (i * 1200 + 1200) text) (seq 0 8)
     ++ [skipn 9600 text])
  = [1200; 1200; 1200; 1200; 1200; 1200; 1200; 1200; 400].
Proof.
  intros Hlen. rewrite map_app, map_map. cbn [seq map]. unfold slice.
  rewrite !length_firstn, !length_skipn, Hlen. vm_compute. reflexivity.
Qed.

(** C2 fails as stated.  Ten thousand letters in one line give nine
    chunks, eight of 1200 code units and one of 400. *)
Lemma long_line_counterexample :
  exists out,
    splitLongMessage 8 2000 (repeat 97%N 10000) = Some out /\
    map (@length char) out = [1200; 1200; 1200; 1200; 1200; 1200; 1200; 1200; 400].
Proof.
  assert (H1 : length (repeat 97%N 10000) = 10000) by (vm_compute; reflexivity).
  assert (H2 : dense (repeat 97%N 10000) = true) by (vm_compute; reflexivity).
  eexists. split.
  - exact (long_line_result 8 _ H1 H2 (le_n 8)).
  - exact (long_line_lengths _ H1).
Qed.

(** C2, amended.  A text of 10000 code units without white space and
    without backtick is cut by the word tier into eight successive slices
    of 1200 code units and a last one of 400. *)
Theorem long_line_nine_chunks fuel text :
  length text = 10000 -> dense text = true -> 8 <= fuel ->
  exists out,
    splitLongMessage fuel 2000 text = Some out /\
    out = map (fun i => slice (i * 1200) (i * 1200 + 1200) text) (seq 0 8)
          ++ [skipn 9600 text] /\
    map (@length char) out = [1200; 1200; 1200; 1200; 1200; 1200; 1200; 1200; 400].
Proof.
  intros Hlen Hd Hfuel. eexists. split; [|split; [reflexivity|]].
  - now apply long_line_result.
  - now apply long_line_lengths.
Qed.

(** C2 amended, at ten thousand letters. *)
Lemma long_line_nine_chunks_witness :
  let text := repeat 97%N 10000 in
  length text = 10000 /\ dense text = true /\ 8 <= 8 /\
  exists out,
    splitLongMessage 8 2000 text = Some out /\
    out = map (fun i => slice (i * 1200) (i * 1200 + 1200) text) (seq 0 8)
          ++ [skipn 9600 text] /\
    map (@length char) out = [1200; 1200; 1200; 1200; 1200; 1200; 1200; 1200; 400].
Proof.
  cbv zeta.
  assert (H1 : length (repeat 97%N 10000) = 10000) by (vm_compute; reflexivity).
  assert (H2 : dense (repeat 97%N 10000) = true) by (vm_compute; reflexivity).
  split; [exact H1|]. split; [exact H2|]. split; [apply le_n|].
  exact (long_line_nine_chunks 8 _ H1 H2 (le_n 8)).
Defined.



(** *** A literal pattern and a plain template *)

Lemma getSubstitution_plain matched before after caps code :
  noDollar code = true -> getSubstitution matched before after caps code = code.
Proof.
  induction code as [|c t IH]; [reflexivity|].
  intros H. simpl in H. apply andb_prop in H as [Hc Ht].
  cbn [getSubstitution]. rewrite Hc. f_equal. now apply IH.
Qed.








(** C10 fails as stated.  Three tabs against a budget of two are white
    space only, yet the hard cut of the word tier returns two chunks of one
    tab, which it does not trim. *)
Lemma blank_fallback_counterexample :
  let text := [9%N; 9%N; 9%N] in
  blank text = true /\ 2 < length text /\
  splitLongMessage 100 2 text = Some [[9%N]; [9%N]].
Proof. cbv zeta. repeat split; try reflexivity. apply Nat.ltb_lt. reflexivity. Qed.

Lemma result_nonempty L text :
  2 <= L ->
  exists n, forall fuel, n <= fuel ->
    exists out, splitLongMessage fuel L text = Some out /\ out <> [].
Proof.
  intros HL. destruct (Nat.le_gt_cases (length text) L) as [Hl|Hl].
  - exists 0. intros fuel _. exists [text].
    split; [now apply splitLongMessage_short|discriminate].
  - destruct (protect_total text) as (t & cb & ib & Ep).
    exists (length t). intros fuel Hf.
    destruct (paragraphChunks_total fuel L HL t Hf) as [chunks Ec].
    destruct (mapM_total (restore ib cb) chunks (restore_total ib cb))
      as (restored & Em & _).
    rewrite (splitLongMessage_eq fuel L text t cb ib chunks restored Hl Ep Ec Em).
    eexists. split; [reflexivity|]. destruct restored; discriminate.
Qed.

Lemma blank_fallback fuel L text :
  2 <= L -> L < length text -> spacesAndLineFeeds text = true ->
  splitLongMessage fuel L text = Some [text].
Proof.
  intros HL Hl Ht.
  apply (splitLongMessage_eq fuel L text text [] [] [] [] Hl).
  - apply protect_plain. now apply spacesAndLineFeeds_noBacktick.
  - now apply paragraphChunks_blank.
  - reflexivity.
Qed.

(** C10, amended.  For a budget of at least two, the splitter returns,
    with enough fuel, a list that is not empty; and a text longer than the
    budget made of spaces and line feeds only comes back whole, as the one
    chunk of the result. *)
Theorem nonempty_result_and_blank_fallback maxLength text :
  2 <= maxLength ->
  (exists n, forall fuel, n <= fuel ->
     exists out, splitLongMessage fuel maxLength text = Some out /\ out <> []) /\
  (maxLength < length text -> spacesAndLineFeeds text = true ->
   forall fuel, splitLongMessage fuel maxLength text = Some [text]).
Proof.
  intros HL. split; [now apply result_nonempty|].
  intros Hl Ht fuel. now apply blank_fallback.
Qed.

(** C10 amended, at a budget of two and two blank lines around a space. *)
Lemma nonempty_result_and_blank_fallback_witness :
  2 <= 2 /\
  splitLongMessage 0 2 [LF; LF; SPACE; LF; LF] = Some [[LF; LF; SPACE; LF; LF]].
Proof.
  split; [apply le_n|].
  apply (proj2 (nonempty_result_and_blank_fallback 2 [LF; LF; SPACE; LF; LF] (le_n 2)));
    [apply Nat.ltb_lt|]; reflexivity.
Defined.

(** With a budget of one the hard cut of the word tier never ends. *)
Lemma cutWord_stuck over (w : str) :
  over (length w) = true -> forall fuel chunks', cutWord fuel over 0 chunks' w = None.
Proof.
  intros H. induction fuel as [|fuel IH]; intros chunks'; simpl; rewrite H; [reflexivity|].
  apply IH.
Qed.

Lemma budget_one_never_returns fuel : splitLongMessage fuel 1 (lit "ab") = None.
Proof.
  unfold splitLongMessage. cbn [length lit list_ascii_of_string map Nat.leb].
  change (protect _) with (Some (lit "ab", @nil str, @nil str)). cbn [bind].
  unfold paragraphChunks.
  change (split [LF; LF] (lit "ab")) with [lit "ab"].
  cbn [foldM]. unfold paragraph_step at 1.
  change (Double.leb _ _) with false. change (Double.gtb _ _) with true.
  unfold splitParagraph. change (splitSentences (lit "ab")) with [lit "ab"].
  cbn [foldM]. unfold splitParagraph_step at 1.
  change (Double.leb _ _) with false. change (Double.gtb _ _) with true.
  unfold splitSentence. change (split (lit " ") (lit "ab")) with [lit "ab"].
  cbn [foldM]. unfold splitSentence_step at 1.
  change (Double.leb _ _) with false.
  change (Double.gtb (length _) _) with true.
  change (Double.floor _) with 0.
  rewrite cutWord_stuck; reflexivity.
Qed.

(** ** Further properties *)

(** *** The thresholds as fractions of the budget *)

Section ScaledFacts.
Local Open Scope Z_scope.

Lemma round53_below m e q e' :
  0 <= m -> Double.round53 m e = Double.mk q e' ->
  m * (2 ^ 52 - 1) <= q * 2 ^ (e' - e) * 2 ^ 52.
Proof.
  intros Hm H.
  destruct (round53_cases m e Hm) as (q0 & d & E & Hd & C).
  rewrite E in H. injection H as <- <-.
  replace (e + d - e) with d by lia.
  destruct C as [[-> ->]|(Hd' & HQ & Hq)].
  - simpl. lia.
  - assert (HP : 0 < 2 ^ d) by (apply Z.pow_pos_nonneg; lia).
    pose proof (Z.div_mod m (2 ^ d) ltac:(lia)) as Hdm.
    pose proof (Z.mod_pos_bound m (2 ^ d) HP) as Hr.
    set (Q := m / 2 ^ d) in *. set (P := 2 ^ d) in *. set (r := m mod P) in *.
    assert (HPQ : P * 2 ^ 52 <= P * Q) by (apply Z.mul_le_mono_nonneg_l; lia).
    assert (HqQ : P * Q <= P * q0) by (apply Z.mul_le_mono_nonneg_l; lia).
    assert (P * Q * 2 ^ 52 <= q0 * P * 2 ^ 52) by nia.
    nia.
Qed.

Lemma times_scaled n c :
  fraction c ->
  0 <= Double.mant (Double.times n c) /\ -53 <= Double.expo (Double.times n c) /\
  Z.of_nat n * Double.mant c * (2 ^ 52 - 1) <= scaled (Double.times n c) * 2 ^ 52
  /\ scaled (Double.times n c) * 2 ^ 52 <= Z.of_nat n * Double.mant c * (2 ^ 52 + 1).
Proof.
  intros [He Hm]. unfold Double.times, scaled.
  assert (Hnm : 0 <= Z.of_nat n * Double.mant c) by nia.
  destruct (Double.round53 _ _) as [q e'] eqn:E. cbn [Double.mant Double.expo].
  destruct (round53_upper _ _ _ _ Hnm E) as (Hee & Hq & Hb).
  pose proof (round53_below _ _ _ _ Hnm E) as Hl.
  rewrite He in *. replace (e' - -53) with (e' + 53) in * by lia.
  repeat split; assumption || lia.
Qed.

Lemma floor_scaled d :
  0 <= Double.mant d -> -53 <= Double.expo d ->
  Z.of_nat (Double.floor d) = scaled d / 2 ^ 53.
Proof.
  intros Hm He. unfold Double.floor, scaled.
  destruct (Z.ltb_spec (Double.expo d) 0) as [H|H].
  - assert (HP : 0 < 2 ^ (- Double.expo d)) by (apply Z.pow_pos_nonneg; lia).
    assert (HA : 0 < 2 ^ (Double.expo d + 53)) by (apply Z.pow_pos_nonneg; lia).
    assert (E2 : 2 ^ 53 = 2 ^ (- Double.expo d) * 2 ^ (Double.expo d + 53))
      by (rewrite <- Z.pow_add_r by lia; f_equal; lia).
    rewrite E2, Z.div_mul_cancel_r by lia.
    rewrite Z2Nat.id; [reflexivity|apply Z.div_pos; lia].
  - rewrite Z.pow_add_r by lia. rewrite Z.mul_assoc, Z.div_mul by lia.
    rewrite Z2Nat.id; [reflexivity|].
    apply Z.mul_nonneg_nonneg; [lia|apply Z.pow_nonneg; lia].
Qed.

Lemma thr_scaled L c : fraction c -> Z.of_nat (thr L c) = scaled (Double.times L c) / 2 ^ 53.
Proof.
  intros Hc. destruct (times_scaled L c Hc) as (Hm & He & _).
  now apply floor_scaled.
Qed.

Lemma thr_mono L c1 c2 :
  fraction c1 -> fraction c2 ->
  Double.mant c1 * (2 ^ 52 + 1) <= Double.mant c2 * (2 ^ 52 - 1) ->
  (thr L c1 <= thr L c2)%nat.
Proof.
  intros H1 H2 Hc. apply Nat2Z.inj_le. rewrite !thr_scaled by assumption.
  destruct (times_scaled L c1 H1) as (_ & _ & _ & Hu).
  destruct (times_scaled L c2 H2) as (_ & _ & Hl & _).
  apply Z.div_le_mono; [lia|].
  assert (Z.of_nat L * (Double.mant c1 * (2 ^ 52 + 1))
          <= Z.of_nat L * (Double.mant c2 * (2 ^ 52 - 1)))
    by (apply Z.mul_le_mono_nonneg_l; lia).
  lia.
Qed.

Lemma thr_ratio L c k :
  fraction c -> (k <= thr L c)%nat ->
  Z.of_nat k * 2 ^ 105 <= Z.of_nat L * Double.mant c * (2 ^ 52 + 1).
Proof.
  intros Hc Hk. apply Nat2Z.inj_le in Hk. rewrite thr_scaled in Hk by assumption.
  destruct (times_scaled L c Hc) as (_ & _ & _ & Hu).
  pose proof (Z.mul_div_le (scaled (Double.times L c)) (2 ^ 53) ltac:(lia)) as Hd.
  assert (2 ^ 53 * Z.of_nat k <= 2 ^ 53 * (scaled (Double.times L c) / 2 ^ 53))
    by (apply Z.mul_le_mono_nonneg_l; lia).
  change (2 ^ 105) with (2 ^ 53 * 2 ^ 52). lia.
Qed.

End ScaledFacts.

Lemma thr_06_07 L : thr L Double.c06 <= thr L Double.c07.
Proof. apply thr_mono; [apply fraction_c06|apply fraction_c07|]. simpl. lia. Qed.

Lemma thr_05_07 L : thr L Double.c05 <= thr L Double.c07.
Proof. apply thr_mono; [apply fraction_c05|apply fraction_c07|]. simpl. lia. Qed.

Lemma thr_06_08 L : thr L Double.c06 <= thr L Double.c08.
Proof. apply thr_mono; [apply fraction_c06|apply fraction_c08|]. simpl. lia. Qed.

Lemma thr_07_08 L : thr L Double.c07 <= thr L Double.c08.
Proof. apply thr_mono; [apply fraction_c07|apply fraction_c08|]. simpl. lia. Qed.

(** For a budget below [2 ^ 32] the thresholds are the exact fractions. *)
Lemma thr_c06_exact L k :
  (Z.of_nat L < 2 ^ 32)%Z -> k <= thr L Double.c06 -> 5 * k <= 3 * L.
Proof.
  intros HL Hk. pose proof (thr_ratio L _ k fraction_c06 Hk) as H.
  simpl Double.mant in H. change (2 ^ 32)%Z with 4294967296%Z in HL.
  change (2 ^ 105)%Z with 40564819207303340847894502572032%Z in H.
  change (2 ^ 52)%Z with 4503599627370496%Z in H. lia.
Qed.

Lemma thr_c07_exact L k :
  (Z.of_nat L < 2 ^ 32)%Z -> k <= thr L Double.c07 -> 10 * k <= 7 * L.
Proof.
  intros HL Hk. pose proof (thr_ratio L _ k fraction_c07 Hk) as H.
  simpl Double.mant in H. change (2 ^ 32)%Z with 4294967296%Z in HL.
  change (2 ^ 105)%Z with 40564819207303340847894502572032%Z in H.
  change (2 ^ 52)%Z with 4503599627370496%Z in H. lia.
Qed.

Lemma thr_c08_exact L k :
  (Z.of_nat L < 2 ^ 32)%Z -> k <= thr L Double.c08 -> 5 * k <= 4 * L.
Proof.
  intros HL Hk. pose proof (thr_ratio L _ k fraction_c08 Hk) as H.
  simpl Double.mant in H. change (2 ^ 32)%Z with 4294967296%Z in HL.
  change (2 ^ 105)%Z with 40564819207303340847894502572032%Z in H.
  change (2 ^ 52)%Z with 4503599627370496%Z in H. lia.
Qed.

(** *** Headroom of the tiers, and the line-based splitter *)

Lemma within_weaken B B' chunks : B <= B' -> within B chunks -> within B' chunks.
Proof.
  intros HB H. unfold within in *. rewrite Forall_forall in *.
  intros c Hc. specialize (H c Hc). simpl in H. lia.
Qed.

Section Headroom.

Variable fuel : nat.
Variable L : nat.

Lemma splitSentence_step_tight st word st' :
  state_within (thr L Double.c06) st -> splitSentence_step fuel L st word = Some st' ->
  state_within (thr L Double.c06) st'.
Proof.
  destruct st as [chunks cur]. intros [Hc Hl]. simpl in Hc, Hl.
  unfold splitSentence_step.
  rewrite (leb_thr L _ _ fraction_c06), (gtb_thr L _ _ fraction_c06).
  destruct (Nat.leb_spec (length (joinWith (lit " ") cur word)) (thr L Double.c06)).
  - intros E. injection E as <-. split; simpl; [assumption|lia].
  - destruct (Nat.ltb_spec (thr L Double.c06) (length word)).
    + apply cutWord_within; [apply Nat.le_refl| |now apply pushTrimmed_within].
      intros n Hn. rewrite (gtb_thr L _ _ fraction_c06) in Hn. now apply Nat.ltb_ge in Hn.
    + intros E. injection E as <-. split; simpl; [now apply pushTrimmed_within|lia].
Qed.

Lemma splitSentence_tight sentence pieces :
  splitSentence fuel L sentence = Some pieces -> within (thr L Double.c06) pieces.
Proof.
  unfold splitSentence.
  destruct (foldM _ _ _) as [[chunks cur]|] eqn:E; simpl; [|discriminate].
  intros H. injection H as <-.
  apply (foldM_inv (state_within (thr L Double.c06))) in E.
  - destruct E. now apply pushTrimmed_within.
  - intros a x a' Ha _. now apply splitSentence_step_tight.
  - split; simpl; [constructor|lia].
Qed.

Lemma splitParagraph_step_tight st sentence st' :
  state_within (thr L Double.c07) st -> splitParagraph_step fuel L st sentence = Some st' ->
  state_within (thr L Double.c07) st'.
Proof.
  destruct st as [chunks cur]. intros [Hc Hl]. simpl in Hc, Hl.
  unfold splitParagraph_step.
  rewrite (leb_thr L _ _ fraction_c07), (gtb_thr L _ _ fraction_c05).
  pose proof (thr_05_07 L) as H57. pose proof (thr_06_07 L) as H67.
  destruct (Nat.leb_spec (length (joinWith (lit " ") cur sentence)) (thr L Double.c07)).
  - intros E. injection E as <-. split; simpl; [assumption|lia].
  - destruct (Nat.ltb_spec (thr L Double.c05) (length sentence)).
    + destruct (splitSentence fuel L sentence) as [pieces|] eqn:E; simpl; [|discriminate].
      intros H1. injection H1 as <-. split; simpl; [|lia].
      apply within_app; [now apply pushTrimmed_within|].
      apply within_weaken with (thr L Double.c06); [assumption|].
      now apply splitSentence_tight with sentence.
    + intros E. injection E as <-. split; simpl; [now apply pushTrimmed_within|lia].
Qed.

Lemma splitParagraph_tight paragraph pieces :
  splitParagraph fuel L paragraph = Some pieces -> within (thr L Double.c07) pieces.
Proof.
  unfold splitParagraph.
  destruct (foldM _ _ _) as [[chunks cur]|] eqn:E; simpl; [|discriminate].
  intros H. injection H as <-.
  apply (foldM_inv (state_within (thr L Double.c07))) in E.
  - destruct E. now apply pushTrimmed_within.
  - intros a x a' Ha _. now apply splitParagraph_step_tight.
  - split; simpl; [constructor|lia].
Qed.

Lemma paragraph_step_tight st paragraph st' :
  state_within (thr L Double.c08) st -> paragraph_step fuel L st paragraph = Some st' ->
  state_within (thr L Double.c08) st'.
Proof.
  destruct st as [chunks cur]. intros [Hc Hl]. simpl in Hc, Hl.
  unfold paragraph_step.
  rewrite (leb_thr L _ _ fraction_c08), (gtb_thr L _ _ fraction_c06).
  pose proof (thr_06_08 L) as H68. pose proof (thr_07_08 L) as H78.
  destruct (Nat.leb_spec (length (joinWith [LF; LF] cur paragraph)) (thr L Double.c08)).
  - intros E. injection E as <-. split; simpl; [assumption|lia].
  - destruct (Nat.ltb_spec (thr L Double.c06) (length paragraph)).
    + destruct (splitParagraph fuel L paragraph) as [pieces|] eqn:E; simpl; [|discriminate].
      intros H1. injection H1 as <-. split; simpl; [|lia].
      apply within_app; [now apply pushTrimmed_within|].
      apply within_weaken with (thr L Double.c07); [assumption|].
      now apply splitParagraph_tight with paragraph.
    + intros E. injection E as <-. split; simpl; [now apply pushTrimmed_within|lia].
Qed.

Lemma paragraphChunks_tight text chunks :
  paragraphChunks fuel L text = Some chunks -> within (thr L Double.c08) chunks.
Proof.
  unfold paragraphChunks.
  destruct (foldM _ _ _) as [[cs cur]|] eqn:E; simpl; [|discriminate].
  intros H. injection H as <-.
  apply (foldM_inv (state_within (thr L Double.c08))) in E.
  - destruct E. now apply pushTrimmed_within.
  - intros a x a' Ha _. now apply paragraph_step_tight.
  - split; simpl; [constructor|lia].
Qed.

(** *** The line splitter *)

Lemma forceSplit_word_within st word st' :
  state_within L st -> forceSplit_word fuel L st word = Some st' -> state_within L st'.
Proof.
  destruct st as [chunks cur]. intros [Hc Hl]. simpl in Hc, Hl.
  unfold forceSplit_word.
  destruct (Nat.leb_spec (length (joinWith (lit " ") cur word)) L).
  - intros E. injection E as <-. split; simpl; [assumption|lia].
  - destruct (Nat.ltb_spec L (length word)).
    + apply cutWord_within; [apply Nat.le_refl| |now apply pushTrimmed_within].
      intros n Hn. now apply Nat.ltb_ge in Hn.
    + intros E. injection E as <-. split; simpl; [now apply pushTrimmed_within|lia].
Qed.

Lemma forceSplit_line_within st line st' :
  state_within L st -> forceSplit_line fuel L st line = Some st' -> state_within L st'.
Proof.
  destruct st as [chunks cur]. intros [Hc Hl]. simpl in Hc, Hl.
  unfold forceSplit_line.
  destruct (Nat.leb_spec (length (joinWith [LF] cur line)) L).
  - intros E. injection E as <-. split; simpl; [assumption|lia].
  - destruct (Nat.ltb_spec L (length line)).
    + apply (foldM_inv (state_within L)).
      * intros a x a' Ha _. now apply forceSplit_word_within.
      * split; simpl; [now apply pushTrimmed_within|lia].
    + intros E. injection E as <-. split; simpl; [now apply pushTrimmed_within|lia].
Qed.

Lemma forceSplit_within text chunks :
  forceSplit fuel L text = Some chunks -> within L chunks.
Proof.
  unfold forceSplit.
  destruct (foldM _ _ _) as [[cs cur]|] eqn:E; simpl; [|discriminate].
  intros H. injection H as <-.
  apply (foldM_inv (state_within L)) in E.
  - destruct E. now apply pushTrimmed_within.
  - intros a x a' Ha _. now apply forceSplit_line_within.
  - split; simpl; [constructor|lia].
Qed.

Lemma forceSplit_word_content st word st' :
  forceSplit_word fuel L st word = Some st' -> content st' = content st ++ nonWhite word.
Proof.
  destruct st as [chunks cur]. unfold forceSplit_word.
  destruct (_ <=? _).
  - intros H. injection H as <-. now apply content_join.
  - destruct (_ <? _).
    + intros H. apply content_cutWord in H. rewrite H. apply content_push_state.
    + intros H. injection H as <-. apply content_push_state.
Qed.

Lemma forceSplit_line_content st line st' :
  forceSplit_line fuel L st line = Some st' -> content st' = content st ++ nonWhite line.
Proof.
  destruct st as [chunks cur]. unfold forceSplit_line.
  destruct (_ <=? _).
  - intros H. injection H as <-. now apply content_join.
  - destruct (_ <? _).
    + intros H. apply (foldM_content _ nonWhite) in H; [|apply forceSplit_word_content].
      rewrite H. unfold content at 1. cbn [fst snd]. rewrite app_nil_r.
      rewrite content_pushTrimmed. f_equal.
      rewrite <- nonWhite_concat. now apply nonWhite_split.
    + intros H. injection H as <-. apply content_push_state.
Qed.

Lemma forceSplit_content text chunks :
  forceSplit fuel L text = Some chunks -> nonWhite (concat chunks) = nonWhite text.
Proof.
  unfold forceSplit.
  destruct (foldM _ _ _) as [[cs cur]|] eqn:E; simpl; [|discriminate].
  intros H. injection H as <-. rewrite content_pushTrimmed.
  apply (foldM_content _ nonWhite) in E; [|apply forceSplit_line_content].
  rewrite E. unfold content at 1. simpl.
  rewrite <- nonWhite_concat. now apply nonWhite_split.
Qed.

Hypothesis HL : 1 <= L.

Lemma forceSplit_word_total st word :
  length word <= fuel -> exists st', forceSplit_word fuel L st word = Some st'.
Proof.
  intros Hw. destruct st as [chunks cur]. unfold forceSplit_word.
  destruct (_ <=? _); [eauto|]. destruct (L <? length word); [|eauto].
  apply cutWord_total; [assumption|reflexivity|assumption].
Qed.

Lemma forceSplit_line_total st line :
  length line <= fuel -> exists st', forceSplit_line fuel L st line = Some st'.
Proof.
  intros Hw. destruct st as [chunks cur]. unfold forceSplit_line.
  destruct (_ <=? _); [eauto|]. destruct (L <? length line); [|eauto].
  destruct (foldM_total (fun _ => True) (forceSplit_word fuel L)
              (split (lit " ") line)) with (a := (pushTrimmed chunks cur, @nil char))
    as (st' & -> & _); [|exact I|eauto].
  intros a x _ Hx. destruct (forceSplit_word_total a x) as [st' E]; [|eauto].
  apply split_pieces_short in Hx; [lia|discriminate].
Qed.

Lemma forceSplit_total text :
  length text <= fuel -> exists chunks, forceSplit fuel L text = Some chunks.
Proof.
  intros Hs. unfold forceSplit.
  destruct (foldM_total (fun _ => True) (forceSplit_line fuel L)
              (split [LF] text)) with (a := (@nil str, @nil char))
    as ([chunks cur] & -> & _); [|exact I|simpl; eauto].
  intros a x _ Hx. destruct (forceSplit_line_total a x) as [st' E]; [|eauto].
  apply split_pieces_short in Hx; [lia|discriminate].
Qed.

End Headroom.

(** *** Chunks are not empty; a budget of one *)

Lemma solid_app a b : solid a -> solid b -> solid (a ++ b).
Proof. intros. apply Forall_app. now split. Qed.

Lemma pushTrimmed_solid chunks cur : solid chunks -> solid (pushTrimmed chunks cur).
Proof.
  intros H. unfold pushTrimmed. destruct (trim cur) eqn:E; simpl; [assumption|].
  apply solid_app; [assumption|]. constructor; [discriminate|constructor].
Qed.

Lemma cutWord_solid fuel over k :
  1 <= k -> over 0 = false ->
  forall chunks w r, solid chunks -> cutWord fuel over k chunks w = Some r -> solid (fst r).
Proof.
  intros Hk H0. induction fuel as [|fuel IH]; intros chunks w r Hc; simpl;
    destruct (over (length w)) eqn:E; try discriminate.
  - intros H. now injection H as <-.
  - apply IH. apply solid_app; [assumption|]. constructor; [|constructor].
    destruct w as [|c w]; [simpl in E; congruence|].
    destruct k; [lia|]. discriminate.
  - intros H. now injection H as <-.
Qed.

Section Solid.

Variable fuel : nat.
Variable L : nat.
Hypothesis HL : 2 <= L.

Lemma splitSentence_step_solid st word st' :
  solid (fst st) -> splitSentence_step fuel L st word = Some st' -> solid (fst st').
Proof.
  destruct st as [chunks cur]. simpl. intros Hc. unfold splitSentence_step.
  destruct (Double.leb _ _).
  - intros E. now injection E as <-.
  - destruct (Double.gtb _ _).
    + apply cutWord_solid; [now apply floor_times_c06_pos| |now apply pushTrimmed_solid].
      now rewrite (gtb_thr L _ _ fraction_c06).
    + intros E. injection E as <-. now apply pushTrimmed_solid.
Qed.

Lemma splitSentence_solid sentence pieces :
  splitSentence fuel L sentence = Some pieces -> solid pieces.
Proof.
  unfold splitSentence.
  destruct (foldM _ _ _) as [[chunks cur]|] eqn:E; simpl; [|discriminate].
  intros H. injection H as <-.
  apply (foldM_inv (fun st => solid (fst st))) in E.
  - now apply pushTrimmed_solid.
  - intros a x a' Ha _. now apply splitSentence_step_solid.
  - constructor.
Qed.

Lemma splitParagraph_step_solid st sentence st' :
  solid (fst st) -> splitParagraph_step fuel L st sentence = Some st' -> solid (fst st').
Proof.
  destruct st as [chunks cur]. simpl. intros Hc. unfold splitParagraph_step.
  destruct (Double.leb _ _).
  - intros E. now injection E as <-.
  - destruct (Double.gtb _ _).
    + destruct (splitSentence fuel L sentence) as [pieces|] eqn:E; simpl; [|discriminate].
      intros H1. injection H1 as <-. simpl.
      apply solid_app; [now apply pushTrimmed_solid|].
      now apply splitSentence_solid with sentence.
    + intros E. injection E as <-. now apply pushTrimmed_solid.
Qed.

Lemma splitParagraph_solid paragraph pieces :
  splitParagraph fuel L paragraph = Some pieces -> solid pieces.
Proof.
  unfold splitParagraph.
  destruct (foldM _ _ _) as [[chunks cur]|] eqn:E; simpl; [|discriminate].
  intros H. injection H as <-.
  apply (foldM_inv (fun st => solid (fst st))) in E.
  - now apply pushTrimmed_solid.
  - intros a x a' Ha _. now apply splitParagraph_step_solid.
  - constructor.
Qed.

Lemma paragraph_step_solid st paragraph st' :
  solid (fst st) -> paragraph_step fuel L st paragraph = Some st' -> solid (fst st').
Proof.
  destruct st as [chunks cur]. simpl. intros Hc. unfold paragraph_step.
  destruct (Double.leb _ _).
  - intros E. now injection E as <-.
  - destruct (Double.gtb _ _).
    + destruct (splitParagraph fuel L paragraph) as [pieces|] eqn:E; simpl; [|discriminate].
      intros H1. injection H1 as <-. simpl.
      apply solid_app; [now apply pushTrimmed_solid|].
      now apply splitParagraph_solid with paragraph.
    + intros E. injection E as <-. now apply pushTrimmed_solid.
Qed.

Lemma paragraphChunks_solid text chunks :
  paragraphChunks fuel L text = Some chunks -> solid chunks.
Proof.
  unfold paragraphChunks.
  destruct (foldM _ _ _) as [[cs cur]|] eqn:E; simpl; [|discriminate].
  intros H. injection H as <-.
  apply (foldM_inv (fun st => solid (fst st))) in E.
  - now apply pushTrimmed_solid.
  - intros a x a' Ha _. now apply paragraph_step_solid.
  - constructor.
Qed.

End Solid.

(** *** A budget of one *)

Lemma foldM_stuck {A B : Type} (f : A -> B -> option A) l x :
  In x l -> (forall a, f a x = None) -> forall a, foldM f l a = None.
Proof.
  intros Hx Hf. induction l as [|y l IH]; intros a; [destruct Hx|].
  simpl. destruct Hx as [->|Hx]; [now rewrite Hf|].
  destruct (f a y); simpl; auto.
Qed.

Lemma piece_with_content l :
  nonWhite (concat l) <> [] -> exists x, In x l /\ nonWhite x <> [].
Proof.
  induction l as [|x l IH]; simpl; [congruence|].
  rewrite nonWhite_app. destruct (nonWhite x) eqn:E.
  - simpl. intros H. destruct (IH H) as (y & Hy & Hn). exists y. auto.
  - intros _. exists x. split; [now left|]. rewrite E. discriminate.
Qed.

Lemma joinWith_length sep cur piece : length piece <= length (joinWith sep cur piece).
Proof.
  destruct (joinWith_cases sep cur piece) as [[-> _]|[-> _]]; [lia|].
  rewrite !length_app. lia.
Qed.

Lemma content_length (s : str) : nonWhite s <> [] -> 1 <= length s.
Proof. destruct s; simpl; [congruence|lia]. Qed.

Lemma blank_content (s : str) : blank s = false -> nonWhite s <> [].
Proof.
  induction s as [|c s IH]; simpl; [discriminate|].
  destruct (isWhiteSpace c); simpl; [exact IH|discriminate].
Qed.

Section BudgetOne.

Variable fuel : nat.

Lemma splitSentence_step_one st word :
  nonWhite word <> [] -> splitSentence_step fuel 1 st word = None.
Proof.
  intros Hw. apply content_length in Hw. destruct st as [chunks cur].
  unfold splitSentence_step.
  rewrite (leb_thr 1 _ _ fraction_c06), (gtb_thr 1 _ _ fraction_c06).
  change (thr 1 Double.c06) with 0.
  pose proof (joinWith_length (lit " ") cur word) as Hj.
  destruct (Nat.leb_spec (length (joinWith (lit " ") cur word)) 0); [lia|].
  destruct (Nat.ltb_spec 0 (length word)); [|lia].
  change (Double.floor (Double.times 1 Double.c06)) with 0.
  apply cutWord_stuck. rewrite (gtb_thr 1 _ _ fraction_c06).
  change (thr 1 Double.c06) with 0. now apply Nat.ltb_lt.
Qed.

Lemma splitSentence_one sentence :
  nonWhite sentence <> [] -> splitSentence fuel 1 sentence = None.
Proof.
  intros Hs. unfold splitSentence.
  destruct (piece_with_content (split (lit " ") sentence)) as (w & Hw & Hn).
  { rewrite nonWhite_split; [assumption|discriminate|reflexivity]. }
  rewrite (foldM_stuck _ _ w Hw); [reflexivity|].
  intros a. now apply splitSentence_step_one.
Qed.

Lemma splitParagraph_step_one st sentence :
  nonWhite sentence <> [] -> splitParagraph_step fuel 1 st sentence = None.
Proof.
  intros Hw. pose proof (content_length _ Hw) as Hl. destruct st as [chunks cur].
  unfold splitParagraph_step.
  rewrite (leb_thr 1 _ _ fraction_c07), (gtb_thr 1 _ _ fraction_c05).
  change (thr 1 Double.c07) with 0. change (thr 1 Double.c05) with 0.
  pose proof (joinWith_length (lit " ") cur sentence) as Hj.
  destruct (Nat.leb_spec (length (joinWith (lit " ") cur sentence)) 0); [lia|].
  destruct (Nat.ltb_spec 0 (length sentence)); [|lia].
  now rewrite splitSentence_one.
Qed.

Lemma splitParagraph_one paragraph :
  nonWhite paragraph <> [] -> splitParagraph fuel 1 paragraph = None.
Proof.
  intros Hs. unfold splitParagraph.
  destruct (piece_with_content (splitSentences paragraph)) as (w & Hw & Hn).
  { now rewrite nonWhite_splitSentences. }
  rewrite (foldM_stuck _ _ w Hw); [reflexivity|].
  intros a. now apply splitParagraph_step_one.
Qed.

Lemma paragraph_step_one st paragraph :
  nonWhite paragraph <> [] -> paragraph_step fuel 1 st paragraph = None.
Proof.
  intros Hw. pose proof (content_length _ Hw) as Hl. destruct st as [chunks cur].
  unfold paragraph_step.
  rewrite (leb_thr 1 _ _ fraction_c08), (gtb_thr 1 _ _ fraction_c06).
  change (thr 1 Double.c08) with 0. change (thr 1 Double.c06) with 0.
  pose proof (joinWith_length [LF; LF] cur paragraph) as Hj.
  destruct (Nat.leb_spec (length (joinWith [LF; LF] cur paragraph)) 0); [lia|].
  destruct (Nat.ltb_spec 0 (length paragraph)); [|lia].
  now rewrite splitParagraph_one.
Qed.

Lemma paragraphChunks_one text :
  nonWhite text <> [] -> paragraphChunks fuel 1 text = None.
Proof.
  intros Hs. unfold paragraphChunks.
  destruct (piece_with_content (split [LF; LF] text)) as (w & Hw & Hn).
  { rewrite nonWhite_split; [assumption|discriminate|reflexivity]. }
  rewrite (foldM_stuck _ _ w Hw); [reflexivity|].
  intros a. now apply paragraph_step_one.
Qed.

End BudgetOne.

(** *** The marks of [sendLongMessage] *)

Lemma chunkText_length n i chunk : length (chunkText n i chunk) <= length chunk + 51.
Proof.
  unfold chunkText.
  destruct (1 <? n); [|lia].
  destruct (i =? 0); [|destruct (i =? n - 1)]; rewrite ?length_app;
    change (length continuedMark) with 27; change (length continuationMark) with 24; lia.
Qed.

Lemma chunkTexts_length B n chunks : forall i,
  within B chunks -> within (B + 51) (chunkTexts n i chunks).
Proof.
  induction chunks as [|c cs IH]; intros i H; simpl; [constructor|].
  inversion H; subst. constructor; [|now apply IH].
  pose proof (chunkText_length n i c). lia.
Qed.

(** *** Texts the patterns do not touch *)

(** *** The replacement loop where the pattern does not match *)

Lemma replaceLoop_untouched {St : Type} rx
  (f : St -> str -> str -> list (option str) -> str -> str * St) :
  forall fuel st before s,
  (forall pre suf, s = pre ++ suf -> rx (rev pre ++ before) suf = None) ->
  length s < fuel ->
  replaceLoop fuel rx f st before s = Some (s, st).
Proof.
  induction fuel as [|fuel IH]; intros st before s Hrx Hl; [lia|].
  cbn [replaceLoop]. pose proof (Hrx [] s eq_refl) as H0. cbn [rev app] in H0. rewrite H0.
  destruct s as [|c s']; [reflexivity|].
  rewrite IH; [reflexivity| |simpl in Hl; lia].
  intros pre suf E. specialize (Hrx (c :: pre) suf). simpl in Hrx.
  rewrite <- app_assoc in Hrx. apply Hrx. now rewrite E.
Qed.

Lemma forallb_suffix {A : Type} (p : A -> bool) pre suf :
  forallb p (pre ++ suf) = true -> forallb p suf = true.
Proof. rewrite forallb_app. intros H. now apply andb_prop in H as [_ H]. Qed.

Lemma replaceLoop_free {St : Type} (p : char -> bool) rx
  (f : St -> str -> str -> list (option str) -> str -> str * St) :
  (forall b t, forallb p t = true -> rx b t = None) ->
  forall fuel st before s, forallb p s = true -> length s < fuel ->
  replaceLoop fuel rx f st before s = Some (s, st).
Proof.
  intros Hrx fuel st before s Hs Hl. apply replaceLoop_untouched; [|assumption].
  intros pre suf ->. apply Hrx. now apply forallb_suffix in Hs.
Qed.

Lemma replaceTemplate_free (p : char -> bool) rx tpl s :
  (forall b t, forallb p t = true -> rx b t = None) ->
  forallb p s = true -> replaceTemplate rx tpl s = Some s.
Proof.
  intros Hrx Hs. unfold replaceTemplate.
  rewrite (replaceLoop_free p) by (auto; lia). reflexivity.
Qed.

Lemma matchAll_free (p : char -> bool) rx s :
  (forall b t, forallb p t = true -> rx b t = None) ->
  forallb p s = true -> matchAll rx s = Some [].
Proof.
  intros Hrx Hs. unfold matchAll.
  rewrite (replaceLoop_free p) by (auto; lia). reflexivity.
Qed.

Lemma extract_free (p : char -> bool) rx token s :
  (forall b t, forallb p t = true -> rx b t = None) ->
  forallb p s = true -> extract rx token s = Some (s, []).
Proof.
  intros Hrx Hs. unfold extract.
  rewrite (replaceLoop_free p) by (auto; lia). reflexivity.
Qed.

(** Enough fuel is enough. *)
Lemma replaceLoop_fuel {St : Type} rx
  (f : St -> str -> str -> list (option str) -> str -> str * St) :
  forall fuel fuel' st before s, length s < fuel -> length s < fuel' ->
  replaceLoop fuel rx f st before s = replaceLoop fuel' rx f st before s.
Proof.
  induction fuel as [|fuel IH]; intros fuel' st before s H H'; [lia|].
  destruct fuel' as [|fuel']; [lia|].
  cbn [replaceLoop]. destruct (rx before s) as [[n caps]|].
  - destruct (f st (rev before) (firstn n s) caps (skipn n s)) as [rep st1].
    destruct (firstn n s) as [|m ms] eqn:Em.
    + destruct s as [|c s']; [reflexivity|].
      rewrite (IH fuel') by (simpl in *; lia). reflexivity.
    + assert (length (skipn n s) < length s).
      { rewrite length_skipn. destruct n; [discriminate|].
        destruct s; [discriminate|]. simpl. lia. }
      rewrite (IH fuel') by lia. reflexivity.
  - destruct s as [|c s']; [reflexivity|].
    rewrite (IH fuel') by (simpl in *; lia). reflexivity.
Qed.

(** A prefix where the pattern cannot start is copied. *)
Lemma replaceLoop_skip {St : Type} (p : char -> bool) rx
  (f : St -> str -> str -> list (option str) -> str -> str * St) :
  (forall b c t, p c = true -> rx b (c :: t) = None) ->
  forall pre fuel st before rest, forallb p pre = true ->
  replaceLoop (length pre + fuel) rx f st before (pre ++ rest)
  = '(out, st') <- replaceLoop fuel rx f st (rev pre ++ before) rest ;;
    Some (pre ++ out, st').
Proof.
  intros Hrx. induction pre as [|c pre IH]; intros fuel st before rest Hp.
  - simpl. destruct (replaceLoop fuel rx f st before rest) as [[out st']|]; reflexivity.
  - simpl in Hp. apply andb_prop in Hp as [Hc Hp].
    cbn [length Nat.add app replaceLoop]. rewrite (Hrx before c _ Hc).
    rewrite IH by assumption. cbn [rev]. rewrite <- app_assoc. cbn [app].
    destruct (replaceLoop fuel rx f st (rev pre ++ c :: before) rest) as [[out st']|];
      reflexivity.
Qed.

(** *** Counting with [match] *)

Lemma count_absent c s : forallb (notChar c) s = true -> count c s = 0.
Proof.
  unfold count, notChar. induction s as [|x s IH]; simpl; [reflexivity|].
  intros H. apply andb_prop in H as [Hx Hs]. apply negb_true_iff in Hx.
  rewrite N.eqb_sym, Hx. auto.
Qed.

Lemma matchLoop_literal1 (c : char) :
  forall fuel ms before s out ms',
  replaceLoop fuel (rxLiteral [c])
    (fun ms (_ : str) matched (_ : list (option str)) (_ : str) =>
       (@nil char, ms ++ [matched])) ms before s = Some (out, ms') ->
  length ms' = length ms + count c s.
Proof.
  induction fuel as [|fuel IH]; intros ms before s out ms'; [discriminate|].
  cbn [replaceLoop]. unfold rxLiteral at 1. destruct s as [|x s'].
  - cbn [startsWith]. intros H. injection H as _ <-. unfold count. simpl. lia.
  - cbn [startsWith]. unfold count. cbn [filter].
    destruct (c =? x)%N eqn:E; cbn [andb length firstn skipn].
    + destruct (replaceLoop fuel _ _ _ _ s') as [[o m]|] eqn:El; [|discriminate].
      cbn [bind]. intros H. injection H as _ <-.
      apply IH in El. rewrite El, length_app. unfold count. simpl. lia.
    + destruct (replaceLoop fuel _ _ _ _ s') as [[o m]|] eqn:El; [|discriminate].
      cbn [bind]. intros H. injection H as _ <-.
      apply IH in El. rewrite El. reflexivity.
Qed.

Lemma countMatches_literal1 (c : char) s :
  countMatches (rxLiteral [c]) s = Some (count c s).
Proof.
  unfold countMatches. destruct (matchAll_total (rxLiteral [c]) s) as [ms E].
  rewrite E. cbn [bind]. f_equal.
  unfold matchAll in E.
  destruct (replaceLoop _ _ _ _ _ _) as [[o m]|] eqn:El; [|discriminate].
  cbn [bind] in E. injection E as <-.
  apply matchLoop_literal1 in El. simpl in El. exact El.
Qed.

Lemma matchLoop_pairs (c : char) :
  forall fuel ms before s out ms',
  replaceLoop fuel (rxLiteral [c; c])
    (fun ms (_ : str) matched (_ : list (option str)) (_ : str) =>
       (@nil char, ms ++ [matched])) ms before s = Some (out, ms') ->
  exists k, length ms' = length ms + k /\ 2 * k <= count c s.
Proof.
  induction fuel as [|fuel IH]; intros ms before s out ms'; [discriminate|].
  cbn [replaceLoop]. unfold rxLiteral at 1. destruct s as [|x s'].
  - cbn [startsWith]. intros H. injection H as _ <-. exists 0. split; [lia|]. simpl. lia.
  - destruct (startsWith [c; c] (x :: s')) eqn:E.
    + destruct s' as [|y s'']; [simpl in E; rewrite andb_false_r in E; discriminate|].
      cbn [startsWith] in E. apply andb_prop in E as [E1 E2].
      apply andb_prop in E2 as [E2 _].
      cbn [length firstn skipn].
      destruct (replaceLoop fuel _ _ _ _ s'') as [[o m]|] eqn:El; [|discriminate].
      cbn [bind]. intros H. injection H as _ <-.
      apply IH in El as (k & Hk & Hc). exists (S k).
      rewrite Hk, length_app. unfold count in *. cbn [filter]. rewrite E1, E2.
      simpl. lia.
    + destruct (replaceLoop fuel _ _ _ _ s') as [[o m]|] eqn:El; [|discriminate].
      cbn [bind]. intros H. injection H as _ <-.
      apply IH in El as (k & Hk & Hc). exists k. split; [assumption|].
      unfold count in *. cbn [filter]. destruct (c =? x)%N; simpl; lia.
Qed.

Lemma countMatches_pairs (c : char) s :
  exists k, countMatches (rxLiteral [c; c]) s = Some k /\ 2 * k <= count c s.
Proof.
  unfold countMatches. destruct (matchAll_total (rxLiteral [c; c]) s) as [ms E].
  rewrite E. cbn [bind]. exists (length ms). split; [reflexivity|].
  unfold matchAll in E.
  destruct (replaceLoop _ _ _ _ _ _) as [[o m]|] eqn:El; [|discriminate].
  cbn [bind] in E. injection E as <-.
  apply matchLoop_pairs in El as (k & Hk & Hc). simpl in Hk. lia.
Qed.

Lemma countMatches_total rx s : exists k, countMatches rx s = Some k.
Proof.
  unfold countMatches. destruct (matchAll_total rx s) as [ms ->]. simpl. eauto.
Qed.

Lemma parensInLinks_total t : exists r, parensInLinks t = Some r.
Proof.
  unfold parensInLinks. destruct (matchAll_total rxLink t) as [links ->]. cbn [bind].
  destruct (countMatches_total (rxLiteral [LPAREN]) (concat links)) as [a ->].
  destruct (countMatches_total (rxLiteral [RPAREN]) (concat links)) as [b ->].
  simpl. eauto.
Qed.

(** *** The verdict of the checker *)

Lemma rxFence_headed b c t : notChar BACKTICK c = true -> rxFence b (c :: t) = None.
Proof.
  intros H. unfold rxFence.
  change (startsWith FENCE (c :: t))
    with ((BACKTICK =? c)%N && startsWith [BACKTICK; BACKTICK] t).
  unfold notChar in H. apply negb_true_iff in H. now rewrite N.eqb_sym, H.
Qed.

Lemma rxUnderscore_free b t : forallb (notChar UNDERSCORE) t = true -> rxUnderscore b t = None.
Proof.
  destruct t as [|c t]; [reflexivity|]. simpl forallb. intros H.
  apply andb_prop in H as [H _]. unfold notChar in H. apply negb_true_iff in H.
  unfold rxUnderscore. rewrite H. now rewrite !andb_false_r.
Qed.

Lemma analyzed_plain text : noBacktick text = true -> analyzed text = Some text.
Proof.
  intros H. unfold analyzed.
  rewrite (replaceTemplate_free _ rxFence [] text rxFence_nomatch H). cbn [bind].
  apply (replaceTemplate_free _ rxInline [] text rxInline_nomatch H).
Qed.

Lemma markupFree_weaken (p : char -> bool) s :
  (forall c, notChar STAR c && notChar UNDERSCORE c && notChar LBRACKET c
             && notChar RBRACKET c && notChar LPAREN c && notChar RPAREN c
             && notChar BACKTICK c = true -> p c = true) ->
  markupFree s = true -> forallb p s = true.
Proof. intros Hp. apply forallb_weaken. exact Hp. Qed.

Ltac pick_conjunct :=
  let c := fresh "c" in let H := fresh "H" in
  intros c H; repeat (apply andb_prop in H; destruct H as [H ?]); assumption.

Lemma hasProblematicMarkdown_verdict text t :
  analyzed text = Some t ->
  exists bold underscores,
    countMatches (rxLiteral [STAR; STAR]) t = Some bold /\ 2 * bold <= count STAR t /\
    countMatches rxUnderscore t = Some underscores /\
    hasProblematicMarkdown text
    = Some ((0 <? count STAR t)
            && (Nat.odd bold || Nat.odd (count STAR t - bold * 2))
            || Nat.odd underscores
            || negb (count LBRACKET t =? count RBRACKET t)
            || negb (count LPAREN t =? count RPAREN t)).
Proof.
  intros Ht. destruct (countMatches_pairs STAR t) as (bold & Eb & Hb).
  destruct (countMatches_total rxUnderscore t) as [u Eu].
  exists bold, u. repeat split; try assumption.
  unfold hasProblematicMarkdown. rewrite Ht. cbn [bind].
  rewrite (countMatches_literal1 STAR t). cbn [bind]. rewrite Eb. cbn [bind].
  destruct ((0 <? count STAR t) && (Nat.odd bold || Nat.odd (count STAR t - bold * 2)));
    [reflexivity|].
  rewrite Eu. cbn [bind orb]. destruct (Nat.odd u); [reflexivity|].
  rewrite (countMatches_literal1 LBRACKET t), (countMatches_literal1 RBRACKET t).
  cbn [bind orb]. destruct (negb (count LBRACKET t =? count RBRACKET t)); [reflexivity|].
  destruct (parensInLinks_total t) as [r ->]. cbn [bind orb].
  rewrite (countMatches_literal1 LPAREN t), (countMatches_literal1 RPAREN t).
  cbn [bind]. destruct (negb (count LPAREN t =? count RPAREN t)); reflexivity.
Qed.

Lemma odd_rest total bold :
  2 * bold <= total -> Nat.odd (total - bold * 2) = Nat.odd total.
Proof.
  intros H. rewrite Nat.odd_sub by lia.
  rewrite Nat.odd_mul. simpl. now rewrite andb_false_r, xorb_false_r.
Qed.

(** *** A fenced block in plain surroundings *)

Lemma indexOf_past (x : char) (p body post : str) :
  forallb (notChar x) body = true ->
  indexOf (x :: p) (body ++ (x :: p) ++ post) = Some (body, post).
Proof.
  induction body as [|c body IH]; intros H.
  - cbn [app indexOf]. change (x :: p ++ post) with ((x :: p) ++ post).
    rewrite startsWith_app, skipn_app, skipn_all, Nat.sub_diag. reflexivity.
  - simpl in H. apply andb_prop in H as [Hc Hb].
    unfold notChar in Hc. apply negb_true_iff in Hc.
    cbn [app indexOf startsWith]. rewrite N.eqb_sym, Hc. cbn [andb].
    change (body ++ x :: p ++ post) with (body ++ (x :: p) ++ post).
    now rewrite IH.
Qed.

Lemma indexOf_fence body post :
  noBacktick body = true -> indexOf FENCE (body ++ FENCE ++ post) = Some (body, post).
Proof. exact (indexOf_past BACKTICK [BACKTICK; BACKTICK] body post). Qed.

Lemma analyzed_fenced pre body post :
  noBacktick pre = true -> noBacktick body = true -> noBacktick post = true ->
  analyzed (pre ++ FENCE ++ body ++ FENCE ++ post) = Some (pre ++ post).
Proof.
  intros Hpre Hbody Hpost. unfold analyzed.
  assert (E : replaceTemplate rxFence [] (pre ++ FENCE ++ body ++ FENCE ++ post)
              = Some (pre ++ post)).
  { unfold replaceTemplate.
    rewrite (replaceLoop_fuel _ _ _
               (length pre + S (length (FENCE ++ body ++ FENCE ++ post))))
      by (rewrite ?length_app; lia).
    rewrite (replaceLoop_skip (notChar BACKTICK)) by (exact rxFence_headed || exact Hpre).
    cbn [replaceLoop]. unfold rxFence at 1.
    rewrite startsWith_app.
    change (skipn 3 (FENCE ++ body ++ FENCE ++ post)) with (body ++ FENCE ++ post).
    rewrite (indexOf_fence body post Hbody).
    assert (Ef : firstn (3 + length body + 3) (FENCE ++ body ++ FENCE ++ post)
                 = FENCE ++ body ++ FENCE).
    { replace (FENCE ++ body ++ FENCE ++ post) with ((FENCE ++ body ++ FENCE) ++ post)
        by now rewrite <- !app_assoc.
      rewrite firstn_app.
      replace (3 + length body + 3) with (length (FENCE ++ body ++ FENCE))
        by (rewrite !length_app; simpl; lia).
      now rewrite firstn_all, Nat.sub_diag, firstn_0, app_nil_r. }
    assert (Es : skipn (3 + length body + 3) (FENCE ++ body ++ FENCE ++ post) = post).
    { replace (FENCE ++ body ++ FENCE ++ post) with ((FENCE ++ body ++ FENCE) ++ post)
        by now rewrite <- !app_assoc.
      rewrite skipn_app.
      replace (3 + length body + 3) with (length (FENCE ++ body ++ FENCE))
        by (rewrite !length_app; simpl; lia).
      now rewrite skipn_all, Nat.sub_diag. }
    rewrite Ef, Es. cbn [getSubstitution].
    change (FENCE ++ body ++ FENCE) with (BACKTICK :: BACKTICK :: BACKTICK :: body ++ FENCE).
    cbv iota.
    rewrite (replaceLoop_free _ rxFence _ rxFence_nomatch)
      by (exact Hpost || (rewrite !length_app; simpl; lia)).
    cbn [bind app]. reflexivity. }
  rewrite E. cbn [bind].
  apply (replaceTemplate_free _ rxInline [] _ rxInline_nomatch).
  unfold noBacktick in *. rewrite forallb_app. apply andb_true_intro. now split.
Qed.

(** *** The cleaner on texts without markup *)

Lemma startsWith_absent (x : char) (p t : str) :
  forallb (notChar x) t = true -> startsWith (x :: p) t = false.
Proof.
  destruct t as [|c t]; [reflexivity|]. simpl forallb. intros H.
  apply andb_prop in H as [H _]. unfold notChar in H. apply negb_true_iff in H.
  cbn [startsWith]. now rewrite N.eqb_sym, H.
Qed.

Lemma head_absent (x c : char) (t : str) :
  forallb (notChar x) (c :: t) = true -> (c =? x)%N = false.
Proof.
  simpl. intros H. apply andb_prop in H as [H _]. now apply negb_true_iff in H.
Qed.

Lemma takeWhile_all (p : char -> bool) t : forallb p t = true -> takeWhile p t = t.
Proof.
  induction t as [|c t IH]; [reflexivity|]. simpl. intros H.
  apply andb_prop in H as [-> H]. now rewrite IH.
Qed.

Lemma rxBoldOpen_free b t : forallb (notChar STAR) t = true -> rxBoldOpen b t = None.
Proof. intros H. unfold rxBoldOpen. now rewrite startsWith_absent. Qed.

Lemma rxBoldClose_free b t : forallb (notChar STAR) t = true -> rxBoldClose b t = None.
Proof.
  intros H. unfold rxBoldClose. destruct t as [|c t]; [reflexivity|].
  now rewrite (head_absent _ _ _ H).
Qed.

Lemma rxEmptyBold_free b t : forallb (notChar STAR) t = true -> rxEmptyBold b t = None.
Proof. intros H. unfold rxEmptyBold. now rewrite startsWith_absent. Qed.

Lemma rxItalic_free b t : forallb (notChar STAR) t = true -> rxItalic b t = None.
Proof.
  intros H. unfold rxItalic. destruct t as [|c t]; [reflexivity|].
  now rewrite (head_absent _ _ _ H).
Qed.

Lemma rxLeading_free x b t : forallb (notChar x) t = true -> rxLeading x b t = None.
Proof.
  intros H. unfold rxLeading. destruct t as [|c t]; [reflexivity|].
  rewrite (head_absent _ _ _ H). now rewrite andb_false_r.
Qed.

Lemma rxTrailing_free x b t : forallb (notChar x) t = true -> rxTrailing x b t = None.
Proof.
  intros H. unfold rxTrailing. destruct t as [|c t]; [reflexivity|].
  rewrite (head_absent _ _ _ H). now rewrite andb_false_r.
Qed.

Lemma rxOpenBracket_free b t : forallb (notChar LBRACKET) t = true -> rxOpenBracket b t = None.
Proof.
  intros H. unfold rxOpenBracket. destruct t as [|c t]; [reflexivity|].
  now rewrite (head_absent _ _ _ H).
Qed.

Lemma rxCloseBracket_free b t : forallb (notChar RBRACKET) t = true -> rxCloseBracket b t = None.
Proof.
  intros H. unfold rxCloseBracket. destruct (atLineStart b); [|reflexivity].
  rewrite (takeWhile_all _ _ H), skipn_all. reflexivity.
Qed.

(** The callback of the italic repair gives back the match. *)
Lemma replaceLoop_echo {St : Type} rx
  (f : St -> str -> str -> list (option str) -> str -> str * St) :
  (forall b t n caps st, rx b t = Some (n, caps) ->
     f st (rev b) (firstn n t) caps (skipn n t) = (firstn n t, st)) ->
  forall fuel st before s, length s < fuel ->
  replaceLoop fuel rx f st before s = Some (s, st).
Proof.
  intros Hf. induction fuel as [|fuel IH]; intros st before s Hl; [lia|].
  cbn [replaceLoop]. destruct (rx before s) as [[n caps]|] eqn:E.
  - rewrite (Hf _ _ _ _ st E).
    destruct (firstn n s) as [|m ms] eqn:Em.
    + destruct s as [|c s']; [reflexivity|].
      rewrite IH by (simpl in Hl; lia). reflexivity.
    + rewrite IH.
      * cbn [bind]. now rewrite <- Em, firstn_skipn.
      * rewrite length_skipn. destruct n; [discriminate|].
        destruct s; [discriminate|]. simpl in *. lia.
  - destruct s as [|c s']; [reflexivity|].
    rewrite IH by (simpl in Hl; lia). reflexivity.
Qed.

Lemma includes_takeWhile rest : includes STAR (takeWhile italicBody rest) = false.
Proof.
  induction rest as [|c rest IH]; [reflexivity|]. cbn [takeWhile].
  destruct (italicBody c) eqn:E; [|reflexivity].
  unfold includes in *. cbn [existsb]. rewrite IH.
  unfold italicBody, notChar in E. apply andb_prop in E as [E _].
  apply negb_true_iff in E. now rewrite N.eqb_sym, E.
Qed.

Lemma rxItalic_content b t n caps :
  rxItalic b t = Some (n, caps) -> includes STAR (capture caps 1) = false.
Proof.
  unfold rxItalic. destruct t as [|c rest]; [discriminate|].
  destruct ((c =? STAR)%N && negb (startsWith [STAR] b)); [|discriminate].
  destruct (takeWhile italicBody rest) as [|x body] eqn:Eb; [discriminate|].
  destruct (skipn _ rest) as [|d after]; [discriminate|].
  destruct ((d =? STAR)%N && negb (startsWith [STAR] after)); [|discriminate].
  intros H. injection H as _ <-. cbn [capture Nat.sub nth_error].
  rewrite <- Eb. apply includes_takeWhile.
Qed.

Lemma repairItalic_id_all s : repairItalic s = Some s.
Proof.
  unfold repairItalic. rewrite replaceLoop_echo; [reflexivity| |lia].
  intros b t n caps [] E. now rewrite (rxItalic_content _ _ _ _ E).
Qed.

Lemma cleanFree_part (x : char) s :
  (forall c, notChar STAR c && notChar UNDERSCORE c && notChar LBRACKET c
             && notChar RBRACKET c && notChar BACKTICK c = true -> notChar x c = true) ->
  cleanFree s = true -> forallb (notChar x) s = true.
Proof. intros Hp. apply forallb_weaken. exact Hp. Qed.

Section CleanPlain.

Variable w : str.
Hypothesis Hw : cleanFree w = true.

Lemma clean_star : forallb (notChar STAR) w = true.
Proof. revert Hw. apply cleanFree_part. pick_conjunct. Qed.
Lemma clean_underscore : forallb (notChar UNDERSCORE) w = true.
Proof. revert Hw. apply cleanFree_part. pick_conjunct. Qed.
Lemma clean_lbracket : forallb (notChar LBRACKET) w = true.
Proof. revert Hw. apply cleanFree_part. pick_conjunct. Qed.
Lemma clean_rbracket : forallb (notChar RBRACKET) w = true.
Proof. revert Hw. apply cleanFree_part. pick_conjunct. Qed.
Lemma clean_backtick : noBacktick w = true.
Proof. revert Hw. apply cleanFree_part. pick_conjunct. Qed.

(** The steps after the italic repair leave a text without markup as it is. *)
Lemma clean_tail (k : str -> option str) :
  (c7 <- replaceTemplate (rxLeading STAR) [] w ;;
   c8 <- replaceTemplate (rxTrailing STAR) [] c7 ;;
   c9 <- replaceTemplate (rxLeading UNDERSCORE) [] c8 ;;
   c10 <- replaceTemplate (rxTrailing UNDERSCORE) [] c9 ;;
   c11 <- replaceTemplate rxOpenBracket (lit "$1") c10 ;;
   c12 <- replaceTemplate rxCloseBracket (lit "$1") c11 ;;
   k c12) = k w.
Proof.
  rewrite (replaceTemplate_free _ _ _ _ (rxLeading_free STAR) clean_star). cbn [bind].
  rewrite (replaceTemplate_free _ _ _ _ (rxTrailing_free STAR) clean_star). cbn [bind].
  rewrite (replaceTemplate_free _ _ _ _ (rxLeading_free UNDERSCORE) clean_underscore). cbn [bind].
  rewrite (replaceTemplate_free _ _ _ _ (rxTrailing_free UNDERSCORE) clean_underscore). cbn [bind].
  rewrite (replaceTemplate_free _ _ _ _ rxOpenBracket_free clean_lbracket). cbn [bind].
  rewrite (replaceTemplate_free _ _ _ _ rxCloseBracket_free clean_rbracket). cbn [bind].
  reflexivity.
Qed.

Lemma clean_extract :
  extract rxFence cleanBlockToken w = Some (w, []) /\
  extract rxInline cleanInlineToken w = Some (w, []).
Proof.
  split.
  - apply (extract_free (notChar BACKTICK)); [apply rxFence_nomatch|apply clean_backtick].
  - apply (extract_free (notChar BACKTICK)); [apply rxInline_nomatch|apply clean_backtick].
Qed.

Lemma cleanMarkdown_plain : cleanMarkdown w = Some w.
Proof.
  unfold cleanMarkdown. destruct clean_extract as [-> E2]. cbn [bind]. rewrite E2. cbn [bind].
  rewrite (replaceTemplate_free _ _ _ _ rxBoldOpen_free clean_star). cbn [bind].
  rewrite (replaceTemplate_free _ _ _ _ rxBoldClose_free clean_star). cbn [bind].
  rewrite (replaceTemplate_free _ _ _ _ rxEmptyBold_free clean_star). cbn [bind].
  rewrite repairItalic_id_all. cbn [bind].
  rewrite (clean_tail (fun c12 => Some (restoreFirst cleanBlockToken 0 []
          (restoreFirst cleanInlineToken 0 [] c12)))).
  reflexivity.
Qed.

End CleanPlain.

(** ** A star alone at the head of the text *)

Lemma replaceTemplate_headed (p : char -> bool) rx tpl c w :
  (forall b t, forallb p t = true -> rx b t = None) ->
  rx [] (c :: w) = None -> forallb p w = true ->
  replaceTemplate rx tpl (c :: w) = Some (c :: w).
Proof.
  intros Hrx H0 Hw. unfold replaceTemplate.
  rewrite replaceLoop_untouched; [reflexivity| |lia].
  intros [|x pre] suf E.
  - cbn [app] in E. subst suf. exact H0.
  - cbn [app] in E. injection E as _ ->. apply Hrx. now apply forallb_suffix in Hw.
Qed.

(** One turn of the loop at a non-empty match. *)
Lemma replaceLoop_match {St : Type} rx
  (f : St -> str -> str -> list (option str) -> str -> str * St)
  fuel st before s n caps rep st1 :
  rx before s = Some (n, caps) -> firstn n s <> [] ->
  f st (rev before) (firstn n s) caps (skipn n s) = (rep, st1) ->
  replaceLoop (S fuel) rx f st before s
  = ('(out, st2) <- replaceLoop fuel rx f st1 (rev (firstn n s) ++ before) (skipn n s) ;;
     Some (rep ++ out, st2)).
Proof.
  intros E Hm Hf. cbn [replaceLoop]. rewrite E, Hf.
  destruct (firstn n s); [contradiction|reflexivity].
Qed.

Section DanglingStar.

Variable w : str.
Hypothesis Hw : cleanFree w = true.

Let Hstar := clean_star w Hw.

Lemma star_not_next : startsWith [STAR] w = false.
Proof. apply startsWith_absent. exact Hstar. Qed.

Lemma rxBoldOpen_star : rxBoldOpen [] (STAR :: w) = None.
Proof.
  unfold rxBoldOpen.
  change (startsWith [STAR; STAR] (STAR :: w)) with ((STAR =? STAR)%N && startsWith [STAR] w).
  now rewrite star_not_next, andb_false_r.
Qed.

Lemma rxBoldClose_star : rxBoldClose [] (STAR :: w) = None.
Proof.
  unfold rxBoldClose. rewrite star_not_next.
  change ((STAR =? STAR)%N && negb false) with true. cbv iota.
  rewrite (takeWhile_all _ _ Hstar), skipn_all. reflexivity.
Qed.

Lemma rxEmptyBold_star : rxEmptyBold [] (STAR :: w) = None.
Proof.
  unfold rxEmptyBold.
  change (startsWith [STAR; STAR] (STAR :: w)) with ((STAR =? STAR)%N && startsWith [STAR] w).
  now rewrite star_not_next, andb_false_r.
Qed.

Lemma rxLeading_star :
  replaceTemplate (rxLeading STAR) [] (STAR :: w) = Some w.
Proof.
  unfold replaceTemplate.
  rewrite (replaceLoop_match _ _ _ _ _ _ 1 [] [] tt).
  - cbn [firstn skipn rev app].
    rewrite (replaceLoop_free (notChar STAR)); [reflexivity| |exact Hstar|cbn [length]; lia].
    apply rxLeading_free.
  - unfold rxLeading. now rewrite star_not_next.
  - discriminate.
  - reflexivity.
Qed.

Lemma cleanMarkdown_star : cleanMarkdown (STAR :: w) = Some w.
Proof.
  assert (Hb : forallb (notChar BACKTICK) (STAR :: w) = true).
  { cbn [forallb]. apply andb_true_intro. split; [reflexivity|exact (clean_backtick w Hw)]. }
  unfold cleanMarkdown.
  rewrite (extract_free (notChar BACKTICK) _ _ _ rxFence_nomatch Hb). cbn [bind].
  rewrite (extract_free (notChar BACKTICK) _ _ _ rxInline_nomatch Hb). cbn [bind].
  rewrite (replaceTemplate_headed _ _ _ _ _ rxBoldOpen_free rxBoldOpen_star Hstar). cbn [bind].
  rewrite (replaceTemplate_headed _ _ _ _ _ rxBoldClose_free rxBoldClose_star Hstar). cbn [bind].
  rewrite (replaceTemplate_headed _ _ _ _ _ rxEmptyBold_free rxEmptyBold_star Hstar). cbn [bind].
  rewrite repairItalic_id_all. cbn [bind].
  rewrite rxLeading_star. cbn [bind].
  rewrite (replaceTemplate_free _ _ _ _ (rxTrailing_free STAR) Hstar). cbn [bind].
  rewrite (replaceTemplate_free _ _ _ _ (rxLeading_free UNDERSCORE) (clean_underscore w Hw)). cbn [bind].
  rewrite (replaceTemplate_free _ _ _ _ (rxTrailing_free UNDERSCORE) (clean_underscore w Hw)). cbn [bind].
  rewrite (replaceTemplate_free _ _ _ _ rxOpenBracket_free (clean_lbracket w Hw)). cbn [bind].
  rewrite (replaceTemplate_free _ _ _ _ rxCloseBracket_free (clean_rbracket w Hw)). cbn [bind].
  reflexivity.
Qed.

End DanglingStar.

(** ** Running prose through the plain-text conversion *)

Lemma noLineStartsWith_split p :
  forall pre start suf, noLineStartsWith p start (pre ++ suf) = true ->
  forall b, atLineStart b = start ->
  match suf with
  | c :: _ => atLineStart (rev pre ++ b) && p c = false
  | [] => True
  end.
Proof.
  induction pre as [|x pre IH]; intros start suf H b Hb.
  - cbn [app rev] in *. destruct suf as [|c suf]; [exact I|].
    cbn [noLineStartsWith] in H. apply andb_prop in H as [H _].
    apply negb_true_iff in H. now rewrite Hb.
  - cbn [app noLineStartsWith] in H. apply andb_prop in H as [_ H].
    specialize (IH _ _ H (x :: b) eq_refl).
    cbn [rev]. now rewrite <- app_assoc.
Qed.

Lemma noLineStartsWith_weaken (p q : char -> bool) :
  (forall c, q c = true -> p c = true) ->
  forall s start, noLineStartsWith p start s = true -> noLineStartsWith q start s = true.
Proof.
  intros Hpq. induction s as [|c s IH]; intros start H; [reflexivity|].
  cbn [noLineStartsWith] in *. apply andb_prop in H as [H1 H2].
  rewrite (IH _ H2), andb_true_r.
  destruct start; [|reflexivity]. cbn [andb] in *.
  destruct (q c) eqn:E; [|reflexivity]. now rewrite (Hpq _ E) in H1.
Qed.

Lemma takeWhile_head_false (p : char -> bool) c t : p c = false -> takeWhile p (c :: t) = [].
Proof. intros H. cbn [takeWhile]. now rewrite H. Qed.

Lemma rxLineMarker_calm p many s :
  noLineStartsWith p true s = true ->
  forall pre suf, s = pre ++ suf -> rxLineMarker p many (rev pre ++ []) suf = None.
Proof.
  intros H pre suf ->. pose proof (noLineStartsWith_split p pre true suf H [] eq_refl) as Hs.
  unfold rxLineMarker. destruct (atLineStart (rev pre ++ [])); [|reflexivity].
  destruct suf as [|c suf]; [now destruct many|].
  cbn [andb] in Hs. rewrite (takeWhile_head_false _ _ _ Hs). now destruct many.
Qed.

Lemma rxNumbered_calm s :
  noLineStartsWith isDigit true s = true ->
  forall pre suf, s = pre ++ suf -> rxNumbered (rev pre ++ []) suf = None.
Proof.
  intros H pre suf ->. pose proof (noLineStartsWith_split _ pre true suf H [] eq_refl) as Hs.
  unfold rxNumbered. destruct (atLineStart (rev pre ++ [])); [|reflexivity].
  destruct suf as [|c suf]; [reflexivity|].
  cbn [andb] in Hs. now rewrite (takeWhile_head_false _ _ _ Hs).
Qed.

Lemma indexOf_none_suffix (p : str) :
  forall pre suf, indexOf p (pre ++ suf) = None -> startsWith p suf = false.
Proof.
  induction pre as [|x pre IH]; intros suf H.
  - cbn [app] in H. destruct suf as [|c suf].
    + cbn [indexOf] in H. destruct (startsWith p []); [discriminate|reflexivity].
    + cbn [indexOf] in H. destruct (startsWith p (c :: suf)); [discriminate|reflexivity].
  - cbn [app indexOf] in H. destruct (startsWith p (x :: pre ++ suf)); [discriminate|].
    destruct (indexOf p (pre ++ suf)) as [[? ?]|] eqn:E; [discriminate|].
    now apply IH.
Qed.

Lemma run_startsWith s :
  3 <= length (takeWhile (N.eqb LF) s) -> startsWith [LF; LF; LF] s = true.
Proof.
  destruct s as [|a [|b [|c s]]]; cbn [takeWhile];
    repeat match goal with
           | |- context [if (LF =? ?x)%N then _ else _] => destruct (LF =? x)%N eqn:?
           end; cbn [length]; try lia.
  intros _. cbn [startsWith].
  repeat match goal with H : (LF =? _)%N = true |- _ => rewrite H; clear H end.
  reflexivity.
Qed.

Lemma rxBlankLines_calm s :
  indexOf [LF; LF; LF] s = None ->
  forall pre suf, s = pre ++ suf -> rxBlankLines (rev pre ++ []) suf = None.
Proof.
  intros H pre suf ->. apply indexOf_none_suffix in H.
  unfold rxBlankLines. destruct (3 <=? length (takeWhile (N.eqb LF) suf)) eqn:E; [|reflexivity].
  apply Nat.leb_le, run_startsWith in E. congruence.
Qed.

Lemma replaceTemplate_untouched rx tpl s :
  (forall pre suf, s = pre ++ suf -> rx (rev pre ++ []) suf = None) ->
  replaceTemplate rx tpl s = Some s.
Proof.
  intros H. unfold replaceTemplate. rewrite replaceLoop_untouched; [reflexivity|exact H|lia].
Qed.

Lemma rxLineMarker_free b t :
  forallb (notChar STAR) t = true -> rxLineMarker (N.eqb STAR) false b t = None.
Proof.
  intros H. unfold rxLineMarker. destruct (atLineStart b); [|reflexivity].
  destruct t as [|c t]; [reflexivity|].
  pose proof (head_absent _ _ _ H) as E. rewrite N.eqb_sym in E.
  now rewrite (takeWhile_head_false _ _ _ E).
Qed.

Lemma rxFenceLang_free b t : forallb (notChar BACKTICK) t = true -> rxFenceLang b t = None.
Proof.
  intros H. unfold rxFenceLang.
  change FENCE with [BACKTICK; BACKTICK; BACKTICK].
  now rewrite startsWith_absent.
Qed.

Lemma rxBetween_free (x : char) op cl b t :
  forallb (notChar x) t = true -> rxBetween (x :: op) cl b t = None.
Proof. intros H. unfold rxBetween. now rewrite startsWith_absent. Qed.

Lemma rxLinkLazy_free b t : forallb (notChar LBRACKET) t = true -> rxLinkLazy b t = None.
Proof.
  intros H. unfold rxLinkLazy. destruct t as [|c t]; [reflexivity|].
  now rewrite (head_absent _ _ _ H).
Qed.

Section Prose.

Variable s : str.
Hypothesis Hs : prose s = true.

Lemma prose_chars :
  forallb (fun c => notChar BACKTICK c && notChar STAR c && notChar UNDERSCORE c
                    && notChar LBRACKET c) s = true.
Proof. unfold prose in Hs. apply andb_prop in Hs as [H _]. now apply andb_prop in H as [H _]. Qed.

Lemma prose_lines :
  noLineStartsWith (fun c => (HASH =? c)%N || (GT =? c)%N || isDigit c) true s = true.
Proof. unfold prose in Hs. apply andb_prop in Hs as [H _]. now apply andb_prop in H as [_ H]. Qed.

Lemma prose_runs : indexOf [LF; LF; LF] s = None.
Proof.
  unfold prose in Hs. apply andb_prop in Hs as [_ H].
  destruct (indexOf [LF; LF; LF] s); [discriminate|reflexivity].
Qed.

Lemma prose_part (x : char) :
  (forall c, notChar BACKTICK c && notChar STAR c && notChar UNDERSCORE c
             && notChar LBRACKET c = true -> notChar x c = true) ->
  forallb (notChar x) s = true.
Proof. intros Hp. generalize prose_chars. apply forallb_weaken. exact Hp. Qed.

Lemma markdownToPlainText_prose : markdownToPlainText s = Some s.
Proof.
  assert (Hb : forallb (notChar BACKTICK) s = true) by (apply prose_part; pick_conjunct).
  assert (Ha : forallb (notChar STAR) s = true) by (apply prose_part; pick_conjunct).
  assert (Hu : forallb (notChar UNDERSCORE) s = true) by (apply prose_part; pick_conjunct).
  assert (Hl : forallb (notChar LBRACKET) s = true) by (apply prose_part; pick_conjunct).
  unfold markdownToPlainText.
  rewrite (replaceTemplate_free _ _ _ _ rxFenceLang_free Hb). cbn [bind].
  rewrite (replaceTemplate_free _ _ _ _ rxInline_nomatch Hb). cbn [bind].
  rewrite (replaceTemplate_free _ _ _ _ (rxBetween_free STAR _ _) Ha). cbn [bind].
  rewrite (replaceTemplate_free _ _ _ _ (rxBetween_free STAR _ _) Ha). cbn [bind].
  rewrite (replaceTemplate_free _ _ _ _ (rxBetween_free UNDERSCORE _ _) Hu). cbn [bind].
  rewrite (replaceTemplate_free _ _ _ _ rxLinkLazy_free Hl). cbn [bind].
  rewrite (replaceTemplate_untouched (rxLineMarker (N.eqb HASH) true)). 2:{
    apply rxLineMarker_calm. generalize prose_lines. apply noLineStartsWith_weaken.
    intros c ->. reflexivity. }
  cbn [bind].
  rewrite (replaceTemplate_untouched (rxLineMarker (N.eqb GT) false)). 2:{
    apply rxLineMarker_calm. generalize prose_lines. apply noLineStartsWith_weaken.
    intros c ->. now rewrite orb_true_r. }
  cbn [bind].
  rewrite (replaceTemplate_free _ _ _ _ (fun b t H => rxLineMarker_free b t H) Ha). cbn [bind].
  rewrite (replaceTemplate_untouched rxNumbered). 2:{
    apply rxNumbered_calm. generalize prose_lines. apply noLineStartsWith_weaken.
    intros c ->. now rewrite orb_true_r. }
  cbn [bind].
  apply replaceTemplate_untouched. apply rxBlankLines_calm. exact prose_runs.
Qed.

End Prose.

(** *** The input sanitizer *)

(** ** [trim] *)

Lemma dropWhile_spec p s :
  exists ws, s = ws ++ dropWhile p s /\ forallb p ws = true.
Proof.
  induction s as [|c s (ws & E & H)]; [now exists []|].
  cbn [dropWhile]. destruct (p c) eqn:Ec.
  - exists (c :: ws). cbn [app forallb]. rewrite Ec, H. split; [now f_equal|reflexivity].
  - now exists [].
Qed.

Lemma dropWhile_head p s :
  match dropWhile p s with [] => True | c :: _ => p c = false end.
Proof.
  induction s as [|c s IH]; [exact I|]. cbn [dropWhile].
  destruct (p c) eqn:E; [exact IH|exact E].
Qed.

Lemma dropWhile_id p s :
  match s with [] => True | c :: _ => p c = false end -> dropWhile p s = s.
Proof. destruct s as [|c s]; [reflexivity|]. intros H. cbn [dropWhile]. now rewrite H. Qed.

Lemma dropWhile_idem p s : dropWhile p (dropWhile p s) = dropWhile p s.
Proof. apply dropWhile_id, dropWhile_head. Qed.

Lemma trim_idem s : trim (trim s) = trim s.
Proof.
  unfold trim, trimEnd, trimStart.
  set (a := dropWhile isWhiteSpace s). set (b := dropWhile isWhiteSpace (rev a)).
  assert (E : dropWhile isWhiteSpace (rev b) = rev b).
  { apply dropWhile_id. destruct (dropWhile_spec isWhiteSpace (rev a)) as (ws & Ea & _).
    fold b in Ea. apply (f_equal (@rev char)) in Ea.
    rewrite rev_involutive, rev_app_distr in Ea.
    destruct (rev b) as [|c r]; [exact I|].
    pose proof (dropWhile_head isWhiteSpace s) as H. fold a in H. rewrite Ea in H. exact H. }
  rewrite E, rev_involutive. unfold b. now rewrite dropWhile_idem.
Qed.

Lemma forallb_dropWhile (q p : char -> bool) s :
  forallb q s = true -> forallb q (dropWhile p s) = true.
Proof.
  induction s as [|c s IH]; [reflexivity|]. intros H. cbn [dropWhile].
  destruct (p c); [|exact H]. cbn [forallb] in H. apply andb_prop in H as [_ H]. auto.
Qed.

Lemma forallb_rev (q : char -> bool) s : forallb q (rev s) = forallb q s.
Proof.
  induction s as [|c s IH]; [reflexivity|]. cbn [rev forallb].
  rewrite forallb_app, IH. cbn [forallb]. rewrite andb_true_r. apply andb_comm.
Qed.

Lemma forallb_trim (q : char -> bool) s : forallb q s = true -> forallb q (trim s) = true.
Proof.
  intros H. unfold trim, trimEnd, trimStart. rewrite forallb_rev.
  apply forallb_dropWhile. rewrite forallb_rev. now apply forallb_dropWhile.
Qed.

Lemma dropWhile_app p a b :
  dropWhile p a <> [] -> dropWhile p (a ++ b) = dropWhile p a ++ b.
Proof.
  induction a as [|c a IH]; [contradiction|]. cbn [dropWhile app].
  destruct (p c); [exact IH|reflexivity].
Qed.

Lemma dropWhile_app_blank p a b :
  forallb p a = true -> dropWhile p (a ++ b) = dropWhile p b.
Proof.
  induction a as [|c a IH]; [reflexivity|]. cbn [forallb app dropWhile].
  intros H. apply andb_prop in H as [-> H]. auto.
Qed.

(** A text that [trimEnd] leaves alone keeps its end, whatever follows. *)
Lemma trimEnd_app a v :
  dropWhile isWhiteSpace (rev a) = rev a -> trimEnd (a ++ v) = a ++ trimEnd v.
Proof.
  intros Ha. unfold trimEnd. rewrite rev_app_distr.
  destruct (dropWhile_spec isWhiteSpace (rev v)) as (ws & E & Hws).
  destruct (dropWhile isWhiteSpace (rev v)) as [|x r] eqn:Ed.
  - rewrite app_nil_r in E. rewrite E, dropWhile_app_blank by assumption.
    rewrite Ha, rev_involutive. cbn [rev]. now rewrite app_nil_r.
  - rewrite dropWhile_app by (rewrite Ed; discriminate). rewrite Ed.
    now rewrite rev_app_distr, rev_involutive.
Qed.

(** ** Deleting the matches *)

Lemma replaceLoop_delete {St : Type} (q : char -> bool) rx
  (f : St -> str -> str -> list (option str) -> str -> str * St) :
  (forall st b m caps a, fst (f st b m caps a) = []) ->
  forall fuel st before s out st',
  replaceLoop fuel rx f st before s = Some (out, st') ->
  forallb q s = true -> forallb q out = true.
Proof.
  intros Hf. induction fuel as [|fuel IH]; intros st before s out st' E Hs; [discriminate|].
  cbn [replaceLoop] in E. destruct (rx before s) as [[n caps]|].
  - pose proof (Hf st (rev before) (firstn n s) caps (skipn n s)) as Hrep.
    destruct (f st (rev before) (firstn n s) caps (skipn n s)) as [rep st1].
    cbn [fst] in Hrep. subst rep.
    destruct (firstn n s) as [|m ms].
    + destruct s as [|c s'].
      * now injection E as <- _.
      * destruct (replaceLoop fuel rx f st1 (c :: before) s') as [[o st2]|] eqn:E1;
          [|discriminate].
        cbn [bind app] in E. injection E as <- _.
        cbn [forallb] in *. apply andb_prop in Hs as [-> Hs]. eauto.
    + destruct (replaceLoop fuel rx f st1 _ (skipn n s)) as [[o st2]|] eqn:E1;
        [|discriminate].
      cbn [bind app] in E. injection E as <- _.
      apply (IH _ _ _ _ _ E1). now apply forallb_skipn.
  - destruct s as [|c s'].
    + now injection E as <- _.
    + destruct (replaceLoop fuel rx f st (c :: before) s') as [[o st2]|] eqn:E1;
        [|discriminate].
      cbn [bind] in E. injection E as <- _.
      cbn [forallb] in *. apply andb_prop in Hs as [-> Hs]. eauto.
Qed.

Lemma replaceTemplate_delete (q : char -> bool) rx s out :
  replaceTemplate rx [] s = Some out -> forallb q s = true -> forallb q out = true.
Proof.
  unfold replaceTemplate. intros E.
  destruct (replaceLoop _ _ _ _ _ _) as [[o st]|] eqn:E1; [|discriminate].
  injection E as <-. revert E1. apply replaceLoop_delete. reflexivity.
Qed.

(** Removing a class of code units is a filter. *)
Lemma replaceLoop_class (p : char -> bool) :
  forall s fuel before, length s < fuel ->
  replaceLoop fuel (Security.rxClass p)
    (fun (_ : unit) before matched caps after =>
       (getSubstitution matched before after caps [], tt)) tt before s
  = Some (filter (fun c => negb (p c)) s, tt).
Proof.
  induction s as [|c s IH]; intros fuel before Hl.
  - destruct fuel; [cbn [length] in Hl; lia|reflexivity].
  - destruct fuel as [|fuel]; [lia|]. cbn [length] in Hl.
    cbn [replaceLoop Security.rxClass filter]. destruct (p c).
    + cbn [firstn skipn getSubstitution negb]. rewrite IH by lia. reflexivity.
    + rewrite IH by lia. reflexivity.
Qed.

Lemma replaceTemplate_class p s :
  replaceTemplate (Security.rxClass p) [] s = Some (filter (fun c => negb (p c)) s).
Proof. unfold replaceTemplate. rewrite replaceLoop_class by lia. reflexivity. Qed.

Lemma forallb_filter_self {A : Type} (q : A -> bool) l : forallb q (filter q l) = true.
Proof.
  induction l as [|x l IH]; [reflexivity|]. cbn [filter].
  destruct (q x) eqn:E; [|exact IH]. cbn [forallb]. now rewrite E.
Qed.

Lemma filter_all {A : Type} (q : A -> bool) l : forallb q l = true -> filter q l = l.
Proof.
  induction l as [|x l IH]; [reflexivity|]. cbn [forallb filter].
  intros H. apply andb_prop in H as [-> H]. now rewrite IH.
Qed.

(** ** A pattern with a colon *)

Lemma canonicalize_colon c : (Security.canonicalize COLON =? Security.canonicalize c)%N = true -> c = COLON.
Proof.
  unfold Security.canonicalize, COLON.
  change ((97 <=? 58)%N && (58 <=? 122)%N) with false. cbv iota.
  destruct ((97 <=? c)%N && (c <=? 122)%N) eqn:E; intros H; apply N.eqb_eq in H.
  - apply andb_prop in E as [E1 E2]. apply N.leb_le in E1, E2. lia.
  - now symmetry.
Qed.

Lemma startsWithCI_colon p1 p2 t :
  Security.startsWithCI (p1 ++ COLON :: p2) t = true -> forallb (notChar COLON) t = false.
Proof.
  revert t. induction p1 as [|a p1 IH]; intros [|b t] H; try discriminate.
  - cbn [app Security.startsWithCI] in H. apply andb_prop in H as [H _].
    apply canonicalize_colon in H. subst b. reflexivity.
  - cbn [app Security.startsWithCI] in H. apply andb_prop in H as [_ H].
    cbn [forallb]. rewrite (IH _ H). apply andb_false_r.
Qed.

Lemma rxLiteralCI_free p1 p2 b t :
  forallb (notChar COLON) t = true -> Security.rxLiteralCI (p1 ++ COLON :: p2) b t = None.
Proof.
  intros H. unfold Security.rxLiteralCI.
  destruct (Security.startsWithCI _ t) eqn:E; [|reflexivity].
  apply startsWithCI_colon in E. congruence.
Qed.

Lemma rx_javascript_free b t :
  forallb (notChar COLON) t = true -> Security.rxLiteralCI (lit "javascript:") b t = None.
Proof. exact (rxLiteralCI_free (lit "javascript") [] b t). Qed.

Lemma rx_data_free b t :
  forallb (notChar COLON) t = true -> Security.rxLiteralCI (lit "data:") b t = None.
Proof. exact (rxLiteralCI_free (lit "data") [] b t). Qed.

Lemma ordinary_noAngle s : ordinary s = true -> noAngle s = true.
Proof. apply forallb_weaken. intros c H. now apply andb_prop in H as [H _]. Qed.

Lemma ordinary_noColon s : ordinary s = true -> forallb (notChar COLON) s = true.
Proof. apply forallb_weaken. intros c H. now apply andb_prop in H as [_ H]. Qed.

Lemma sanitizeInput_total text : exists r, Security.sanitizeInput text = Some r.
Proof.
  unfold Security.sanitizeInput.
  destruct (replaceTemplate_total (Security.rxClass Security.isAngle) [] text) as [t1 ->].
  cbn [bind].
  destruct (replaceTemplate_total (Security.rxLiteralCI (lit "javascript:")) [] t1) as [t2 ->].
  cbn [bind].
  destruct (replaceTemplate_total (Security.rxLiteralCI (lit "data:")) [] t2) as [t3 ->].
  cbn [bind]. eauto.
Qed.

Lemma sanitizeInput_clean text r :
  Security.sanitizeInput text = Some r -> noAngle r = true /\ trim r = r.
Proof.
  unfold Security.sanitizeInput. rewrite replaceTemplate_class. cbn [bind].
  destruct (replaceTemplate _ [] (filter _ text)) as [t2|] eqn:E2; [|discriminate].
  cbn [bind].
  destruct (replaceTemplate _ [] t2) as [t3|] eqn:E3; [|discriminate].
  cbn [bind]. intros H. injection H as <-. split; [|apply trim_idem].
  apply forallb_trim.
  apply (replaceTemplate_delete _ _ _ _ E3).
  apply (replaceTemplate_delete _ _ _ _ E2).
  apply forallb_filter_self.
Qed.

Lemma sanitizeInput_ordinary text :
  ordinary text = true -> Security.sanitizeInput text = Some (trim text).
Proof.
  intros H. unfold Security.sanitizeInput. rewrite replaceTemplate_class.
  rewrite (filter_all _ _ (ordinary_noAngle _ H)). cbn [bind].
  rewrite (replaceTemplate_free _ _ _ _ rx_javascript_free (ordinary_noColon _ H)). cbn [bind].
  rewrite (replaceTemplate_free _ _ _ _ rx_data_free (ordinary_noColon _ H)). reflexivity.
Qed.

(** One turn of the loop where the pattern does not match. *)
Lemma replaceLoop_pass {St : Type} rx
  (f : St -> str -> str -> list (option str) -> str -> str * St)
  fuel st before c s' :
  rx before (c :: s') = None ->
  replaceLoop (S fuel) rx f st before (c :: s')
  = ('(out, st') <- replaceLoop fuel rx f st (c :: before) s' ;; Some (c :: out, st')).
Proof. intros E. cbn [replaceLoop]. now rewrite E. Qed.

Lemma javascript_survives v :
  ordinary v = true ->
  replaceTemplate (Security.rxLiteralCI (lit "javascript:")) []
    (lit "javajavascript:script:" ++ v) = Some (lit "javascript:" ++ v).
Proof.
  intros Hv. unfold replaceTemplate.
  set (L := lit "javajavascript:script:"). cbv in L. subst L. cbn [app length].
  rewrite !replaceLoop_pass by reflexivity.
  rewrite (replaceLoop_match _ _ _ _ _ _ 11 [] [] tt); [|reflexivity|discriminate|reflexivity].
  cbn [firstn skipn rev app].
  rewrite !replaceLoop_pass by reflexivity.
  rewrite (replaceLoop_free (notChar COLON));
    [reflexivity|exact rx_javascript_free|exact (ordinary_noColon _ Hv)|lia].
Qed.

Lemma data_absent v :
  ordinary v = true ->
  replaceTemplate (Security.rxLiteralCI (lit "data:")) []
    (lit "javascript:" ++ v) = Some (lit "javascript:" ++ v).
Proof.
  intros Hv. unfold replaceTemplate.
  set (L := lit "javascript:"). cbv in L. subst L. cbn [app length].
  rewrite !replaceLoop_pass by reflexivity.
  rewrite (replaceLoop_free (notChar COLON));
    [reflexivity|exact rx_data_free|exact (ordinary_noColon _ Hv)|lia].
Qed.

Lemma sanitizeInput_nested v :
  ordinary v = true ->
  Security.sanitizeInput (lit "javajavascript:script:" ++ v)
  = Some (lit "javascript:" ++ trimEnd v).
Proof.
  intros Hv. unfold Security.sanitizeInput. rewrite replaceTemplate_class.
  rewrite filter_all.
  2:{ fold (noAngle (lit "javajavascript:script:" ++ v)). unfold noAngle.
      rewrite forallb_app. apply andb_true_intro. split; [reflexivity|].
      exact (ordinary_noAngle _ Hv). }
  cbn [bind]. rewrite (javascript_survives v Hv). cbn [bind].
  rewrite (data_absent v Hv). cbn [bind]. f_equal.
  unfold trim.
  assert (E : trimStart (lit "javascript:" ++ v) = lit "javascript:" ++ v) by reflexivity.
  rewrite E. now apply trimEnd_app.
Qed.

(** *** A fenced block through the cleaner *)

Lemma firstn_app_exact {A : Type} (a b : list A) n : n = length a -> firstn n (a ++ b) = a.
Proof. intros ->. now rewrite firstn_app, firstn_all, Nat.sub_diag, firstn_0, app_nil_r. Qed.

Lemma skipn_app_exact {A : Type} (a b : list A) n : n = length a -> skipn n (a ++ b) = b.
Proof. intros ->. now rewrite skipn_app, skipn_all, Nat.sub_diag. Qed.

Lemma rxFence_at b body post :
  noBacktick body = true ->
  rxFence b (FENCE ++ body ++ FENCE ++ post) = Some (3 + length body + 3, []).
Proof.
  intros H. unfold rxFence. rewrite startsWith_app.
  change (skipn 3 (FENCE ++ body ++ FENCE ++ post)) with (body ++ FENCE ++ post).
  now rewrite (indexOf_fence body post H).
Qed.

(** The extraction of one fenced block between texts without backtick. *)
Lemma extract_fenced token pre body post :
  noBacktick pre = true -> noBacktick body = true -> noBacktick post = true ->
  extract rxFence token (pre ++ FENCE ++ body ++ FENCE ++ post)
  = Some (pre ++ token 0 ++ post, [FENCE ++ body ++ FENCE]).
Proof.
  intros Hpre Hbody Hpost. unfold extract.
  assert (Ef : firstn (3 + length body + 3) (FENCE ++ body ++ FENCE ++ post)
               = FENCE ++ body ++ FENCE).
  { replace (FENCE ++ body ++ FENCE ++ post) with ((FENCE ++ body ++ FENCE) ++ post)
      by now rewrite <- !app_assoc.
    apply firstn_app_exact. rewrite !length_app. simpl. lia. }
  assert (Es : skipn (3 + length body + 3) (FENCE ++ body ++ FENCE ++ post) = post).
  { replace (FENCE ++ body ++ FENCE ++ post) with ((FENCE ++ body ++ FENCE) ++ post)
      by now rewrite <- !app_assoc.
    apply skipn_app_exact. rewrite !length_app. simpl. lia. }
  rewrite (replaceLoop_fuel _ _ _
             (length pre + S (length (FENCE ++ body ++ FENCE ++ post))))
    by (rewrite ?length_app; lia).
  rewrite (replaceLoop_skip (notChar BACKTICK)) by (exact rxFence_headed || exact Hpre).
  rewrite (replaceLoop_match _ _ _ _ _ _ (3 + length body + 3) []
             (token 0) [FENCE ++ body ++ FENCE]).
  - rewrite Es.
    rewrite (replaceLoop_free _ rxFence _ rxFence_nomatch)
      by (exact Hpost || (rewrite !length_app; simpl; lia)).
    reflexivity.
  - now apply rxFence_at.
  - rewrite Ef. discriminate.
  - rewrite Ef. reflexivity.
Qed.

Lemma rxLeading_headed x b c t : notChar x c = true -> rxLeading x b (c :: t) = None.
Proof.
  intros H. unfold rxLeading. unfold notChar in H. apply negb_true_iff in H.
  now rewrite H, andb_false_r.
Qed.

Lemma rxTrailing_headed x b c t : notChar x c = true -> rxTrailing x b (c :: t) = None.
Proof.
  intros H. unfold rxTrailing. unfold notChar in H. apply negb_true_iff in H.
  now rewrite H, andb_false_r.
Qed.

Section FencedBlock.

Variables pre body post : str.
Hypothesis Hpre : cleanFree pre = true.
Hypothesis Hbody : noBacktick body = true.
Hypothesis Hpost : cleanFree post = true.

Let held : str := pre ++ cleanBlockToken 0 ++ post.

Lemma held_free (x : char) :
  forallb (notChar x) (cleanBlockToken 0) = true ->
  (forall w, cleanFree w = true -> forallb (notChar x) w = true) ->
  forallb (notChar x) held = true.
Proof.
  intros Ht Hw. unfold held. rewrite !forallb_app, Ht, (Hw _ Hpre), (Hw _ Hpost). reflexivity.
Qed.

Lemma held_star : forallb (notChar STAR) held = true.
Proof. apply held_free; [reflexivity|exact clean_star]. Qed.

Lemma held_lbracket : forallb (notChar LBRACKET) held = true.
Proof. apply held_free; [reflexivity|exact clean_lbracket]. Qed.

Lemma held_rbracket : forallb (notChar RBRACKET) held = true.
Proof. apply held_free; [reflexivity|exact clean_rbracket]. Qed.

Lemma held_backtick : forallb (notChar BACKTICK) held = true.
Proof. apply held_free; [reflexivity|exact clean_backtick]. Qed.

(** The underscores of the token are at neither edge of a line on their
    own, so the two underscore steps pass over it. *)
Lemma held_leading : replaceTemplate (rxLeading UNDERSCORE) [] held = Some held.
Proof.
  unfold replaceTemplate, held.
  rewrite (replaceLoop_fuel _ _ _ (length pre + S (length (cleanBlockToken 0 ++ post))))
    by (rewrite ?length_app; lia).
  rewrite (replaceLoop_skip (notChar UNDERSCORE))
    by (apply rxLeading_headed || exact (clean_underscore _ Hpre)).
  set (T := cleanBlockToken 0). cbv in T. subst T. cbn [app length].
  rewrite !replaceLoop_pass
    by (unfold rxLeading; simpl; rewrite ?andb_false_r; reflexivity).
  rewrite (replaceLoop_free (notChar UNDERSCORE));
    [reflexivity|apply rxLeading_free|exact (clean_underscore _ Hpost)|lia].
Qed.

Lemma held_trailing : replaceTemplate (rxTrailing UNDERSCORE) [] held = Some held.
Proof.
  unfold replaceTemplate, held.
  rewrite (replaceLoop_fuel _ _ _ (length pre + S (length (cleanBlockToken 0 ++ post))))
    by (rewrite ?length_app; lia).
  rewrite (replaceLoop_skip (notChar UNDERSCORE))
    by (apply rxTrailing_headed || exact (clean_underscore _ Hpre)).
  set (T := cleanBlockToken 0). cbv in T. subst T. cbn [app length].
  rewrite !replaceLoop_pass
    by (unfold rxTrailing; simpl; rewrite ?andb_false_r; reflexivity).
  rewrite (replaceLoop_free (notChar UNDERSCORE));
    [reflexivity|apply rxTrailing_free|exact (clean_underscore _ Hpost)|lia].
Qed.

Lemma held_restored block :
  replaceFirst (cleanBlockToken 0) block held
  = pre ++ getSubstitution (cleanBlockToken 0) pre post [] block ++ post.
Proof.
  unfold replaceFirst, held.
  change (cleanBlockToken 0) with (UNDERSCORE :: skipn 1 (cleanBlockToken 0)).
  now rewrite (indexOf_past UNDERSCORE _ pre post (clean_underscore _ Hpre)).
Qed.

Lemma cleanMarkdown_fenced :
  cleanMarkdown (pre ++ FENCE ++ body ++ FENCE ++ post)
  = Some (pre ++ getSubstitution (cleanBlockToken 0) pre post [] (FENCE ++ body ++ FENCE)
              ++ post).
Proof.
  unfold cleanMarkdown.
  rewrite (extract_fenced cleanBlockToken pre body post
             (clean_backtick _ Hpre) Hbody (clean_backtick _ Hpost)).
  cbn [bind]. fold held.
  rewrite (extract_free (notChar BACKTICK) _ _ _ rxInline_nomatch held_backtick). cbn [bind].
  rewrite (replaceTemplate_free _ _ _ _ rxBoldOpen_free held_star). cbn [bind].
  rewrite (replaceTemplate_free _ _ _ _ rxBoldClose_free held_star). cbn [bind].
  rewrite (replaceTemplate_free _ _ _ _ rxEmptyBold_free held_star). cbn [bind].
  rewrite repairItalic_id_all. cbn [bind].
  rewrite (replaceTemplate_free _ _ _ _ (rxLeading_free STAR) held_star). cbn [bind].
  rewrite (replaceTemplate_free _ _ _ _ (rxTrailing_free STAR) held_star). cbn [bind].
  rewrite held_leading. cbn [bind].
  rewrite held_trailing. cbn [bind].
  rewrite (replaceTemplate_free _ _ _ _ rxOpenBracket_free held_lbracket). cbn [bind].
  rewrite (replaceTemplate_free _ _ _ _ rxCloseBracket_free held_rbracket). cbn [bind].
  cbn [restoreFirst]. now rewrite held_restored.
Qed.

End FencedBlock.

(** ** Further properties of the splitter *)

(** What [splitLongMessage] does to a long text without code. *)
Lemma splitLongMessage_plain fuel L text :
  2 <= L -> L < length text -> length text <= fuel -> noBacktick text = true ->
  exists chunks,
    paragraphChunks fuel L text = Some chunks /\
    splitLongMessage fuel L text
    = Some (match chunks with [] => [text] | _ :: _ => chunks end).
Proof.
  intros HL Hl Hf Hb.
  destruct (paragraphChunks_total fuel L HL text Hf) as [chunks Ec].
  exists chunks. split; [exact Ec|].
  apply (splitLongMessage_eq fuel L text text [] [] chunks chunks Hl).
  - now apply protect_plain.
  - exact Ec.
  - apply mapM_restore_nil.
Qed.

Lemma content_nonempty chunks text :
  nonWhite (concat chunks) = nonWhite text -> blank text = false -> chunks <> [].
Proof.
  intros H Hb ->. apply blank_content in Hb. apply Hb. now rewrite <- H.
Qed.

(** X1.  The line-based splitter [forceSplit] returns for every text and
    every budget of at least one code unit, and none of its chunks is
    longer than the budget. *)
Theorem forceSplit_within_budget fuel maxLength text :
  1 <= maxLength -> length text <= fuel ->
  exists chunks,
    forceSplit fuel maxLength text = Some chunks /\
    Forall (fun chunk => length chunk <= maxLength) chunks.
Proof.
  intros HL Hf. destruct (forceSplit_total fuel maxLength HL text Hf) as [chunks E].
  exists chunks. split; [exact E|]. exact (forceSplit_within fuel maxLength text chunks E).
Qed.

(** X1, at two lines and a budget of five. *)
Lemma forceSplit_within_budget_witness :
  let text := lit "satu dua" ++ [LF] ++ lit "tigaempat" in
  1 <= 5 /\ length text <= 20 /\
  exists chunks,
    forceSplit 20 5 text = Some chunks /\
    Forall (fun chunk => length chunk <= 5) chunks.
Proof.
  cbv zeta.
  assert (H1 : 1 <= 5) by (apply Nat.leb_le; reflexivity).
  assert (H2 : length (lit "satu dua" ++ [LF] ++ lit "tigaempat") <= 20)
    by (apply Nat.leb_le; reflexivity).
  split; [exact H1|]. split; [exact H2|].
  exact (forceSplit_within_budget 20 5 _ H1 H2).
Defined.

(** X2.  [forceSplit] keeps every code unit that is not white space, in
    order: it only drops white space where it cuts. *)
Theorem forceSplit_keeps_content fuel maxLength text chunks :
  forceSplit fuel maxLength text = Some chunks ->
  nonWhite (concat chunks) = nonWhite text.
Proof. apply forceSplit_content. Qed.

(** X2, at two lines and a budget of five. *)
Lemma forceSplit_keeps_content_witness :
  let text := lit "satu dua" ++ [LF] ++ lit "tigaempat" in
  let chunks := [lit "satu"; lit "dua"; lit "tigae"; lit "mpat"] in
  forceSplit 20 5 text = Some chunks /\ nonWhite (concat chunks) = nonWhite text.
Proof.
  cbv zeta.
  assert (H : forceSplit 20 5 (lit "satu dua" ++ [LF] ++ lit "tigaempat")
              = Some [lit "satu"; lit "dua"; lit "tigae"; lit "mpat"]) by reflexivity.
  split; [exact H|]. exact (forceSplit_keeps_content 20 5 _ _ H).
Defined.

(** X3.  The word tier [splitSentence] returns for a budget of at least
    two, and each of its pieces has at most three fifths of the budget. *)
Theorem splitSentence_three_fifths fuel maxLength sentence :
  2 <= maxLength -> (Z.of_nat maxLength < 2 ^ 32)%Z -> length sentence <= fuel ->
  exists pieces,
    splitSentence fuel maxLength sentence = Some pieces /\
    Forall (fun piece => 5 * length piece <= 3 * maxLength) pieces.
Proof.
  intros HL Hm Hf. destruct (splitSentence_total fuel maxLength HL sentence Hf) as [pieces E].
  exists pieces. split; [exact E|].
  apply splitSentence_tight in E. revert E. apply Forall_impl.
  intros piece. now apply thr_c06_exact.
Qed.

(** X3, at four words and a budget of ten. *)
Lemma splitSentence_three_fifths_witness :
  2 <= 10 /\ (Z.of_nat 10 < 2 ^ 32)%Z /\ length (lit "satu dua tiga empat") <= 20 /\
  exists pieces,
    splitSentence 20 10 (lit "satu dua tiga empat") = Some pieces /\
    Forall (fun piece => 5 * length piece <= 3 * 10) pieces.
Proof.
  assert (H1 : 2 <= 10) by (apply Nat.leb_le; reflexivity).
  assert (H2 : (Z.of_nat 10 < 2 ^ 32)%Z) by reflexivity.
  assert (H3 : length (lit "satu dua tiga empat") <= 20) by (apply Nat.leb_le; reflexivity).
  split; [exact H1|]. split; [exact H2|]. split; [exact H3|].
  exact (splitSentence_three_fifths 20 10 _ H1 H2 H3).
Defined.

(** X4.  The sentence tier [splitParagraph] returns for a budget of at
    least two, and each of its pieces has at most seven tenths of the
    budget. *)
Theorem splitParagraph_seven_tenths fuel maxLength paragraph :
  2 <= maxLength -> (Z.of_nat maxLength < 2 ^ 32)%Z -> length paragraph <= fuel ->
  exists pieces,
    splitParagraph fuel maxLength paragraph = Some pieces /\
    Forall (fun piece => 10 * length piece <= 7 * maxLength) pieces.
Proof.
  intros HL Hm Hf. destruct (splitParagraph_total fuel maxLength HL paragraph Hf) as [pieces E].
  exists pieces. split; [exact E|].
  apply splitParagraph_tight in E. revert E. apply Forall_impl.
  intros piece. now apply thr_c07_exact.
Qed.

(** X4, at two sentences and a budget of twenty. *)
Lemma splitParagraph_seven_tenths_witness :
  let paragraph := lit "Satu dua tiga. Empat lima enam!" in
  2 <= 20 /\ (Z.of_nat 20 < 2 ^ 32)%Z /\ length paragraph <= 50 /\
  exists pieces,
    splitParagraph 50 20 paragraph = Some pieces /\
    Forall (fun piece => 10 * length piece <= 7 * 20) pieces.
Proof.
  cbv zeta.
  assert (H1 : 2 <= 20) by (apply Nat.leb_le; reflexivity).
  assert (H2 : (Z.of_nat 20 < 2 ^ 32)%Z) by reflexivity.
  assert (H3 : length (lit "Satu dua tiga. Empat lima enam!") <= 50)
    by (apply Nat.leb_le; reflexivity).
  split; [exact H1|]. split; [exact H2|]. split; [exact H3|].
  exact (splitParagraph_seven_tenths 50 20 _ H1 H2 H3).
Defined.

(** X5.  For a text without backtick that is longer than the budget,
    [splitLongMessage] returns, and each chunk has at most four fifths of
    the budget, unless the result is the whole text alone. *)
Theorem splitLongMessage_four_fifths fuel maxLength text :
  2 <= maxLength -> (Z.of_nat maxLength < 2 ^ 32)%Z ->
  maxLength < length text -> length text <= fuel -> noBacktick text = true ->
  exists out,
    splitLongMessage fuel maxLength text = Some out /\
    (Forall (fun chunk => 5 * length chunk <= 4 * maxLength) out \/ out = [text]).
Proof.
  intros HL Hm Hl Hf Hb.
  destruct (splitLongMessage_plain fuel maxLength text HL Hl Hf Hb) as (chunks & Ec & ->).
  eexists. split; [reflexivity|].
  destruct chunks as [|c cs]; [now right|left].
  apply paragraphChunks_tight in Ec. revert Ec. apply Forall_impl.
  intros chunk. now apply thr_c08_exact.
Qed.

(** X5, at two sentences and a budget of twenty. *)
Lemma splitLongMessage_four_fifths_witness :
  let text := lit "Satu dua tiga. Empat lima enam!" in
  2 <= 20 /\ (Z.of_nat 20 < 2 ^ 32)%Z /\ 20 < length text /\ length text <= 50 /\
  noBacktick text = true /\
  exists out,
    splitLongMessage 50 20 text = Some out /\
    (Forall (fun chunk => 5 * length chunk <= 4 * 20) out \/ out = [text]).
Proof.
  cbv zeta.
  assert (H1 : 2 <= 20) by (apply Nat.leb_le; reflexivity).
  assert (H2 : (Z.of_nat 20 < 2 ^ 32)%Z) by reflexivity.
  assert (H3 : 20 < length (lit "Satu dua tiga. Empat lima enam!"))
    by (apply Nat.ltb_lt; reflexivity).
  assert (H4 : length (lit "Satu dua tiga. Empat lima enam!") <= 50)
    by (apply Nat.leb_le; reflexivity).
  split; [exact H1|]. split; [exact H2|]. split; [exact H3|]. split; [exact H4|].
  split; [reflexivity|].
  exact (splitLongMessage_four_fifths 50 20 _ H1 H2 H3 H4 eq_refl).
Defined.

(** X6.  With a budget of at least two, no chunk that [splitLongMessage]
    returns for a non-empty text without backtick is empty. *)
Theorem chunks_never_empty fuel maxLength text out :
  2 <= maxLength -> text <> [] -> noBacktick text = true ->
  splitLongMessage fuel maxLength text = Some out ->
  Forall (fun chunk => chunk <> []) out.
Proof.
  intros HL Ht Hb H. destruct (Nat.le_gt_cases (length text) maxLength) as [Hl|Hl].
  - rewrite (splitLongMessage_short fuel maxLength text Hl) in H. injection H as <-.
    constructor; [exact Ht|constructor].
  - destruct (splitLongMessage_long _ _ _ _ Hl H)
      as (t & cb & ib & chunks & restored & Ep & Ec & Hw & Em & ->).
    rewrite (protect_plain text Hb) in Ep. injection Ep as <- <- <-.
    rewrite mapM_restore_nil in Em. injection Em as <-.
    destruct chunks as [|c cs]; [constructor; [exact Ht|constructor]|].
    exact (paragraphChunks_solid fuel maxLength HL text _ Ec).
Qed.

(** X6, at two sentences and a budget of twenty. *)
Lemma chunks_never_empty_witness :
  let text := lit "Satu dua tiga. Empat lima enam!" in
  let out := [lit "Satu dua tiga."; lit "Empat lima"; lit "enam!"] in
  2 <= 20 /\ text <> [] /\ noBacktick text = true /\
  splitLongMessage 50 20 text = Some out /\
  Forall (fun chunk => chunk <> []) out.
Proof.
  cbv zeta.
  assert (H1 : 2 <= 20) by (apply Nat.leb_le; reflexivity).
  assert (H2 : lit "Satu dua tiga. Empat lima enam!" <> []) by discriminate.
  split; [exact H1|]. split; [exact H2|]. split; [reflexivity|]. split; [reflexivity|].
  exact (chunks_never_empty 50 20 _ _ H1 H2 eq_refl eq_refl).
Defined.

(** X7.  With a budget of one, [splitLongMessage] never returns for a
    text without backtick that is longer than one code unit and not
    blank: the hard cut of the word tier cuts zero code units at a time. *)
Theorem budget_one_diverges text :
  noBacktick text = true -> blank text = false -> 1 < length text ->
  forall fuel, splitLongMessage fuel 1 text = None.
Proof.
  intros Hb Hn Hl fuel. unfold splitLongMessage.
  destruct (Nat.leb_spec (length text) 1); [lia|].
  rewrite (protect_plain text Hb). cbn [bind].
  rewrite (paragraphChunks_one fuel text (blank_content text Hn)). reflexivity.
Qed.

(** X7, at two letters. *)
Lemma budget_one_diverges_witness :
  noBacktick (lit "ab") = true /\ blank (lit "ab") = false /\ 1 < length (lit "ab") /\
  forall fuel, splitLongMessage fuel 1 (lit "ab") = None.
Proof.
  assert (H : 1 < length (lit "ab")) by (apply Nat.ltb_lt; reflexivity).
  split; [reflexivity|]. split; [reflexivity|]. split; [exact H|].
  exact (budget_one_diverges (lit "ab") eq_refl eq_refl H).
Defined.

(** X8.  The texts [sendLongMessage] builds for delivery from a text
    without backtick that is not blank, before any repair of the markup:
    there is at least one, and each, continuation marks included, has at
    most 2000 code units. *)
Theorem sendLongMessage_texts_within_budget fuel text :
  noBacktick text = true -> blank text = false -> length text <= fuel ->
  exists texts,
    sendLongMessage_texts fuel text = Some texts /\
    texts <> [] /\ Forall (fun t => length t <= 2000) texts.
Proof.
  intros Hb Hn Hf. unfold sendLongMessage_texts.
  destruct (Nat.leb_spec (length text) 2000) as [Hl|Hl].
  - exists [text]. split; [reflexivity|]. split; [discriminate|].
    constructor; [exact Hl|constructor].
  - assert (HL : 2 <= 2000) by (apply Nat.leb_le; reflexivity).
    destruct (splitLongMessage_plain fuel 2000 text HL Hl Hf Hb) as (chunks & Ec & ->).
    cbn [bind].
    pose proof (content_nonempty _ _ (paragraphChunks_content fuel 2000 text chunks Ec) Hn)
      as Hne.
    destruct chunks as [|c cs]; [contradiction|].
    eexists. split; [reflexivity|]. split.
    + cbn [length chunkTexts]. discriminate.
    + apply paragraphChunks_tight in Ec.
      apply (chunkTexts_length _ (length (c :: cs)) (c :: cs) 0) in Ec.
      revert Ec. apply Forall_impl. intros t Ht.
      assert (Hk : thr 2000 Double.c08 <= 1600).
      { assert (5 * thr 2000 Double.c08 <= 4 * 2000);
          [apply thr_c08_exact; [reflexivity|apply le_n]|lia]. }
      lia.
Qed.

(** X8, at 2001 letters. *)
Lemma sendLongMessage_texts_within_budget_witness :
  let text := repeat 97%N 2001 in
  noBacktick text = true /\ blank text = false /\ length text <= 2001 /\
  exists texts,
    sendLongMessage_texts 2001 text = Some texts /\
    texts <> [] /\ Forall (fun t => length t <= 2000) texts.
Proof.
  cbv zeta.
  assert (H1 : noBacktick (repeat 97%N 2001) = true) by reflexivity.
  assert (H2 : blank (repeat 97%N 2001) = false) by reflexivity.
  assert (H3 : length (repeat 97%N 2001) <= 2001) by (rewrite repeat_length; apply le_n).
  split; [exact H1|]. split; [exact H2|]. split; [exact H3|].
  exact (sendLongMessage_texts_within_budget 2001 _ H1 H2 H3).
Defined.

(** ** The markup checker, the cleaner, the plain-text conversion and the input sanitizer *)

Lemma markupFree_cleanFree s : markupFree s = true -> cleanFree s = true.
Proof.
  apply forallb_weaken. intros c H.
  repeat (apply andb_prop in H; destruct H as [H ?]).
  repeat (apply andb_true_intro; split); assumption.
Qed.

Lemma markupFree_count (x : char) s :
  (forall c, notChar STAR c && notChar UNDERSCORE c && notChar LBRACKET c
             && notChar RBRACKET c && notChar LPAREN c && notChar RPAREN c
             && notChar BACKTICK c = true -> notChar x c = true) ->
  markupFree s = true -> count x s = 0.
Proof. intros Hp H. apply count_absent. revert H. now apply markupFree_weaken. Qed.

Lemma countMatches_free (p : char -> bool) rx s :
  (forall b t, forallb p t = true -> rx b t = None) ->
  forallb p s = true -> countMatches rx s = Some 0.
Proof. intros Hrx Hs. unfold countMatches. now rewrite (matchAll_free p rx s Hrx Hs). Qed.

Lemma hasProblematicMarkdown_plain text :
  markupFree text = true -> hasProblematicMarkdown text = Some false.
Proof.
  intros H.
  assert (Hb : noBacktick text = true) by (revert H; apply markupFree_weaken; pick_conjunct).
  destruct (hasProblematicMarkdown_verdict text text (analyzed_plain text Hb))
    as (bold & underscores & Eb & Hbold & Eu & ->).
  rewrite (countMatches_free (notChar UNDERSCORE) rxUnderscore text rxUnderscore_free) in Eu
    by (revert H; apply markupFree_weaken; pick_conjunct).
  injection Eu as <-.
  rewrite !markupFree_count by (assumption || pick_conjunct). reflexivity.
Qed.

(** X9.  A text without star, underscore, bracket, parenthesis and
    backtick is never reported as problematic. *)
Theorem plain_text_not_problematic text :
  markupFree text = true -> hasProblematicMarkdown text = Some false.
Proof. apply hasProblematicMarkdown_plain. Qed.

(** X9, at a greeting. *)
Lemma plain_text_not_problematic_witness :
  markupFree (lit "Halo, apa kabar?") = true /\
  hasProblematicMarkdown (lit "Halo, apa kabar?") = Some false.
Proof.
  split; [reflexivity|]. exact (plain_text_not_problematic (lit "Halo, apa kabar?") eq_refl).
Defined.

Lemma hasProblematicMarkdown_unbalanced text :
  noBacktick text = true ->
  Nat.odd (count STAR text) = true \/
  count LBRACKET text <> count RBRACKET text \/
  count LPAREN text <> count RPAREN text ->
  hasProblematicMarkdown text = Some true.
Proof.
  intros Hb H.
  destruct (hasProblematicMarkdown_verdict text text (analyzed_plain text Hb))
    as (bold & underscores & Eb & Hbold & Eu & ->).
  f_equal. rewrite (odd_rest _ _ Hbold).
  destruct H as [H|[H|H]].
  - rewrite H, orb_true_r.
    destruct (count STAR text); [discriminate|]. reflexivity.
  - apply Nat.eqb_neq in H. rewrite H. cbn [negb]. now rewrite orb_true_r.
  - apply Nat.eqb_neq in H. rewrite H. cbn [negb]. now rewrite orb_true_r.
Qed.

(** X10.  A text without backtick is reported as problematic whenever its
    stars are odd in number, or its opening and closing brackets differ
    in number, or its opening and closing parentheses do. *)
Theorem unbalanced_markup_reported text :
  noBacktick text = true ->
  Nat.odd (count STAR text) = true \/
  count LBRACKET text <> count RBRACKET text \/
  count LPAREN text <> count RPAREN text ->
  hasProblematicMarkdown text = Some true.
Proof. apply hasProblematicMarkdown_unbalanced. Qed.

(** X10, at a bracket left open. *)
Lemma unbalanced_markup_reported_witness :
  let text := lit "lihat [tautan" in
  noBacktick text = true /\
  (Nat.odd (count STAR text) = true \/
   count LBRACKET text <> count RBRACKET text \/
   count LPAREN text <> count RPAREN text) /\
  hasProblematicMarkdown text = Some true.
Proof.
  cbv zeta.
  assert (H : Nat.odd (count STAR (lit "lihat [tautan")) = true \/
              count LBRACKET (lit "lihat [tautan") <> count RBRACKET (lit "lihat [tautan") \/
              count LPAREN (lit "lihat [tautan") <> count RPAREN (lit "lihat [tautan"))
    by (right; left; discriminate).
  split; [reflexivity|]. split; [exact H|].
  exact (unbalanced_markup_reported (lit "lihat [tautan") eq_refl H).
Defined.

(** X11.  A fenced code block does not weigh on the verdict: whatever it
    holds, the text is judged as the text without the block. *)
Theorem fenced_code_not_judged pre body post :
  noBacktick pre = true -> noBacktick body = true -> noBacktick post = true ->
  hasProblematicMarkdown (pre ++ FENCE ++ body ++ FENCE ++ post)
  = hasProblematicMarkdown (pre ++ post).
Proof.
  intros Hpre Hbody Hpost. unfold hasProblematicMarkdown.
  rewrite (analyzed_fenced pre body post Hpre Hbody Hpost).
  rewrite (analyzed_plain (pre ++ post)); [reflexivity|].
  unfold noBacktick in *. rewrite forallb_app. apply andb_true_intro. now split.
Qed.

(** X11, at a block that holds a bracket left open. *)
Lemma fenced_code_not_judged_witness :
  let pre := lit "kode: " in
  let body := lit "x = [1" in
  let post := lit " selesai" in
  noBacktick pre = true /\ noBacktick body = true /\ noBacktick post = true /\
  hasProblematicMarkdown (pre ++ FENCE ++ body ++ FENCE ++ post)
  = hasProblematicMarkdown (pre ++ post).
Proof.
  cbv zeta. split; [reflexivity|]. split; [reflexivity|]. split; [reflexivity|].
  exact (fenced_code_not_judged (lit "kode: ") (lit "x = [1") (lit " selesai")
           eq_refl eq_refl eq_refl).
Defined.

(** X12.  [cleanMarkdown] returns a text without star, underscore,
    bracket and backtick as it is. *)
Theorem cleanMarkdown_keeps_plain_text text :
  cleanFree text = true -> cleanMarkdown text = Some text.
Proof. apply cleanMarkdown_plain. Qed.

(** X12, at a text with parentheses. *)
Lemma cleanMarkdown_keeps_plain_text_witness :
  cleanFree (lit "Halo (dunia)!") = true /\
  cleanMarkdown (lit "Halo (dunia)!") = Some (lit "Halo (dunia)!").
Proof.
  split; [reflexivity|]. exact (cleanMarkdown_keeps_plain_text (lit "Halo (dunia)!") eq_refl).
Defined.

(** X13.  The italic repair of [cleanMarkdown] changes no text: the group
    of its pattern holds no star, so the callback always gives back the
    match. *)
Theorem italic_repair_changes_nothing cleaned : repairItalic cleaned = Some cleaned.
Proof. apply repairItalic_id_all. Qed.

(** X14.  A lone star at the head of a text that has no other markup is
    reported as problematic, [cleanMarkdown] removes exactly that star,
    and what is left is not reported any more. *)
Theorem lone_star_repaired w :
  markupFree w = true ->
  hasProblematicMarkdown (STAR :: w) = Some true /\
  cleanMarkdown (STAR :: w) = Some w /\
  hasProblematicMarkdown w = Some false.
Proof.
  intros H. split; [|split].
  - assert (Hb : noBacktick (STAR :: w) = true).
    { unfold noBacktick. cbn [forallb]. apply andb_true_intro. split; [reflexivity|].
      revert H. apply markupFree_weaken. pick_conjunct. }
    destruct (hasProblematicMarkdown_verdict _ _ (analyzed_plain _ Hb))
      as (bold & underscores & Eb & Hbold & Eu & ->).
    f_equal. rewrite (odd_rest _ _ Hbold).
    assert (Ec : count STAR (STAR :: w) = 1).
    { unfold count. cbn [filter]. change (STAR =? STAR)%N with true. cbn [length].
      f_equal. apply (markupFree_count STAR w); [pick_conjunct|exact H]. }
    rewrite Ec. cbn [Nat.ltb Nat.leb Nat.odd Nat.even negb andb]. now rewrite orb_true_r.
  - apply cleanMarkdown_star. now apply markupFree_cleanFree.
  - now apply hasProblematicMarkdown_plain.
Qed.

(** X14, at a list item. *)
Lemma lone_star_repaired_witness :
  let w := lit " butir pertama" in
  markupFree w = true /\
  hasProblematicMarkdown (STAR :: w) = Some true /\
  cleanMarkdown (STAR :: w) = Some w /\
  hasProblematicMarkdown w = Some false.
Proof.
  cbv zeta. split; [reflexivity|]. exact (lone_star_repaired (lit " butir pertama") eq_refl).
Defined.

Lemma getSubstitution_app matched before after caps p rest :
  noDollar p = true ->
  getSubstitution matched before after caps (p ++ rest)
  = p ++ getSubstitution matched before after caps rest.
Proof.
  induction p as [|c p IH]; [reflexivity|].
  intros H. cbn [noDollar forallb] in H. apply andb_prop in H as [Hc Hp].
  cbn [app getSubstitution]. rewrite Hc. f_equal. now apply IH.
Qed.

Lemma noDollar_app a b : noDollar (a ++ b) = noDollar a && noDollar b.
Proof. apply forallb_app. Qed.

(** X15.  [cleanMarkdown] puts a fenced code block between texts without
    markup back through the [$] patterns of [String.prototype.replace];
    a block without dollar sign comes back as it was, together with the
    text around it. *)
Theorem fenced_code_through_cleanMarkdown pre body post :
  cleanFree pre = true -> noBacktick body = true -> cleanFree post = true ->
  cleanMarkdown (pre ++ FENCE ++ body ++ FENCE ++ post)
  = Some (pre ++ getSubstitution (cleanBlockToken 0) pre post []
                   (FENCE ++ body ++ FENCE) ++ post)
  /\ (noDollar body = true ->
      cleanMarkdown (pre ++ FENCE ++ body ++ FENCE ++ post)
      = Some (pre ++ FENCE ++ body ++ FENCE ++ post)).
Proof.
  intros Hpre Hbody Hpost.
  pose proof (cleanMarkdown_fenced pre body post Hpre Hbody Hpost) as E.
  split; [exact E|]. intros Hd. rewrite E.
  rewrite getSubstitution_plain; [now rewrite <- !app_assoc|].
  rewrite !noDollar_app, Hd. reflexivity.
Qed.

(** X15, at a block that holds a star and an underscore. *)
Lemma fenced_code_through_cleanMarkdown_witness :
  let pre := lit "kode: " in
  let body := lit "a_b*c" in
  let post := lit " ok" in
  cleanFree pre = true /\ noBacktick body = true /\ cleanFree post = true /\
  noDollar body = true /\
  cleanMarkdown (pre ++ FENCE ++ body ++ FENCE ++ post)
  = Some (pre ++ FENCE ++ body ++ FENCE ++ post).
Proof.
  cbv zeta. split; [reflexivity|]. split; [reflexivity|]. split; [reflexivity|].
  split; [reflexivity|].
  exact (proj2 (fenced_code_through_cleanMarkdown (lit "kode: ") (lit "a_b*c") (lit " ok")
                  eq_refl eq_refl eq_refl) eq_refl).
Defined.

(** X16.  A doubled dollar sign inside a fenced code block comes out of
    [cleanMarkdown] as a single one. *)
Theorem doubled_dollar_in_code_halved pre body1 body2 post :
  cleanFree pre = true -> cleanFree post = true ->
  noBacktick body1 = true -> noBacktick body2 = true ->
  noDollar body1 = true -> noDollar body2 = true ->
  cleanMarkdown (pre ++ FENCE ++ (body1 ++ [DOLLAR; DOLLAR] ++ body2) ++ FENCE ++ post)
  = Some (pre ++ FENCE ++ (body1 ++ [DOLLAR] ++ body2) ++ FENCE ++ post).
Proof.
  intros Hpre Hpost Hb1 Hb2 Hd1 Hd2.
  assert (Hbody : noBacktick (body1 ++ [DOLLAR; DOLLAR] ++ body2) = true).
  { unfold noBacktick in *. rewrite !forallb_app.
    apply andb_true_intro. split; [exact Hb1|].
    apply andb_true_intro. split; [reflexivity|exact Hb2]. }
  rewrite (cleanMarkdown_fenced pre _ post Hpre Hbody Hpost).
  assert (Eg : getSubstitution (cleanBlockToken 0) pre post []
                 (FENCE ++ (body1 ++ [DOLLAR; DOLLAR] ++ body2) ++ FENCE)
               = FENCE ++ (body1 ++ [DOLLAR] ++ body2) ++ FENCE).
  { rewrite <- !app_assoc.
    rewrite (getSubstitution_app _ _ _ _ FENCE) by reflexivity.
    rewrite (getSubstitution_app _ _ _ _ body1) by assumption.
    cbn [app getSubstitution]. change (negb (DOLLAR =? DOLLAR)%N) with false.
    change (DOLLAR =? DOLLAR)%N with true. cbv iota.
    rewrite getSubstitution_plain; [reflexivity|].
    rewrite noDollar_app, Hd2. reflexivity. }
  rewrite Eg. now rewrite <- !app_assoc.
Qed.

(** X16, at a shell command. *)
Lemma doubled_dollar_in_code_halved_witness :
  let pre := lit "lihat: " in
  let body1 := lit "echo " in
  let body2 := @nil char in
  let post := lit " ok" in
  cleanFree pre = true /\ cleanFree post = true /\
  noBacktick body1 = true /\ noBacktick body2 = true /\
  noDollar body1 = true /\ noDollar body2 = true /\
  cleanMarkdown (pre ++ FENCE ++ (body1 ++ [DOLLAR; DOLLAR] ++ body2) ++ FENCE ++ post)
  = Some (pre ++ FENCE ++ (body1 ++ [DOLLAR] ++ body2) ++ FENCE ++ post).
Proof.
  cbv zeta. repeat (split; [reflexivity|]).
  exact (doubled_dollar_in_code_halved (lit "lihat: ") (lit "echo ") [] (lit " ok")
           eq_refl eq_refl eq_refl eq_refl eq_refl eq_refl).
Defined.

(** X17.  [markdownToPlainText] returns running prose as it is: a text
    without backtick, star, underscore and opening bracket, in which no
    line starts with a hash, a [>] or a digit and no three line feeds
    follow each other. *)
Theorem markdownToPlainText_keeps_prose text :
  prose text = true -> markdownToPlainText text = Some text.
Proof. apply markdownToPlainText_prose. Qed.

(** X17, at two lines. *)
Lemma markdownToPlainText_keeps_prose_witness :
  let text := lit "Satu." ++ [LF] ++ lit "Dua (2)." in
  prose text = true /\ markdownToPlainText text = Some text.
Proof.
  cbv zeta. split; [reflexivity|].
  exact (markdownToPlainText_keeps_prose (lit "Satu." ++ [LF] ++ lit "Dua (2).") eq_refl).
Defined.

(** X18.  [sanitizeInput] returns for every text, and its result holds
    neither [<] nor [>] and has no white space at either end. *)
Theorem sanitizeInput_without_angles text :
  exists r, Security.sanitizeInput text = Some r /\ noAngle r = true /\ trim r = r.
Proof.
  destruct (sanitizeInput_total text) as [r E]. exists r. split; [exact E|].
  now apply (sanitizeInput_clean text).
Qed.

(** X19.  [sanitizeInput] only trims a text that holds no angle bracket
    and no colon. *)
Theorem sanitizeInput_trims_ordinary_text text :
  ordinary text = true -> Security.sanitizeInput text = Some (trim text).
Proof. apply sanitizeInput_ordinary. Qed.

(** X19, at a greeting between spaces. *)
Lemma sanitizeInput_trims_ordinary_text_witness :
  ordinary (lit "  halo dunia ") = true /\
  Security.sanitizeInput (lit "  halo dunia ") = Some (trim (lit "  halo dunia ")).
Proof.
  split; [reflexivity|].
  exact (sanitizeInput_trims_ordinary_text (lit "  halo dunia ") eq_refl).
Defined.

(** X20.  The result of [sanitizeInput] can still start with
    [javascript:]: each pattern is removed in one pass, and removing the
    inner occurrence of a nested one puts the outer one together. *)
Theorem sanitizeInput_leaves_nested_scheme v :
  ordinary v = true ->
  Security.sanitizeInput (lit "javajavascript:script:" ++ v)
  = Some (lit "javascript:" ++ trimEnd v).
Proof. apply sanitizeInput_nested. Qed.

(** X20, at a call. *)
Lemma sanitizeInput_leaves_nested_scheme_witness :
  ordinary (lit "alert(1) ") = true /\
  Security.sanitizeInput (lit "javajavascript:script:" ++ lit "alert(1) ")
  = Some (lit "javascript:" ++ trimEnd (lit "alert(1) ")).
Proof.
  split; [reflexivity|].
  exact (sanitizeInput_leaves_nested_scheme (lit "alert(1) ") eq_refl).
Defined.

(** *** A bold span through the cleaner *)

(** The turns of the loop, with the fuel that [replaceTemplate] gives. *)
Lemma replaceLoop_skip_any {St : Type} (p : char -> bool) rx
  (f : St -> str -> str -> list (option str) -> str -> str * St) :
  (forall b c t, p c = true -> rx b (c :: t) = None) ->
  forall pre fuel st before rest, forallb p pre = true ->
  length (pre ++ rest) < fuel ->
  replaceLoop fuel rx f st before (pre ++ rest)
  = ('(out, st') <- replaceLoop (S (length rest)) rx f st (rev pre ++ before) rest ;;
     Some (pre ++ out, st')).
Proof.
  intros Hrx pre fuel st before rest Hp Hl.
  rewrite (replaceLoop_fuel _ _ _ (length pre + S (length rest)))
    by (rewrite ?length_app in *; lia).
  now apply (replaceLoop_skip p).
Qed.

Lemma replaceLoop_pass_any {St : Type} rx
  (f : St -> str -> str -> list (option str) -> str -> str * St)
  fuel st before c s' :
  rx before (c :: s') = None -> length (c :: s') < fuel ->
  replaceLoop fuel rx f st before (c :: s')
  = ('(out, st') <- replaceLoop (S (length s')) rx f st (c :: before) s' ;;
     Some (c :: out, st')).
Proof.
  intros E Hl. rewrite (replaceLoop_fuel _ _ _ (S (S (length s')))) by (cbn [length] in *; lia).
  now apply replaceLoop_pass.
Qed.

Lemma replaceLoop_match_any {St : Type} rx
  (f : St -> str -> str -> list (option str) -> str -> str * St)
  fuel st before s n caps rep st1 :
  rx before s = Some (n, caps) -> firstn n s <> [] ->
  f st (rev before) (firstn n s) caps (skipn n s) = (rep, st1) ->
  length s < fuel ->
  replaceLoop fuel rx f st before s
  = ('(out, st2) <- replaceLoop (S (length (skipn n s))) rx f st1
                      (rev (firstn n s) ++ before) (skipn n s) ;;
     Some (rep ++ out, st2)).
Proof.
  intros E Hm Hf Hl.
  assert (length (skipn n s) <= length s) by (rewrite length_skipn; lia).
  rewrite (replaceLoop_fuel _ _ _ (S (S (length s)))) by lia.
  rewrite (replaceLoop_match _ _ _ _ _ _ n caps rep st1 E Hm Hf).
  rewrite (replaceLoop_fuel _ _ _ (S (length (skipn n s)))) by lia.
  reflexivity.
Qed.

Lemma replaceLoop_free_any {St : Type} (p : char -> bool) rx
  (f : St -> str -> str -> list (option str) -> str -> str * St) :
  (forall b t, forallb p t = true -> rx b t = None) ->
  forall st before s, forallb p s = true ->
  replaceLoop (S (length s)) rx f st before s = Some (s, st).
Proof. intros Hrx st before s Hs. apply (replaceLoop_free p); auto. Qed.

Lemma takeWhile_app_stop (p : char -> bool) w c t :
  forallb p w = true -> p c = false -> takeWhile p (w ++ c :: t) = w.
Proof.
  intros Hw Hc. induction w as [|x w IH]; cbn [app takeWhile].
  - now rewrite Hc.
  - cbn [forallb] in Hw. apply andb_prop in Hw as [-> Hw]. now rewrite IH.
Qed.

Lemma rxBoldOpen_headed b c t : notChar STAR c = true -> rxBoldOpen b (c :: t) = None.
Proof.
  intros H. unfold rxBoldOpen. unfold notChar in H. apply negb_true_iff in H.
  change (startsWith [STAR; STAR] (c :: t)) with ((STAR =? c)%N && startsWith [STAR] t).
  now rewrite N.eqb_sym, H.
Qed.

Lemma rxBoldClose_headed b c t : notChar STAR c = true -> rxBoldClose b (c :: t) = None.
Proof.
  intros H. unfold rxBoldClose. unfold notChar in H. apply negb_true_iff in H. now rewrite H.
Qed.

Lemma rxEmptyBold_headed b c t : notChar STAR c = true -> rxEmptyBold b (c :: t) = None.
Proof.
  intros H. unfold rxEmptyBold. unfold notChar in H. apply negb_true_iff in H.
  change (startsWith [STAR; STAR] (c :: t)) with ((STAR =? c)%N && startsWith [STAR] t).
  now rewrite N.eqb_sym, H.
Qed.

Section BoldSpan.

Variables pre post w' : str.
Variable c : char.
Hypothesis Hpre : cleanFree pre = true.
Hypothesis Hc : isWhiteSpace c = false.
Hypothesis Hw : cleanFree (c :: w') = true.
Hypothesis Hpost : cleanFree post = true.

Let w : str := c :: w'.
Let closing : str := STAR :: STAR :: post.
Let bold : str := pre ++ STAR :: STAR :: w ++ closing.
Let cleaned : str := pre ++ STAR :: STAR :: STAR :: w ++ closing.

Lemma span_pre : forallb (notChar STAR) pre = true.
Proof. exact (clean_star pre Hpre). Qed.

Lemma span_w : forallb (notChar STAR) w = true.
Proof. exact (clean_star w Hw). Qed.

Lemma span_post : forallb (notChar STAR) post = true.
Proof. exact (clean_star post Hpost). Qed.

Lemma span_c : (STAR =? c)%N = false.
Proof.
  pose proof span_w as H. unfold w in H. cbn [forallb] in H.
  apply andb_prop in H as [H _]. unfold notChar in H. apply negb_true_iff in H.
  now rewrite N.eqb_sym.
Qed.

Lemma span_body t : takeWhile (notChar STAR) (w ++ STAR :: t) = w.
Proof. apply takeWhile_app_stop; [exact span_w|reflexivity]. Qed.

Lemma span_post_next : startsWith [STAR] post = false.
Proof. apply startsWith_absent. exact span_post. Qed.

(** The lengths, for the fuel. *)
Ltac enough_fuel :=
  unfold bold, cleaned, closing, w; rewrite ?length_app; cbn [length];
  rewrite ?length_app; cbn [length]; lia.

Ltac skip_pre lemma :=
  rewrite (replaceLoop_skip_any (notChar STAR) _ _ lemma pre) by (exact span_pre || enough_fuel);
  cbn [bind].

(** *** The first pattern of the bold repair finds nothing *)

Lemma open_at_open b : rxBoldOpen b (STAR :: STAR :: w ++ closing) = None.
Proof.
  unfold rxBoldOpen.
  change (startsWith [STAR; STAR] (STAR :: STAR :: w ++ closing)) with true. cbv iota.
  change (skipn 2 (STAR :: STAR :: w ++ closing)) with (w ++ closing).
  unfold closing at 1 2. cbv zeta. rewrite span_body.
  rewrite (skipn_app_exact w _ _ eq_refl). reflexivity.
Qed.

Lemma open_at_second b : rxBoldOpen b (STAR :: w ++ closing) = None.
Proof.
  unfold rxBoldOpen, w.
  change (startsWith [STAR; STAR] (STAR :: (c :: w') ++ closing))
    with ((STAR =? STAR)%N && ((STAR =? c)%N && true)).
  now rewrite span_c.
Qed.

Lemma open_at_close b : rxBoldOpen b closing = None.
Proof.
  unfold rxBoldOpen, closing.
  change (startsWith [STAR; STAR] (STAR :: STAR :: post)) with true. cbv iota.
  change (skipn 2 (STAR :: STAR :: post)) with post. cbv zeta.
  rewrite (takeWhile_all _ _ span_post), skipn_all. reflexivity.
Qed.

Lemma open_at_last b : rxBoldOpen b (STAR :: post) = None.
Proof.
  unfold rxBoldOpen.
  change (startsWith [STAR; STAR] (STAR :: post)) with ((STAR =? STAR)%N && startsWith [STAR] post).
  now rewrite span_post_next.
Qed.

Lemma span_open : replaceTemplate rxBoldOpen (lit "**$1**") bold = Some bold.
Proof.
  unfold replaceTemplate. unfold bold at 1 2.
  skip_pre rxBoldOpen_headed.
  rewrite (replaceLoop_pass_any _ _ _ _ _ _ _ (open_at_open _)) by enough_fuel.
  rewrite (replaceLoop_pass_any _ _ _ _ _ _ _ (open_at_second _)) by enough_fuel.
  rewrite (replaceLoop_skip_any (notChar STAR) _ _ rxBoldOpen_headed w)
    by (exact span_w || enough_fuel).
  unfold closing at 1 2.
  rewrite (replaceLoop_pass_any _ _ _ _ _ _ _ (open_at_close _)) by enough_fuel.
  rewrite (replaceLoop_pass_any _ _ _ _ _ _ _ (open_at_last _)) by enough_fuel.
  rewrite (replaceLoop_free_any _ _ _ rxBoldOpen_free _ _ _ span_post).
  reflexivity.
Qed.

(** *** The second one takes the second star for a lone one *)

Lemma close_at_open b : rxBoldClose b (STAR :: STAR :: w ++ closing) = None.
Proof. reflexivity. Qed.

Lemma close_at_second b :
  rxBoldClose b (STAR :: w ++ closing) = Some (1 + length w + 2, [Some w]).
Proof.
  unfold rxBoldClose.
  assert (E : startsWith [STAR] (w ++ closing) = false).
  { unfold w. cbn [app startsWith]. now rewrite span_c. }
  rewrite E. change ((STAR =? STAR)%N && negb false) with true. cbv iota zeta.
  unfold closing. rewrite span_body.
  rewrite (skipn_app_exact w _ _ eq_refl). reflexivity.
Qed.

Lemma span_close : replaceTemplate rxBoldClose (lit "**$1**") bold = Some cleaned.
Proof.
  unfold replaceTemplate. unfold bold at 1 2.
  skip_pre rxBoldClose_headed.
  rewrite (replaceLoop_pass_any _ _ _ _ _ _ _ (close_at_open _)) by enough_fuel.
  assert (Ef : firstn (1 + length w + 2) (STAR :: w ++ closing) = STAR :: w ++ [STAR; STAR]).
  { change (STAR :: w ++ closing) with ((STAR :: w ++ [STAR; STAR]) ++ post) ||
    replace (STAR :: w ++ closing) with ((STAR :: w ++ [STAR; STAR]) ++ post)
      by (unfold closing; cbn [app]; now rewrite <- app_assoc).
    apply firstn_app_exact. cbn [length]. rewrite length_app. cbn [length]. lia. }
  assert (Es : skipn (1 + length w + 2) (STAR :: w ++ closing) = post).
  { replace (STAR :: w ++ closing) with ((STAR :: w ++ [STAR; STAR]) ++ post)
      by (unfold closing; cbn [app]; now rewrite <- app_assoc).
    apply skipn_app_exact. cbn [length]. rewrite length_app. cbn [length]. lia. }
  rewrite (replaceLoop_match_any _ _ _ _ _ _ (1 + length w + 2) [Some w]
             (STAR :: STAR :: w ++ [STAR; STAR]) tt (close_at_second _)).
  - rewrite Es.
    rewrite (replaceLoop_free_any _ _ _ rxBoldClose_free _ _ _ span_post).
    cbn [bind]. unfold cleaned, closing. cbn [app]. rewrite <- app_assoc. reflexivity.
  - rewrite Ef. discriminate.
  - rewrite Ef, Es. reflexivity.
  - enough_fuel.
Qed.

(** *** No later step takes the third star away *)

Lemma empty_at_first b : rxEmptyBold b (STAR :: STAR :: STAR :: w ++ closing) = None.
Proof.
  unfold rxEmptyBold, w. cbn [app].
  change (startsWith [STAR; STAR] (STAR :: STAR :: STAR :: c :: w' ++ closing)) with true.
  cbv iota.
  change (skipn 2 (STAR :: STAR :: STAR :: c :: w' ++ closing))
    with (STAR :: c :: w' ++ closing).
  change (takeWhile isWhiteSpace (STAR :: c :: w' ++ closing)) with (@nil char).
  cbv zeta. cbn [length skipn].
  change (startsWith [STAR; STAR] (STAR :: c :: w' ++ closing))
    with ((STAR =? STAR)%N && ((STAR =? c)%N && true)).
  now rewrite span_c.
Qed.

Lemma empty_at_second b : rxEmptyBold b (STAR :: STAR :: w ++ closing) = None.
Proof.
  unfold rxEmptyBold, w. cbn [app].
  change (startsWith [STAR; STAR] (STAR :: STAR :: c :: w' ++ closing)) with true.
  cbv iota.
  change (skipn 2 (STAR :: STAR :: c :: w' ++ closing)) with (c :: w' ++ closing).
  cbn [takeWhile]. rewrite Hc. cbv zeta. cbn [length skipn].
  cbn [startsWith]. now rewrite span_c.
Qed.

Lemma empty_at_third b : rxEmptyBold b (STAR :: w ++ closing) = None.
Proof.
  unfold rxEmptyBold, w.
  change (startsWith [STAR; STAR] (STAR :: (c :: w') ++ closing))
    with ((STAR =? STAR)%N && ((STAR =? c)%N && true)).
  now rewrite span_c.
Qed.

Lemma empty_at_close b : rxEmptyBold b closing = None.
Proof.
  unfold rxEmptyBold, closing.
  change (startsWith [STAR; STAR] (STAR :: STAR :: post)) with true. cbv iota.
  change (skipn 2 (STAR :: STAR :: post)) with post. cbv zeta.
  rewrite startsWith_absent; [reflexivity|].
  apply forallb_skipn. exact span_post.
Qed.

Lemma empty_at_last b : rxEmptyBold b (STAR :: post) = None.
Proof.
  unfold rxEmptyBold.
  change (startsWith [STAR; STAR] (STAR :: post)) with ((STAR =? STAR)%N && startsWith [STAR] post).
  now rewrite span_post_next.
Qed.

Lemma span_empty : replaceTemplate rxEmptyBold [] cleaned = Some cleaned.
Proof.
  unfold replaceTemplate. unfold cleaned at 1 2.
  skip_pre rxEmptyBold_headed.
  rewrite (replaceLoop_pass_any _ _ _ _ _ _ _ (empty_at_first _)) by enough_fuel.
  rewrite (replaceLoop_pass_any _ _ _ _ _ _ _ (empty_at_second _)) by enough_fuel.
  rewrite (replaceLoop_pass_any _ _ _ _ _ _ _ (empty_at_third _)) by enough_fuel.
  rewrite (replaceLoop_skip_any (notChar STAR) _ _ rxEmptyBold_headed w)
    by (exact span_w || enough_fuel).
  unfold closing at 1 2.
  rewrite (replaceLoop_pass_any _ _ _ _ _ _ _ (empty_at_close _)) by enough_fuel.
  rewrite (replaceLoop_pass_any _ _ _ _ _ _ _ (empty_at_last _)) by enough_fuel.
  rewrite (replaceLoop_free_any _ _ _ rxEmptyBold_free _ _ _ span_post).
  reflexivity.
Qed.

Lemma leading_followed b t : rxLeading STAR b (STAR :: STAR :: t) = None.
Proof. unfold rxLeading. cbn [startsWith]. now rewrite andb_false_r. Qed.

Lemma leading_inside b t : rxLeading STAR (STAR :: b) (STAR :: t) = None.
Proof. reflexivity. Qed.

Lemma span_leading : replaceTemplate (rxLeading STAR) [] cleaned = Some cleaned.
Proof.
  unfold replaceTemplate. unfold cleaned at 1 2.
  skip_pre (rxLeading_headed STAR).
  rewrite (replaceLoop_pass_any _ _ _ _ _ _ _ (leading_followed _ _)) by enough_fuel.
  rewrite (replaceLoop_pass_any _ _ _ _ _ _ _ (leading_inside _ _)) by enough_fuel.
  rewrite (replaceLoop_pass_any _ _ _ _ _ _ _ (leading_inside _ _)) by enough_fuel.
  rewrite (replaceLoop_skip_any (notChar STAR) _ _ (rxLeading_headed STAR) w)
    by (exact span_w || enough_fuel).
  unfold closing at 1 2.
  rewrite (replaceLoop_pass_any _ _ _ _ _ _ _ (leading_followed _ _)) by enough_fuel.
  rewrite (replaceLoop_pass_any _ _ _ _ _ _ _ (leading_inside _ _)) by enough_fuel.
  rewrite (replaceLoop_free_any _ _ _ (rxLeading_free STAR) _ _ _ span_post).
  reflexivity.
Qed.

Lemma trailing_followed b t : rxTrailing STAR b (STAR :: STAR :: t) = None.
Proof. unfold rxTrailing. cbn [atLineEnd]. now rewrite andb_false_r. Qed.

Lemma trailing_inside b t : rxTrailing STAR (STAR :: b) (STAR :: t) = None.
Proof. reflexivity. Qed.

Lemma span_trailing : replaceTemplate (rxTrailing STAR) [] cleaned = Some cleaned.
Proof.
  unfold replaceTemplate. unfold cleaned at 1 2.
  skip_pre (rxTrailing_headed STAR).
  rewrite (replaceLoop_pass_any _ _ _ _ _ _ _ (trailing_followed _ _)) by enough_fuel.
  rewrite (replaceLoop_pass_any _ _ _ _ _ _ _ (trailing_inside _ _)) by enough_fuel.
  rewrite (replaceLoop_pass_any _ _ _ _ _ _ _ (trailing_inside _ _)) by enough_fuel.
  rewrite (replaceLoop_skip_any (notChar STAR) _ _ (rxTrailing_headed STAR) w)
    by (exact span_w || enough_fuel).
  unfold closing at 1 2.
  rewrite (replaceLoop_pass_any _ _ _ _ _ _ _ (trailing_followed _ _)) by enough_fuel.
  rewrite (replaceLoop_pass_any _ _ _ _ _ _ _ (trailing_inside _ _)) by enough_fuel.
  rewrite (replaceLoop_free_any _ _ _ (rxTrailing_free STAR) _ _ _ span_post).
  reflexivity.
Qed.

Lemma span_free (x : char) (t : str) :
  notChar x STAR = true ->
  (forall s, cleanFree s = true -> forallb (notChar x) s = true) ->
  t = bold \/ t = cleaned -> forallb (notChar x) t = true.
Proof.
  intros Hx Hs.
  assert (Hc' : forallb (notChar x) closing = true).
  { unfold closing. cbn [forallb]. now rewrite Hx, (Hs _ Hpost). }
  assert (Hwc : forallb (notChar x) (w ++ closing) = true).
  { rewrite forallb_app, Hc'. unfold w. now rewrite (Hs _ Hw). }
  intros [-> | ->]; unfold bold, cleaned; rewrite forallb_app, (Hs _ Hpre);
    cbn [forallb andb]; now rewrite Hx, Hwc.
Qed.

Lemma cleanMarkdown_bold : cleanMarkdown bold = Some cleaned.
Proof.
  unfold cleanMarkdown.
  rewrite (extract_free (notChar BACKTICK) _ _ _ rxFence_nomatch
             (span_free BACKTICK bold eq_refl clean_backtick (or_introl eq_refl))).
  cbn [bind].
  rewrite (extract_free (notChar BACKTICK) _ _ _ rxInline_nomatch
             (span_free BACKTICK bold eq_refl clean_backtick (or_introl eq_refl))).
  cbn [bind].
  rewrite span_open. cbn [bind]. rewrite span_close. cbn [bind].
  rewrite span_empty. cbn [bind]. rewrite repairItalic_id_all. cbn [bind].
  rewrite span_leading. cbn [bind]. rewrite span_trailing. cbn [bind].
  rewrite (replaceTemplate_free _ _ _ _ (rxLeading_free UNDERSCORE)
             (span_free UNDERSCORE cleaned eq_refl clean_underscore (or_intror eq_refl))).
  cbn [bind].
  rewrite (replaceTemplate_free _ _ _ _ (rxTrailing_free UNDERSCORE)
             (span_free UNDERSCORE cleaned eq_refl clean_underscore (or_intror eq_refl))).
  cbn [bind].
  rewrite (replaceTemplate_free _ _ _ _ rxOpenBracket_free
             (span_free LBRACKET cleaned eq_refl clean_lbracket (or_intror eq_refl))).
  cbn [bind].
  rewrite (replaceTemplate_free _ _ _ _ rxCloseBracket_free
             (span_free RBRACKET cleaned eq_refl clean_rbracket (or_intror eq_refl))).
  cbn [bind]. reflexivity.
Qed.

Lemma count_app x a b : count x (a ++ b) = count x a + count x b.
Proof. unfold count. now rewrite filter_app, length_app. Qed.

Lemma cleaned_stars : count STAR cleaned = 5.
Proof.
  unfold cleaned, closing. rewrite count_app.
  change (STAR :: STAR :: STAR :: w ++ STAR :: STAR :: post)
    with ([STAR; STAR; STAR] ++ w ++ [STAR; STAR] ++ post).
  rewrite !count_app.
  rewrite (count_absent STAR pre span_pre), (count_absent STAR w span_w),
    (count_absent STAR post span_post).
  reflexivity.
Qed.

End BoldSpan.

(** X21.  [cleanMarkdown] damages a well-formed bold span: between texts
    without markup, [**w**] with [w] free of markup and starting with a
    code unit that is not white space comes back as [***w**], because the
    second pattern of the bold repair takes the second star of the
    opening pair for a lone star; the result has five stars and is
    reported as problematic. *)
Theorem bold_span_gains_a_star pre c w' post :
  cleanFree pre = true -> isWhiteSpace c = false ->
  cleanFree (c :: w') = true -> cleanFree post = true ->
  cleanMarkdown (pre ++ lit "**" ++ (c :: w') ++ lit "**" ++ post)
  = Some (pre ++ lit "***" ++ (c :: w') ++ lit "**" ++ post)
  /\ hasProblematicMarkdown (pre ++ lit "***" ++ (c :: w') ++ lit "**" ++ post)
     = Some true.
Proof.
  intros Hpre Hc Hw Hpost. split.
  - exact (cleanMarkdown_bold pre post w' c Hpre Hc Hw Hpost).
  - apply hasProblematicMarkdown_unbalanced.
    + apply (span_free pre post w' c Hpre Hw Hpost BACKTICK _ eq_refl clean_backtick).
      right. reflexivity.
    + left.
      change (Nat.odd (count STAR (pre ++ STAR :: STAR :: STAR :: (c :: w')
                                       ++ STAR :: STAR :: post)) = true).
      pose proof (cleaned_stars pre post w' c Hpre Hw Hpost) as E. cbv zeta in E.
      rewrite E. reflexivity.
Qed.

(** X21, at one bold word. *)
Lemma bold_span_gains_a_star_witness :
  cleanFree [] = true /\ isWhiteSpace 116%N = false /\
  cleanFree (lit "tebal") = true /\ cleanFree [] = true /\
  cleanMarkdown (lit "**tebal**") = Some (lit "***tebal**") /\
  hasProblematicMarkdown (lit "***tebal**") = Some true.
Proof.
  split; [reflexivity|]. split; [reflexivity|]. split; [reflexivity|].
  split; [reflexivity|].
  exact (bold_span_gains_a_star [] 116%N (lit "ebal") [] eq_refl eq_refl eq_refl eq_refl).
Defined.

(** *** Spans in the plain-text conversion *)

Lemma rxBetween_headed (x : char) op cl b c t :
  notChar x c = true -> rxBetween (x :: op) cl b (c :: t) = None.
Proof.
  intros H. unfold rxBetween. unfold notChar in H. apply negb_true_iff in H.
  cbn [startsWith]. now rewrite N.eqb_sym, H.
Qed.

(** The one span of a text is replaced. *)
Lemma replaceTemplate_between (x : char) op cl tpl pre w post rep :
  forallb (notChar x) pre = true -> forallb (notChar x) post = true ->
  indexOf cl (w ++ cl ++ post) = Some (w, post) -> noLineTerminator w = true ->
  (forall matched before after, getSubstitution matched before after [Some w] tpl = rep) ->
  replaceTemplate (rxBetween (x :: op) cl) tpl (pre ++ (x :: op) ++ w ++ cl ++ post)
  = Some (pre ++ rep ++ post).
Proof.
  intros Hpre Hpost Hi Hw Hrep. unfold replaceTemplate.
  set (s := (x :: op) ++ w ++ cl ++ post).
  assert (Ef : firstn (length (x :: op) + length w + length cl) s = (x :: op) ++ w ++ cl).
  { unfold s. replace ((x :: op) ++ w ++ cl ++ post) with (((x :: op) ++ w ++ cl) ++ post)
      by now rewrite <- !app_assoc.
    apply firstn_app_exact. rewrite !length_app. lia. }
  assert (Es : skipn (length (x :: op) + length w + length cl) s = post).
  { unfold s. replace ((x :: op) ++ w ++ cl ++ post) with (((x :: op) ++ w ++ cl) ++ post)
      by now rewrite <- !app_assoc.
    apply skipn_app_exact. rewrite !length_app. lia. }
  assert (Em : forall b, rxBetween (x :: op) cl b s
                         = Some (length (x :: op) + length w + length cl, [Some w])).
  { intros b. unfold rxBetween, s. rewrite startsWith_app.
    rewrite (skipn_app_exact (x :: op) _ _ eq_refl), Hi, Hw. reflexivity. }
  rewrite (replaceLoop_skip_any (notChar x) _ _ (rxBetween_headed x op cl) pre)
    by (exact Hpre || lia).
  rewrite (replaceLoop_match_any _ _ _ _ _ _ _ _ rep tt (Em _)).
  - rewrite Es.
    rewrite (replaceLoop_free_any _ _ _ (rxBetween_free x op cl) _ _ _ Hpost).
    reflexivity.
  - rewrite Ef. discriminate.
  - now rewrite Hrep.
  - lia.
Qed.

Lemma noLineStartsWith_inside p t :
  noLineTerminator t = true -> noLineStartsWith p false t = true.
Proof.
  induction t as [|c t IH]; [reflexivity|].
  intros H. cbn [noLineTerminator forallb] in H. apply andb_prop in H as [Hc Ht].
  apply negb_true_iff in Hc. cbn [noLineStartsWith andb negb]. rewrite Hc. now apply IH.
Qed.

Lemma plainLine_part (p : char -> bool) s :
  (forall c, notChar BACKTICK c && notChar STAR c && notChar UNDERSCORE c
             && notChar LBRACKET c && negb (isLineTerminator c) = true -> p c = true) ->
  plainLine s = true -> forallb p s = true.
Proof. intros Hp. apply forallb_weaken. exact Hp. Qed.

Lemma plainLine_app a b : plainLine (a ++ b) = plainLine a && plainLine b.
Proof. apply forallb_app. Qed.

Lemma indexOf_missing (x : char) p s :
  forallb (notChar x) s = true -> indexOf (x :: p) s = None.
Proof.
  induction s as [|c s IH]; intros H.
  - reflexivity.
  - cbn [indexOf]. rewrite (startsWith_absent x p (c :: s) H).
    cbn [forallb] in H. apply andb_prop in H as [_ H]. now rewrite (IH H).
Qed.

(** A line without markup that starts with no marker is running prose. *)
Lemma plainLine_prose s : plainLine s = true -> unmarked s = true -> prose s = true.
Proof.
  intros H Hu. unfold prose.
  assert (Hl : noLineTerminator s = true) by (revert H; apply plainLine_part; pick_conjunct).
  rewrite (indexOf_missing LF [LF; LF] s).
  2:{ revert Hl. apply forallb_weaken. intros c Hc. unfold notChar.
      destruct (c =? LF)%N eqn:E; [|reflexivity].
      apply N.eqb_eq in E. subst c. discriminate. }
  rewrite andb_true_r. apply andb_true_intro. split.
  - revert H. apply forallb_weaken. intros c Hc. now apply andb_prop in Hc as [Hc _].
  - destruct s as [|c s]; [reflexivity|].
    cbn [noLineStartsWith andb]. cbn [unmarked] in Hu. rewrite Hu.
    cbn [noLineTerminator forallb] in Hl. apply andb_prop in Hl as [Hc Hs].
    apply negb_true_iff in Hc. rewrite Hc. now apply noLineStartsWith_inside.
Qed.

Section ProseTail.

Variable s : str.
Hypothesis Hs : prose s = true.

(** The steps after the bold spans, and those after the underscore spans,
    leave running prose as it is. *)
Lemma prose_after_bold :
  (t4 <- replaceTemplate (rxBetween [STAR] [STAR]) (lit "$1") s ;;
   t5 <- replaceTemplate (rxBetween [UNDERSCORE] [UNDERSCORE]) (lit "$1") t4 ;;
   t6 <- replaceTemplate rxLinkLazy tplLink t5 ;;
   t7 <- replaceTemplate (rxLineMarker (N.eqb HASH) true) tplHeader t6 ;;
   t8 <- replaceTemplate (rxLineMarker (N.eqb GT) false) tplQuote t7 ;;
   t9 <- replaceTemplate (rxLineMarker (N.eqb STAR) false) tplBullet t8 ;;
   t10 <- replaceTemplate rxNumbered tplNumbered t9 ;;
   replaceTemplate rxBlankLines [LF; LF] t10) = Some s.
Proof.
  pose proof (markdownToPlainText_prose s Hs) as E. unfold markdownToPlainText in E.
  rewrite (replaceTemplate_free _ _ _ _ rxFenceLang_free
             (prose_part s Hs BACKTICK ltac:(pick_conjunct))) in E. cbn [bind] in E.
  rewrite (replaceTemplate_free _ _ _ _ rxInline_nomatch
             (prose_part s Hs BACKTICK ltac:(pick_conjunct))) in E. cbn [bind] in E.
  rewrite (replaceTemplate_free _ _ _ _ (rxBetween_free STAR _ _)
             (prose_part s Hs STAR ltac:(pick_conjunct))) in E. cbn [bind] in E.
  exact E.
Qed.

Lemma prose_after_underscore :
  (t6 <- replaceTemplate rxLinkLazy tplLink s ;;
   t7 <- replaceTemplate (rxLineMarker (N.eqb HASH) true) tplHeader t6 ;;
   t8 <- replaceTemplate (rxLineMarker (N.eqb GT) false) tplQuote t7 ;;
   t9 <- replaceTemplate (rxLineMarker (N.eqb STAR) false) tplBullet t8 ;;
   t10 <- replaceTemplate rxNumbered tplNumbered t9 ;;
   replaceTemplate rxBlankLines [LF; LF] t10) = Some s.
Proof.
  pose proof prose_after_bold as E.
  rewrite (replaceTemplate_free _ _ _ _ (rxBetween_free STAR _ _)
             (prose_part s Hs STAR ltac:(pick_conjunct))) in E. cbn [bind] in E.
  rewrite (replaceTemplate_free _ _ _ _ (rxBetween_free UNDERSCORE _ _)
             (prose_part s Hs UNDERSCORE ltac:(pick_conjunct))) in E. cbn [bind] in E.
  exact E.
Qed.

End ProseTail.

Lemma unmarked_app a b : a <> [] -> unmarked (a ++ b) = unmarked a.
Proof. destruct a; [contradiction|reflexivity]. Qed.

Lemma markdownToPlainText_bold pre w post :
  plainLine pre = true -> plainLine w = true -> plainLine post = true ->
  unmarked pre = true ->
  markdownToPlainText (pre ++ lit "**" ++ w ++ lit "**" ++ post)
  = Some (pre ++ [12304%N] ++ w ++ [12305%N] ++ post).
Proof.
  intros Hpre Hw Hpost Hu.
  assert (Hb : forallb (notChar BACKTICK) (pre ++ lit "**" ++ w ++ lit "**" ++ post) = true).
  { rewrite !forallb_app.
    rewrite (plainLine_part (notChar BACKTICK) pre), (plainLine_part (notChar BACKTICK) w),
      (plainLine_part (notChar BACKTICK) post) by (assumption || pick_conjunct).
    reflexivity. }
  assert (Hr : prose (pre ++ [12304%N] ++ w ++ [12305%N] ++ post) = true).
  { apply plainLine_prose.
    - rewrite !plainLine_app, Hpre, Hw, Hpost. reflexivity.
    - destruct pre as [|c pre']; [reflexivity|exact Hu]. }
  unfold markdownToPlainText.
  rewrite (replaceTemplate_free _ _ _ _ rxFenceLang_free Hb). cbn [bind].
  rewrite (replaceTemplate_free _ _ _ _ rxInline_nomatch Hb). cbn [bind].
  change (lit "**") with [STAR; STAR].
  rewrite (replaceTemplate_between STAR [STAR] [STAR; STAR] tplBold pre w post
             ([12304%N] ++ w ++ [12305%N])).
  - cbn [bind].
    rewrite <- !app_assoc. exact (prose_after_bold _ Hr).
  - revert Hpre. apply plainLine_part. pick_conjunct.
  - revert Hpost. apply plainLine_part. pick_conjunct.
  - apply (indexOf_past STAR [STAR]). revert Hw. apply plainLine_part. pick_conjunct.
  - revert Hw. apply plainLine_part. pick_conjunct.
  - reflexivity.
Qed.

Lemma markdownToPlainText_underscores a b c :
  plainLine a = true -> plainLine b = true -> plainLine c = true ->
  unmarked (a ++ b ++ c) = true ->
  markdownToPlainText (a ++ lit "_" ++ b ++ lit "_" ++ c) = Some (a ++ b ++ c).
Proof.
  intros Ha Hb Hc Hu.
  assert (Hk : forall x, notChar x UNDERSCORE = true ->
                 (forall s, plainLine s = true -> forallb (notChar x) s = true) ->
                 forallb (notChar x) (a ++ lit "_" ++ b ++ lit "_" ++ c) = true).
  { intros x Hx Hp. rewrite !forallb_app, (Hp _ Ha), (Hp _ Hb), (Hp _ Hc).
    cbn [lit list_ascii_of_string map forallb]. 
    change (N_of_ascii "_") with UNDERSCORE. now rewrite Hx. }
  assert (Hbt : forallb (notChar BACKTICK) (a ++ lit "_" ++ b ++ lit "_" ++ c) = true).
  { apply Hk; [reflexivity|]. intros s. apply plainLine_part. pick_conjunct. }
  assert (Hst : forallb (notChar STAR) (a ++ lit "_" ++ b ++ lit "_" ++ c) = true).
  { apply Hk; [reflexivity|]. intros s. apply plainLine_part. pick_conjunct. }
  assert (Hr : prose (a ++ b ++ c) = true).
  { apply plainLine_prose; [|exact Hu]. rewrite !plainLine_app, Ha, Hb, Hc. reflexivity. }
  unfold markdownToPlainText.
  rewrite (replaceTemplate_free _ _ _ _ rxFenceLang_free Hbt). cbn [bind].
  rewrite (replaceTemplate_free _ _ _ _ rxInline_nomatch Hbt). cbn [bind].
  rewrite (replaceTemplate_free _ _ _ _ (rxBetween_free STAR _ _) Hst). cbn [bind].
  rewrite (replaceTemplate_free _ _ _ _ (rxBetween_free STAR _ _) Hst). cbn [bind].
  change (lit "_") with [UNDERSCORE].
  rewrite (replaceTemplate_between UNDERSCORE [] [UNDERSCORE] (lit "$1") a b c (b ++ [])).
  - cbn [bind]. rewrite app_nil_r. exact (prose_after_underscore _ Hr).
  - revert Ha. apply plainLine_part. pick_conjunct.
  - revert Hc. apply plainLine_part. pick_conjunct.
  - apply (indexOf_past UNDERSCORE []). revert Hb. apply plainLine_part. pick_conjunct.
  - revert Hb. apply plainLine_part. pick_conjunct.
  - reflexivity.
Qed.

(** X22.  [markdownToPlainText] turns a bold span on a line without other
    markup into its content between the brackets U+3010 and U+3011, and
    leaves the text around it as it is. *)
Theorem bold_span_bracketed pre w post :
  plainLine pre = true -> plainLine w = true -> plainLine post = true ->
  unmarked pre = true ->
  markdownToPlainText (pre ++ lit "**" ++ w ++ lit "**" ++ post)
  = Some (pre ++ [12304%N] ++ w ++ [12305%N] ++ post).
Proof. apply markdownToPlainText_bold. Qed.

(** X22, at one bold word in a sentence. *)
Lemma bold_span_bracketed_witness :
  let pre := lit "Ini " in
  let w := lit "tebal" in
  let post := lit " sekali." in
  plainLine pre = true /\ plainLine w = true /\ plainLine post = true /\
  unmarked pre = true /\
  markdownToPlainText (pre ++ lit "**" ++ w ++ lit "**" ++ post)
  = Some (pre ++ [12304%N] ++ w ++ [12305%N] ++ post).
Proof.
  cbv zeta. repeat (split; [reflexivity|]).
  exact (bold_span_bracketed (lit "Ini ") (lit "tebal") (lit " sekali.")
           eq_refl eq_refl eq_refl eq_refl).
Defined.

(** X23.  [markdownToPlainText] removes the two underscores of a line
    that has two, wherever they stand, also inside a word: the pattern
    for italics asks for no word boundary. *)
Theorem underscore_pair_removed a b c :
  plainLine a = true -> plainLine b = true -> plainLine c = true ->
  unmarked (a ++ b ++ c) = true ->
  markdownToPlainText (a ++ lit "_" ++ b ++ lit "_" ++ c) = Some (a ++ b ++ c).
Proof. apply markdownToPlainText_underscores. Qed.

(** X23, at an identifier. *)
Lemma underscore_pair_removed_witness :
  let a := lit "kolom user" in
  let b := lit "id" in
  let c := lit "baru" in
  plainLine a = true /\ plainLine b = true /\ plainLine c = true /\
  unmarked (a ++ b ++ c) = true /\
  markdownToPlainText (a ++ lit "_" ++ b ++ lit "_" ++ c) = Some (a ++ b ++ c).
Proof.
  cbv zeta. repeat (split; [reflexivity|]).
  exact (underscore_pair_removed (lit "kolom user") (lit "id") (lit "baru")
           eq_refl eq_refl eq_refl eq_refl).
Defined.

(** ** Code spans: extraction, restoration and what the splitter keeps *)

(** *** What the extraction does to a text *)

Lemma weave_cons_gap (c : char) gap gaps items :
  c :: weave (gap :: gaps) items = weave ((c :: gap) :: gaps) items.
Proof. cbn [weave]. destruct items; reflexivity. Qed.

Lemma weave_item gaps (item : str) items :
  weave ([] :: gaps) (item :: items) = item ++ weave gaps items.
Proof. reflexivity. Qed.

Lemma tokensFrom_S token index n :
  tokensFrom token index (S n) = token index :: tokensFrom token (S index) n.
Proof. reflexivity. Qed.

Lemma extractLoop_weave rx (token : nat -> str) :
  forall fuel blocks0 before s out blocks1,
  replaceLoop fuel rx
    (fun blocks (_ : str) matched (_ : list (option str)) (_ : str) =>
       let blocks' := blocks ++ [matched] in
       (token (length blocks' - 1), blocks'))
    blocks0 before s = Some (out, blocks1) ->
  exists gaps ms,
    blocks1 = blocks0 ++ ms /\ length gaps = S (length ms) /\
    s = weave gaps ms /\
    out = weave gaps (tokensFrom token (length blocks0) (length ms)).
Proof.
  induction fuel as [|fuel IH]; intros blocks0 before s out blocks1 E; [discriminate|].
  cbn [replaceLoop] in E. destruct (rx before s) as [[n caps]|].
  - cbv zeta in E.
    assert (Ei : forall m : str, length (blocks0 ++ [m]) - 1 = length blocks0)
      by (intros; rewrite length_app; cbn [length]; lia).
    rewrite !Ei in E.
    assert (El : forall m : str, length (blocks0 ++ [m]) = S (length blocks0))
      by (intros; rewrite length_app; cbn [length]; lia).
    destruct (firstn n s) as [|m ms0] eqn:Em.
    + destruct s as [|c s'].
      * injection E as <- <-. exists [[]; []], [[]].
        repeat split. cbn. now rewrite app_nil_r.
      * destruct (replaceLoop fuel _ _ _ _ s') as [[o st2]|] eqn:E1; [|discriminate].
        cbn [bind] in E. injection E as <- <-.
        apply IH in E1. destruct E1 as (gaps & ms & -> & Hl & Hs & Ho).
        destruct gaps as [|g gaps]; [discriminate|].
        exists ([] :: (c :: g) :: gaps), ([] :: ms).
        split; [now rewrite <- app_assoc|]. split; [cbn [length] in *; lia|].
        split.
        -- rewrite weave_item, <- weave_cons_gap. cbn [app]. now rewrite Hs.
        -- cbn [length]. rewrite tokensFrom_S, weave_item, <- weave_cons_gap.
           now rewrite Ho, El.
    + destruct (replaceLoop fuel _ _ _ _ (skipn n s)) as [[o st2]|] eqn:E1; [|discriminate].
      cbn [bind] in E. injection E as <- <-.
      apply IH in E1. destruct E1 as (gaps & ms & -> & Hl & Hs & Ho).
      exists ([] :: gaps), ((m :: ms0) :: ms).
      split; [now rewrite <- app_assoc|]. split; [cbn [length] in *; lia|].
      split.
      * rewrite weave_item, <- Hs, <- Em. now rewrite firstn_skipn.
      * cbn [length]. rewrite tokensFrom_S, weave_item. now rewrite Ho, El.
  - destruct s as [|c s'].
    + injection E as <- <-. exists [[]], []. repeat split. now rewrite app_nil_r.
    + destruct (replaceLoop fuel _ _ _ _ s') as [[o st2]|] eqn:E1; [|discriminate].
      cbn [bind] in E. injection E as <- <-.
      apply IH in E1. destruct E1 as (gaps & ms & -> & Hl & Hs & Ho).
      destruct gaps as [|g gaps]; [discriminate|].
      exists ((c :: g) :: gaps), ms.
      split; [reflexivity|]. split; [exact Hl|].
      split; rewrite <- weave_cons_gap; f_equal; assumption.
Qed.

Lemma extract_weave rx token text t blocks :
  extract rx token text = Some (t, blocks) ->
  exists gaps,
    length gaps = S (length blocks) /\
    text = weave gaps blocks /\
    t = weave gaps (tokensFrom token 0 (length blocks)).
Proof.
  unfold extract. intros E. apply extractLoop_weave in E.
  destruct E as (gaps & ms & -> & Hl & Hs & Ho). exists gaps. now repeat split.
Qed.

(** *** The tokens *)










Lemma codeBlockToken_not_blank i : blank (codeBlockToken i) = false.
Proof. reflexivity. Qed.

Lemma inlineCodeToken_not_blank i : blank (inlineCodeToken i) = false.
Proof. reflexivity. Qed.

(** *** Restoration replaces every occurrence *)




(** *** Restoration of spans that fit their tokens *)

Lemma replaceLoop_shorter {St : Type} rx
  (f : St -> str -> str -> list (option str) -> str -> str * St) :
  (forall st before s n caps, rx before s = Some (n, caps) ->
     length (fst (f st (rev before) (firstn n s) caps (skipn n s)))
     <= length (firstn n s)) ->
  forall fuel st before s out st',
  replaceLoop fuel rx f st before s = Some (out, st') -> length out <= length s.
Proof.
  intros Hf. induction fuel as [|fuel IH]; intros st before s out st' E; [discriminate|].
  cbn [replaceLoop] in E. destruct (rx before s) as [[n caps]|] eqn:Er.
  - pose proof (Hf st before s n caps Er) as Hrep.
    destruct (f st (rev before) (firstn n s) caps (skipn n s)) as [rep st1].
    cbn [fst] in Hrep.
    pose proof (firstn_skipn n s) as Hs. apply (f_equal (@length char)) in Hs.
    rewrite length_app in Hs.
    destruct (firstn n s) as [|m ms] eqn:Em.
    + destruct s as [|c s'].
      * injection E as <- <-. cbn [length] in *. lia.
      * destruct (replaceLoop fuel rx f st1 (c :: before) s') as [[o st2]|] eqn:E1;
          [|discriminate].
        cbn [bind] in E. injection E as <- <-. apply IH in E1.
        rewrite length_app. cbn [length] in *. lia.
    + destruct (replaceLoop fuel rx f st1 _ (skipn n s)) as [[o st2]|] eqn:E1;
        [|discriminate].
      cbn [bind] in E. injection E as <- <-. apply IH in E1.
      rewrite length_app. lia.
  - destruct s as [|c s'].
    + injection E as <- <-. apply le_n.
    + destruct (replaceLoop fuel rx f st (c :: before) s') as [[o st2]|] eqn:E1;
        [|discriminate].
      cbn [bind] in E. injection E as <- <-. apply IH in E1. cbn [length]. lia.
Qed.

Lemma firstn_startsWith p s : startsWith p s = true -> firstn (length p) s = p.
Proof.
  intros H. apply startsWith_true in H. rewrite H at 1.
  now rewrite firstn_app, firstn_all, Nat.sub_diag, firstn_0, app_nil_r.
Qed.

Lemma replaceLiteral_shorter p code s out :
  noDollar code = true -> length code <= length p ->
  replaceTemplate (rxLiteral p) code s = Some out -> length out <= length s.
Proof.
  intros Hd Hl. unfold replaceTemplate.
  destruct (replaceLoop _ _ _ _ _ _) as [[o st]|] eqn:E; [|discriminate].
  intros H. injection H as <-. revert E. apply replaceLoop_shorter.
  intros st0 before s0 n caps Er. cbn [fst]. rewrite (getSubstitution_plain _ _ _ _ _ Hd).
  unfold rxLiteral in Er. destruct (startsWith p s0) eqn:Es; [|discriminate].
  injection Er as <- _. now rewrite (firstn_startsWith p s0 Es).
Qed.

Lemma restoreFrom_shorter token : forall blocks index s r,
  (forall i code, nth_error blocks i = Some code ->
     noDollar code = true /\ length code <= length (token (index + i))) ->
  restoreFrom token index blocks s = Some r -> length r <= length s.
Proof.
  induction blocks as [|code blocks IH]; intros index s r Hf E.
  - injection E as <-. apply le_n.
  - cbn [restoreFrom] in E.
    destruct (replaceTemplate _ code s) as [r1|] eqn:E1; [|discriminate]. cbn [bind] in E.
    destruct (Hf 0 code eq_refl) as [Hd Hl]. rewrite Nat.add_0_r in Hl.
    apply (replaceLiteral_shorter _ _ _ _ Hd Hl) in E1.
    apply IH in E; [lia|].
    intros i c Hi. specialize (Hf (S i) c Hi). now rewrite Nat.add_succ_r in Hf.
Qed.

Lemma restore_shorter ib cb s r :
  fits inlineCodeToken ib -> fits codeBlockToken cb ->
  restore ib cb s = Some r -> length r <= length s.
Proof.
  intros Hi Hc. unfold restore.
  destruct (restoreFrom inlineCodeToken 0 ib s) as [r1|] eqn:E1; [|discriminate].
  cbn [bind]. intros E2.
  apply restoreFrom_shorter in E1; [|exact Hi].
  apply restoreFrom_shorter in E2; [lia|exact Hc].
Qed.

(** *** The fallback is for blank texts only *)

Lemma extract_blank rx token text t blocks :
  (forall i, blank (token i) = false) ->
  extract rx token text = Some (t, blocks) -> blank t = true ->
  t = text /\ blocks = [].
Proof.
  intros Ht E Hb. apply extract_weave in E. destruct E as (gaps & Hl & -> & ->).
  destruct blocks as [|m ms].
  - split; [|reflexivity]. destruct gaps as [|g gaps]; reflexivity.
  - exfalso. destruct gaps as [|g gaps]; [discriminate|].
    cbn [length] in Hb. rewrite tokensFrom_S in Hb. cbn [weave] in Hb.
    rewrite !blank_app in Hb.
    apply andb_prop in Hb as [_ Hb]. apply andb_prop in Hb as [Hb _].
    now rewrite Ht in Hb.
Qed.

(** *** The budget, with code *)

Lemma mapM_Forall2 {A B : Type} (f : A -> option B) l ys :
  mapM f l = Some ys -> Forall2 (fun x y => f x = Some y) l ys.
Proof.
  revert ys. induction l as [|x l IH]; intros ys E.
  - injection E as <-. constructor.
  - cbn [mapM] in E. destruct (f x) as [y|] eqn:Ex; [|discriminate]. cbn [bind] in E.
    destruct (mapM f l) as [ys'|]; [|discriminate]. cbn [bind] in E.
    injection E as <-. constructor; auto.
Qed.

Lemma nonWhite_nil_blank (s : str) : nonWhite s = [] -> blank s = true.
Proof.
  intros H. destruct (blank s) eqn:E; [reflexivity|].
  now apply blank_content in E.
Qed.

Lemma protect_blank text t cb ib :
  protect text = Some (t, cb, ib) -> blank t = true -> blank text = true.
Proof.
  unfold protect.
  destruct (extract rxFence codeBlockToken text) as [[t1 cb1]|] eqn:E1; [|discriminate].
  cbn [bind].
  destruct (extract rxInline inlineCodeToken t1) as [[t2 ib2]|] eqn:E2; [|discriminate].
  cbn [bind]. intros H Hb. injection H as <- <- <-.
  destruct (extract_blank _ _ _ _ _ inlineCodeToken_not_blank E2 Hb) as [-> _].
  now destruct (extract_blank _ _ _ _ _ codeBlockToken_not_blank E1 Hb) as [-> _].
Qed.

(** The chunks of a long text are the restorations of chunks within the
    budget, unless there is none, which takes a blank text. *)
Lemma splitLongMessage_restored fuel L text t cb ib out :
  L < length text -> protect text = Some (t, cb, ib) ->
  splitLongMessage fuel L text = Some out ->
  (exists chunks,
     within L chunks /\ Forall2 (fun held chunk => restore ib cb held = Some chunk) chunks out)
  \/ (blank text = true /\ out = [text]).
Proof.
  intros Hl Ep H.
  destruct (splitLongMessage_long _ _ _ _ Hl H)
    as (t' & cb' & ib' & chunks & restored & Ep' & Ec & Hw & Em & ->).
  rewrite Ep in Ep'. injection Ep' as <- <- <-.
  destruct restored as [|r rs].
  - right. split; [|reflexivity].
    apply mapM_length in Em. destruct chunks; [|discriminate].
    apply paragraphChunks_content in Ec. cbn [concat] in Ec.
    apply (protect_blank _ _ _ _ Ep). apply nonWhite_nil_blank. now rewrite <- Ec.
  - left. exists chunks. split; [exact Hw|]. now apply mapM_Forall2.
Qed.

(** C1, amended.  Every returned chunk is within [maxLength], or is the
    restoration of a chunk that was within [maxLength] and that restoring
    the code spans made longer; the one exception is a blank text longer
    than [maxLength], which is returned whole.  When no extracted span
    holds a dollar sign or is longer than its placeholder, restoration
    lengthens nothing and every chunk is within [maxLength]. *)
Theorem budget_up_to_restoration fuel maxLength text
  textWithPlaceholders codeBlocks inlineCodeBlocks out :
  protect text = Some (textWithPlaceholders, codeBlocks, inlineCodeBlocks) ->
  splitLongMessage fuel maxLength text = Some out ->
  (Forall (fun chunk =>
             length chunk <= maxLength \/
             exists held,
               length held <= maxLength /\ length held < length chunk /\
               restore inlineCodeBlocks codeBlocks held = Some chunk) out
   \/ (blank text = true /\ maxLength < length text /\ out = [text]))
  /\ (fits inlineCodeToken inlineCodeBlocks -> fits codeBlockToken codeBlocks ->
      Forall (fun chunk => length chunk <= maxLength) out
      \/ (blank text = true /\ maxLength < length text /\ out = [text])).
Proof.
  intros Ep H. destruct (Nat.le_gt_cases (length text) maxLength) as [Hl|Hl].
  - rewrite (splitLongMessage_short fuel maxLength text Hl) in H. injection H as <-.
    split; [|intros _ _]; left; constructor; auto.
  - destruct (splitLongMessage_restored _ _ _ _ _ _ _ Hl Ep H)
      as [(chunks & Hw & Hr)|[Hb ->]]; [|split; [|intros _ _]; right; auto].
    split; [|intros Hi Hc]; left.
    + clear H. induction Hr as [|held chunk chunks out Hx _ IH]; constructor.
      * apply Forall_inv in Hw.
        destruct (Nat.le_gt_cases (length chunk) maxLength) as [Hle|Hgt]; [now left|].
        right. exists held. repeat split; [exact Hw|lia|exact Hx].
      * apply IH. now apply Forall_inv_tail in Hw.
    + clear H. induction Hr as [|held chunk chunks out Hx _ IH]; constructor.
      * apply Forall_inv in Hw. apply (restore_shorter _ _ _ _ Hi Hc) in Hx. lia.
      * apply IH. now apply Forall_inv_tail in Hw.
Qed.

(** C1 amended, at a text with two fenced blocks and two inline spans and
    a budget of 40. *)
Lemma budget_up_to_restoration_witness :
  let text := lit "Jalankan `ls` lalu ```cat a``` untuk melihat isi. Lalu `pwd` dan ```ls b``` juga ya." in
  let held := lit "Jalankan ___INLINE_CODE_0___ lalu ___CODE_BLOCK_0___ untuk melihat isi. Lalu ___INLINE_CODE_1___ dan ___CODE_BLOCK_1___ juga ya." in
  let codeBlocks := [lit "```cat a```"; lit "```ls b```"] in
  let inlineCodeBlocks := [lit "`ls`"; lit "`pwd`"] in
  let out := [lit "Jalankan"; lit "`ls` lalu"; lit "```cat a``` untuk"; lit "melihat isi.";
              lit "Lalu `pwd`"; lit "dan ```ls b```"; lit "juga ya."] in
  protect text = Some (held, codeBlocks, inlineCodeBlocks) /\
  splitLongMessage 100 40 text = Some out /\
  fits inlineCodeToken inlineCodeBlocks /\ fits codeBlockToken codeBlocks /\
  (Forall (fun chunk => length chunk <= 40) out
   \/ (blank text = true /\ 40 < length text /\ out = [text])).
Proof.
  cbv zeta.
  assert (Hi : fits inlineCodeToken [lit "`ls`"; lit "`pwd`"]).
  { intros [|[|[|i]]] code E; try discriminate; injection E as <-;
      (split; [reflexivity|apply Nat.leb_le; reflexivity]). }
  assert (Hc : fits codeBlockToken [lit "```cat a```"; lit "```ls b```"]).
  { intros [|[|[|i]]] code E; try discriminate; injection E as <-;
      (split; [reflexivity|apply Nat.leb_le; reflexivity]). }
  split; [reflexivity|]. split; [reflexivity|]. split; [exact Hi|]. split; [exact Hc|].
  exact (proj2 (budget_up_to_restoration 100 40
                  (lit "Jalankan `ls` lalu ```cat a``` untuk melihat isi. Lalu `pwd` dan ```ls b``` juga ya.")
                  (lit "Jalankan ___INLINE_CODE_0___ lalu ___CODE_BLOCK_0___ untuk melihat isi. Lalu ___INLINE_CODE_1___ dan ___CODE_BLOCK_1___ juga ya.")
                  [lit "```cat a```"; lit "```ls b```"] [lit "`ls`"; lit "`pwd`"]
                  [lit "Jalankan"; lit "`ls` lalu"; lit "```cat a``` untuk";
                   lit "melihat isi."; lit "Lalu `pwd`"; lit "dan ```ls b```";
                   lit "juga ya."]
                  eq_refl eq_refl) Hi Hc).
Defined.

(** *** The tokens the extraction inserts *)










(** *** Runs without space *)








(** *** What a map that goes through white space keeps *)


Section Separated.

Variable nu : str -> str.
Hypothesis nu_nil : nu [] = [].
Hypothesis nu_sep :
  forall a c b, isWhiteSpace c = true -> nu (a ++ c :: b) = nu a ++ nu b.












Section Tiers.

Variable fuel : nat.
Variable L : nat.








End Tiers.

End Separated.

(** *** Restoration goes through white space *)













